(** * rn2483.py : an RN2483 LoRaWAN modem driven over a serial line

    A shallow embedding of [src/rn2483.py].  The script talks to the modem
    through [serial.Serial]: it writes a command line, sleeps, and reads
    response lines.  The embedding is a state-and-exception monad over

    - a script of what successive [sp.readline()] calls deliver,
    - the trace of everything the program does to the outside world
      (bytes written, lines read, sleeps, log records), and
    - the local variable [error_counts] of [main].

    Python [str] values are lists of Unicode code points, [bytes] values are
    lists of octets; [str.encode()] / [bytes.decode()] are strict UTF-8. *)

From Stdlib Require Import ZArith NArith List String Ascii Bool Lia.
From Stdlib Require Decimal DecimalString DecimalPos.
Import ListNotations.

(* ===================================================================== *)
(** ** Python built-ins used by the script *)
(* ===================================================================== *)

Module Py.

Local Open Scope N_scope.

(** A [str] is a sequence of code points, a [bytes] a sequence of octets. *)
Definition str := list N.
Definition bytes := list N.

(** A literal of the source text (all of them are ASCII). *)
Definition lit (s : string) : list N :=
  map N_of_ascii (list_ascii_of_string s).

(** [str.isspace] on one character: what [str.rstrip()] removes. *)
Definition isspace (c : N) : bool :=
  ((0x09 <=? c) && (c <=? 0x0D)) || ((0x1C <=? c) && (c <=? 0x20))
  || (c =? 0x85) || (c =? 0xA0) || (c =? 0x1680)
  || ((0x2000 <=? c) && (c <=? 0x200A))
  || (c =? 0x2028) || (c =? 0x2029) || (c =? 0x202F) || (c =? 0x205F)
  || (c =? 0x3000).

(** ASCII whitespace: what [bytes.strip()] removes (space, \t \n \v \f \r). *)
Definition isspace_ascii (b : N) : bool :=
  ((0x09 <=? b) && (b <=? 0x0D)) || (b =? 0x20).

Fixpoint lstrip_with (p : N -> bool) (s : list N) : list N :=
  match s with
  | [] => []
  | c :: r => if p c then lstrip_with p r else s
  end.

Definition rstrip_with (p : N -> bool) (s : list N) : list N :=
  rev (lstrip_with p (rev s)).

(** [data.rstrip()] on a [str]. *)
Definition rstrip (s : str) : str := rstrip_with isspace s.

(** [rdata.strip()] on a [bytes]. *)
Definition strip (b : bytes) : bytes :=
  rstrip_with isspace_ascii (lstrip_with isspace_ascii b).

(** [a == b] on sequences. *)
Fixpoint str_eq (a b : list N) : bool :=
  match a, b with
  | [], [] => true
  | x :: a', y :: b' => (x =? y) && str_eq a' b'
  | _, _ => false
  end.

Fixpoint startswith (pat s : list N) : bool :=
  match pat, s with
  | [], _ => true
  | p :: pat', c :: s' => (p =? c) && startswith pat' s'
  | _ :: _, [] => false
  end.

(** [pat in s] : substring containment. *)
Fixpoint contains (pat s : list N) : bool :=
  startswith pat s ||
  match s with
  | [] => false
  | _ :: s' => contains pat s'
  end.

(** [s.split(sep)] for a one-character separator: every occurrence of the
    separator cuts, empty fields are kept, the result is never empty. *)
Fixpoint split (sep : N) (s : str) : list str :=
  match s with
  | [] => [[]]
  | c :: r =>
      if c =? sep then [] :: split sep r
      else match split sep r with
           | [] => [[c]]
           | f :: fs => (c :: f) :: fs
           end
  end.

(** [l[-1]] : the last element, [None] standing for [IndexError]. *)
Definition index_last {A} (l : list A) : option A :=
  match rev l with
  | [] => None
  | x :: _ => Some x
  end.

(** [str(n)] for an [int]. *)
Definition str_of_int (z : Z) : str :=
  if (z <? 0)%Z
  then lit "-" ++ lit (DecimalString.NilEmpty.string_of_uint (N.to_uint (Z.to_N (- z))))
  else lit (DecimalString.NilEmpty.string_of_uint (N.to_uint (Z.to_N z))).

(** [b.hex()] : two lower-case hexadecimal digits per octet. *)
Definition hexdigit (n : N) : N :=
  nth (N.to_nat n) (lit "0123456789abcdef") 0.

Fixpoint hex (b : bytes) : str :=
  match b with
  | [] => []
  | x :: r => hexdigit (x / 16) :: hexdigit (x mod 16) :: hex r
  end.

(** *** UTF-8 *)

(** One code point to its UTF-8 octets; surrogates (and anything past
    U+10FFFF) have none: [UnicodeEncodeError]. *)
Definition encode_cp (c : N) : option bytes :=
  if c <? 0x80 then Some [c]
  else if c <? 0x800 then Some [0xC0 + c / 64; 0x80 + c mod 64]
  else if c <? 0x10000 then
    if (0xD800 <=? c) && (c <=? 0xDFFF) then None
    else Some [0xE0 + c / 4096; 0x80 + (c / 64) mod 64; 0x80 + c mod 64]
  else if c <? 0x110000 then
    Some [0xF0 + c / 262144; 0x80 + (c / 4096) mod 64;
          0x80 + (c / 64) mod 64; 0x80 + c mod 64]
  else None.

(** [s.encode()] ; [None] is [UnicodeEncodeError]. *)
Fixpoint encode (s : str) : option bytes :=
  match s with
  | [] => Some []
  | c :: r =>
      match encode_cp c, encode r with
      | Some a, Some b => Some (a ++ b)
      | _, _ => None
      end
  end.

Definition between (lo hi b : N) : bool := (lo <=? b) && (b <=? hi).

Definition cont (b : N) : N := b - 0x80.

(** [b.decode()] : strict UTF-8 (well-formed sequences only: no overlong
    forms, no surrogates, nothing past U+10FFFF); [None] is
    [UnicodeDecodeError]. *)
Fixpoint decode (b : bytes) : option str :=
  match b with
  | [] => Some []
  | b0 :: r0 =>
      if b0 <? 0x80 then option_map (cons b0) (decode r0)
      else if between 0xC2 0xDF b0 then
        match r0 with
        | b1 :: r1 =>
            if between 0x80 0xBF b1
            then option_map (cons ((b0 - 0xC0) * 64 + cont b1)) (decode r1)
            else None
        | _ => None
        end
      else if between 0xE0 0xEF b0 then
        match r0 with
        | b1 :: b2 :: r2 =>
            if between (if b0 =? 0xE0 then 0xA0 else 0x80)
                       (if b0 =? 0xED then 0x9F else 0xBF) b1
               && between 0x80 0xBF b2
            then option_map
                   (cons ((b0 - 0xE0) * 4096 + cont b1 * 64 + cont b2))
                   (decode r2)
            else None
        | _ => None
        end
      else if between 0xF0 0xF4 b0 then
        match r0 with
        | b1 :: b2 :: b3 :: r3 =>
            if between (if b0 =? 0xF0 then 0x90 else 0x80)
                       (if b0 =? 0xF4 then 0x8F else 0xBF) b1
               && between 0x80 0xBF b2 && between 0x80 0xBF b3
            then option_map
                   (cons ((b0 - 0xF0) * 262144 + cont b1 * 4096
                          + cont b2 * 64 + cont b3))
                   (decode r3)
            else None
        | _ => None
        end
      else None
  end.

End Py.

(* ===================================================================== *)
(** ** The outside world and the monad of the script *)
(* ===================================================================== *)

(** The exceptions the script can meet. *)
Inductive exn :=
| KeyboardInterrupt
| SerialException
| ValueError
| UnicodeEncodeError
| UnicodeDecodeError
| IndexError.

(** [isinstance(e, ValueError)] : the two Unicode errors are subclasses of
    [ValueError]. *)
Definition is_ValueError (e : exn) : bool :=
  match e with
  | ValueError | UnicodeEncodeError | UnicodeDecodeError => true
  | _ => false
  end.

(** What [except (ValueError, serial.SerialException)] catches (lines 82
    and 221). *)
Definition port_error (e : exn) : bool :=
  is_ValueError e || match e with SerialException => true | _ => false end.

(** [logging] levels used by the script. *)
Inductive level := DEBUG | INFO | ERROR | CRITICAL.

(** What the program does to the outside world, in the order it does it.
    Durations are in milliseconds ([time.sleep(0.2)] is [Sleep 200]); a log
    record keeps its format string and its arguments, already turned into
    text. *)
Inductive event :=
| Open                                               (* sp.open() *)
| Write (b : Py.bytes)                               (* sp.write(b) *)
| Read (b : Py.bytes)                                (* sp.readline() gave b *)
| Sleep (ms : N)                                     (* time.sleep(ms/1000) *)
| Log (l : level) (fmt : string) (args : list Py.str)
| Close.                                             (* sp.close() *)

(** What one call of [sp.readline()] meets: a line (possibly empty: the
    read timed out with nothing received), or the user's interrupt.  The
    loops of the script are written against empty reads, and the model has
    them; the port as [setup_serial] opens it is given no timeout, though,
    and delivers none (see [untimed]). *)
Inductive rx_item :=
| Line (b : Py.bytes)
| CtrlC.

(** The state threaded through the script.
    - [rx] : what the coming [readline()] calls deliver, in order; when it is
      exhausted the device sends nothing more and a read never returns;
    - [trace] : the events so far, oldest first;
    - [error_counts] : the local variable of [main];
    - [port_fault] : what [sp.open()] raises, if anything. *)
Record state := mkState {
  rx : list rx_item;
  trace : list event;
  error_counts : Z;
  port_fault : option exn
}.

(** How a computation ends: with a value, with an exception, blocked for
    ever in a read, or (for the bounded unfolding of a loop) out of fuel. *)
Inductive result (A : Type) :=
| Ret (a : A)
| Raise (e : exn)
| Blocked
| OutOfFuel.

Arguments Ret {A} a.
Arguments Raise {A} e.
Arguments Blocked {A}.
Arguments OutOfFuel {A}.

Definition M (A : Type) := state -> result A * state.

Definition ret {A} (a : A) : M A := fun s => (Ret a, s).

Definition bind {A B} (m : M A) (k : A -> M B) : M B :=
  fun s =>
    match m s with
    | (Ret a, s') => k a s'
    | (Raise e, s') => (Raise e, s')
    | (Blocked, s') => (Blocked, s')
    | (OutOfFuel, s') => (OutOfFuel, s')
    end.

Definition raise {A} (e : exn) : M A := fun s => (Raise e, s).

Declare Scope py_scope.
Delimit Scope py_scope with py.
Notation "x <- m ;; k" := (bind m (fun x => k))
  (at level 61, m at next level, right associativity) : py_scope.
Notation "m ;; k" := (bind m (fun _ => k))
  (at level 61, right associativity) : py_scope.
Local Open Scope py_scope.

(** [try: m except <handled>: h]. *)
Definition try_except {A} (m : M A) (handled : exn -> bool) (h : exn -> M A)
  : M A :=
  fun s =>
    match m s with
    | (Raise e, s') => if handled e then h e s' else (Raise e, s')
    | other => other
    end.

Definition set_rx (r : list rx_item) (s : state) : state :=
  mkState r (trace s) (error_counts s) (port_fault s).

Definition emits (evs : list event) (s : state) : state :=
  mkState (rx s) (trace s ++ evs) (error_counts s) (port_fault s).

Definition set_error_counts (n : Z) (s : state) : state :=
  mkState (rx s) (trace s) n (port_fault s).

Definition emit (e : event) : M unit := fun s => (Ret tt, emits [e] s).

(** [time.sleep], [logging.<level>], [sp.write], [sp.close]. *)
Definition sleep (ms : N) : M unit := emit (Sleep ms).
Definition log (l : level) (fmt : string) (args : list Py.str) : M unit :=
  emit (Log l fmt args).
Definition write (b : Py.bytes) : M unit := emit (Write b).
Definition close : M unit := emit Close.

(** [sp.readline()].  The user's interrupt is delivered while the program
    waits in a read. *)
Definition readline : M Py.bytes :=
  fun s =>
    match rx s with
    | [] => (Blocked, s)
    | CtrlC :: r => (Raise KeyboardInterrupt, set_rx r s)
    | Line b :: r => (Ret b, emits [Read b] (set_rx r s))
    end.

(** [sp.open()]. *)
Definition open : M unit :=
  fun s =>
    match port_fault s with
    | Some e => (Raise e, s)
    | None => (Ret tt, emits [Open] s)
    end.

Definition get_error_counts : M Z := fun s => (Ret (error_counts s), s).
Definition put_error_counts (n : Z) : M unit :=
  fun s => (Ret tt, set_error_counts n s).

Definition str_encode (s : Py.str) : M Py.bytes :=
  match Py.encode s with
  | Some b => ret b
  | None => raise UnicodeEncodeError
  end.

Definition bytes_decode (b : Py.bytes) : M Py.str :=
  match Py.decode b with
  | Some t => ret t
  | None => raise UnicodeDecodeError
  end.

(** [while cond(x): x = body(x)], unfolded at most [fuel] times. *)
Fixpoint while_ {X} (fuel : nat) (cond : X -> M bool) (body : X -> M X)
  (x : X) : M X :=
  c <- cond x ;;
  if c : bool then
    match fuel with
    | O => fun s => (OutOfFuel, s)
    | S fuel' => x' <- body x ;; while_ fuel' cond body x'
    end
  else ret x.

(** Every loop of the script reads at least one scripted item per turn, so
    one more turn than there are items left is always enough
    (see [while_unfold] and the last section on the loops). *)
Definition while {X} (cond : X -> M bool) (body : X -> M X) (x : X) : M X :=
  fun s => while_ (S (List.length (rx s))) cond body x s.

(** [for x in l: body(x)]. *)
Fixpoint for_each {X} (l : list X) (body : X -> M unit) : M unit :=
  match l with
  | [] => ret tt
  | x :: l' => body x ;; for_each l' body
  end.

(** Truth value of a [bytes] object: [not rdata] is [is_empty rdata]. *)
Definition is_empty (b : Py.bytes) : bool :=
  match b with [] => true | _ :: _ => false end.

(* ===================================================================== *)
(** ** The script *)
(* ===================================================================== *)

Import Py.

(** *** Configuration (lines 17-28) *)

Definition APPKEY : str := lit "0123456789ABCDEF0123456789ABCDEF".
Definition JOINEUI : str := lit "DEAD25DEAD25DEAD".
Definition DEVEUI : str := lit "DEADDEAD00090002".
Definition MESSAGE : str := lit "Hello from " ++ DEVEUI.
Definition SPREADING_FACTOR : Z := 7.

(** The line terminator ["\x0d\x0a"] and the markers looked for in
    responses. *)
Definition CRLF : str := [13; 10]%N.
Definition ok : str := lit "ok".
Definition accepted : str := lit "accepted".
Definition mac_rx : str := lit "mac_rx".
Definition space : N := 32%N.

(** The double quote inside the format string of line 249. *)
Definition dquote : string := String (ascii_of_nat 34) EmptyString.

(** *** [setup_serial] (lines 57-84) *)

Definition setup_serial : M unit :=
  try_except open port_error
    (fun exception =>
       log CRITICAL "Could not open the serial connection." [] ;;
       raise exception).

(** *** [send] (lines 86-108) *)

(** Line 96: [(data.rstrip()+"\x0d\x0a").encode()]. *)
Definition frame (data : str) : M bytes := str_encode (rstrip data ++ CRLF).

(** Lines 101-103 (and 198-200): read until a line is not empty. *)
Definition read_nonempty : M bytes :=
  rdata <- readline ;;
  while (fun rdata => ret (is_empty rdata)) (fun _ => readline) rdata.

Definition send (data : str) : M str :=
  data_to_send <- frame data ;;
  write data_to_send ;;
  sleep 200 ;;
  rdata <- read_nonempty ;;
  decoded_response <- bytes_decode (strip rdata) ;;
  log DEBUG "Decoded response : %s" [decoded_response] ;;
  ret decoded_response.

(** *** [lora_setup] (lines 110-205) *)

(** Line 137. *)
Definition data_rate_of (spreading_factor : Z) : Z :=
  Z.abs (spreading_factor - 12).

(** Lines 144-185: reset, identity, data rate, channels, save. *)
Definition provision (spreading_factor : Z) : M unit :=
  let data_rate := data_rate_of spreading_factor in
  log INFO "Resetting device" [] ;;
  response <- send (lit "sys reset") ;;
  log INFO "Reset response : %s" [response] ;;

  log INFO "Setting APPKEY : %s" [APPKEY] ;;
  response <- send (lit "mac set appkey " ++ APPKEY) ;;
  log INFO "Set APPKEY response : %s" [response] ;;

  log INFO "Setting JOINEUI : %s" [JOINEUI] ;;
  response <- send (lit "mac set appeui " ++ JOINEUI) ;;
  log INFO "Set JOINEUI response : %s" [response] ;;

  log INFO "Setting DEVEUI : %s" [DEVEUI] ;;
  response <- send (lit "mac set deveui " ++ DEVEUI) ;;
  log INFO "Set DEVEUI response : %s" [response] ;;

  log INFO "Setting the data-rate : %s, it's |SPREADING_FACTOR-12|"
      [str_of_int data_rate] ;;
  response <- send (lit "mac set dr " ++ str_of_int data_rate) ;;
  log INFO "Set data-rate : %s" [response] ;;

  for_each [0; 1; 2]%Z (fun channel =>
    log INFO "Setting channel %s duty cycle to  1.00" [str_of_int channel] ;;
    response <- send (lit "mac set ch dcycle " ++ str_of_int channel ++ lit " 1") ;;
    log INFO "Set %s to dcycle response : %s" [str_of_int channel; response] ;;
    log INFO "Setting channel %s to on" [str_of_int channel] ;;
    response <- send (lit "mac set ch status " ++ str_of_int channel ++ lit " on") ;;
    log INFO "Set %s on response : %s" [str_of_int channel; response]) ;;

  log INFO "Saving MAC Settings" [] ;;
  response <- send (lit "mac save") ;;
  log INFO "Saving mac settings response : %s" [response].

(** Lines 189-194: one turn of the join loop. *)
Definition join_turn (joining : bool) : M bool :=
  log INFO "Preparing to join the network" [] ;;
  response <- send (lit "mac join otaa") ;;
  log INFO "Mac join otaa response : %s" [response] ;;
  let joining := if contains ok response then true else joining in
  sleep 2000 ;;
  ret joining.

(** Lines 187-194: ask to join until a response holds "ok". *)
Definition join_attempts : M bool :=
  while (fun joining => ret (negb joining)) join_turn false.

(** Lines 196-205: the verdict of the network. *)
Definition await_accept : M bool :=
  log INFO "Wating to get the accepted response" [] ;;
  sleep 2000 ;;
  ret_ <- read_nonempty ;;
  response <- bytes_decode (strip ret_) ;;
  log INFO "Status of the join request : %s" [response] ;;
  if negb (str_eq response accepted) then ret false else ret true.

Definition lora_setup (spreading_factor : Z) : M bool :=
  provision spreading_factor ;;
  join_attempts ;;
  await_accept.

(** *** [main] (lines 214-280) *)

(** Lines 226-229. *)
Definition command_of (encoded_message : str) : str :=
  lit "mac tx cnf 220 " ++ encoded_message.

(** Line 261: [not ret and tries < 5], on the pair of [ret] and [tries]. *)
Definition poll_test (rt : bytes * Z) : M bool :=
  ret (is_empty (fst rt) && (snd rt <? 5)%Z).

(** Lines 262-264: one turn of the polling loop. *)
Definition poll_turn (rt : bytes * Z) : M (bytes * Z) :=
  sleep 1000 ;;
  ret_ <- readline ;;
  ret (ret_, (snd rt + 1)%Z).

(** Lines 259-264: the first read, then at most five more, one second
    apart. *)
Definition poll_follow_up : M bytes :=
  let tries := 0%Z in
  ret_ <- readline ;;
  rt <- while poll_test poll_turn (ret_, tries) ;;
  ret (fst rt).

(** Line 275: [decoded_response.split(" ")[-1]]. *)
Definition payload_of (decoded_response : str) : option str :=
  index_last (split space decoded_response).

Definition incr_error_counts : M unit :=
  n <- get_error_counts ;; put_error_counts (n + 1)%Z.

(** Lines 245-276: the body of the inner loop.  Each [continue] of the
    source is the end of a branch here. *)
Definition uplink (command : str) : M unit :=
  log INFO "Waiting to send message" [] ;;
  sleep 10000 ;;
  log INFO ("Sending command " ++ dquote ++ "%s" ++ dquote) [command] ;;
  response <- send command ;;
  if negb (contains ok response) then
    incr_error_counts ;;
    log ERROR "Could not send the command, retrying" []
  else
    log DEBUG "Message successfuly sent through serial" [] ;;
    ret_ <- poll_follow_up ;;
    if is_empty ret_ then
      incr_error_counts ;;
      log ERROR "No response, maybe collision or message lost" []
    else
      decoded_response <- bytes_decode (strip ret_) ;;
      log INFO "Got response %s" [decoded_response] ;;
      if negb (contains mac_rx decoded_response) then
        log INFO "No mac_rx in response, continuing" []
      else
        log INFO "Got a max_rx (downlink, processing)" [] ;;
        match payload_of decoded_response with
        | None => raise IndexError
        | Some payload => log DEBUG "Payload : %s" [payload]
        end.

(** Line 243: [error_counts <= 5]. *)
Definition transmit_test (_ : unit) : M bool :=
  n <- get_error_counts ;; ret (n <=? 5)%Z.

(** Lines 243-276: [while error_counts <= 5]. *)
Definition transmit_loop (command : str) : M unit :=
  while transmit_test (fun _ => uplink command) tt.

(** Lines 235-237: [while not lora_setup(...)]. *)
Definition connect : M unit :=
  while (fun _ => joined <- lora_setup SPREADING_FACTOR ;; ret (negb joined))
        (fun _ =>
           log ERROR "Failed to connect, retrying in 3s" [] ;;
           sleep 3000)
        tt.

(** Lines 235-242: from the head of the outer loop to the head of the
    inner one. *)
Definition enter_session : M unit :=
  connect ;;
  log INFO "Connected to LoRa network" [] ;;
  put_error_counts 0.

(** Lines 233-276: [while True]. *)
Definition main_loop (command : str) : M unit :=
  while (fun _ => ret true)
        (fun _ => enter_session ;; transmit_loop command) tt.

(** The name of the class of an exception. *)
Definition exn_name (e : exn) : str :=
  match e with
  | KeyboardInterrupt => lit "KeyboardInterrupt"
  | SerialException => lit "SerialException"
  | ValueError => lit "ValueError"
  | UnicodeEncodeError => lit "UnicodeEncodeError"
  | UnicodeDecodeError => lit "UnicodeDecodeError"
  | IndexError => lit "IndexError"
  end.

(** [str(err.__class__)]. *)
Definition class_text (e : exn) : str :=
  lit "<class '" ++
  match e with
  | SerialException => lit "serial.serialutil.SerialException"
  | _ => exn_name e
  end ++ lit "'>".

(** [main] returns 1, 0, or (were the outer loop ever to end) [None].  The
    second argument of the ERROR record is [str(err)], the message the
    exception carries; the model does not keep messages, and the name of
    the class stands for it. *)
Definition main : M (option Z) :=
  opened <- try_except (setup_serial ;; ret true) port_error
              (fun err =>
                 log ERROR "Failed to create the serial connection, %s:%s"
                     [class_text err; exn_name err] ;;
                 ret false) ;;
  if negb opened then ret (Some 1%Z)
  else
    encoded <- str_encode MESSAGE ;;
    let encoded_message := hex encoded in
    let command := command_of encoded_message in
    try_except (main_loop command ;; ret None)
      (fun e => match e with KeyboardInterrupt => true | _ => false end)
      (fun _ =>
         log INFO "KeyboardInterrupt, ending program" [] ;;
         close ;;
         ret (Some 0%Z)).

(** Lines 283-285: the module body.  The value of [main()] is an expression
    statement: it is computed and dropped. *)
Definition script : M unit :=
  log INFO "Starting program RN2483" [] ;;
  _ <- main ;;
  ret tt.

(** The status the interpreter exits with: 0 when the module body runs to
    its end; 1 when an exception escapes it, but for the interrupt, on
    which the interpreter ends itself by SIGINT (130 to a shell); none
    while it still runs. *)
Definition exit_status (r : result unit) : option Z :=
  match r with
  | Ret _ => Some 0%Z
  | Raise KeyboardInterrupt => Some 130%Z
  | Raise _ => Some 1%Z
  | Blocked | OutOfFuel => None
  end.

(** A fresh process: nothing done yet, [error_counts] not yet bound. *)
Definition boot (script_rx : list rx_item) (fault : option exn) : state :=
  mkState script_rx [] 0 fault.

(** *** Reading a trace *)

Definition writes (t : list event) : list bytes :=
  flat_map (fun e => match e with Write b => [b] | _ => [] end) t.

(** The commands and the pauses, in order: reads and log records dropped. *)
Definition timeline (t : list event) : list event :=
  filter (fun e => match e with Write _ | Sleep _ => true | _ => false end) t.

Definition is_error (e : event) : bool :=
  match e with Log ERROR _ _ => true | _ => false end.

(** How many failures were logged. *)
Definition failures (t : list event) : nat :=
  List.length (filter is_error t).

(* ===================================================================== *)
(** ** The vocabulary of the statements *)
(* ===================================================================== *)

Definition ascii7 (c : N) : Prop := (c < 128)%N.

Definition digit (c : N) : Prop := (48 <= c <= 57)%N.

(** A computation never puts anything back in front of the reads... *)
Definition consumes {A} (m : M A) : Prop :=
  forall s, List.length (rx (snd (m s))) <= List.length (rx s).

(** ... and some computations have read at least one item when they
    return. *)
Definition advances {A} (m : M A) : Prop :=
  forall s a s', m s = (Ret a, s') -> List.length (rx s') < List.length (rx s).

(** [observes P m] : [m] only appends events that satisfy [P], and leaves
    [error_counts] and the port alone. *)
Definition observes (P : event -> bool) {A} (m : M A) : Prop :=
  forall s, exists new,
    trace (snd (m s)) = trace s ++ new /\ forallb P new = true /\
    error_counts (snd (m s)) = error_counts s /\
    port_fault (snd (m s)) = port_fault s.

(** Events other than writes, and events other than failure records. *)
Definition not_write (e : event) : bool :=
  match e with Write _ => false | _ => true end.

Definition not_error (e : event) : bool := negb (is_error e).

(** One answer of the modem: [quiet] reads that time out, then the line
    [raw], which is not empty and reads as [text] once stripped and
    decoded. *)
Record reply := mkReply { quiet : nat; raw : bytes; text : str }.

Definition heard (p : reply) : list rx_item :=
  repeat (Line []) (quiet p) ++ [Line (raw p)].

Definition genuine (p : reply) : Prop :=
  raw p <> [] /\ Py.decode (strip (raw p)) = Some (text p).

Definition reads_of (p : reply) : list event :=
  repeat (Read []) (quiet p) ++ [Read (raw p)].

(** What [send] adds to the trace when it writes [line] and gets [p]. *)
Definition exchange (line : bytes) (p : reply) : list event :=
  [Write line; Sleep 200] ++ reads_of p ++
  [Log DEBUG "Decoded response : %s" [text p]].

(** What [send] does once its line is written (lines 98-108). *)
Definition await_response : M str :=
  sleep 200 ;;
  rdata <- read_nonempty ;;
  decoded_response <- bytes_decode (strip rdata) ;;
  log DEBUG "Decoded response : %s" [decoded_response] ;;
  ret decoded_response.

(** A command as it goes on the wire. *)
Definition wire (command : string) : bytes := lit command ++ [13; 10]%N.

Definition reset_command : bytes := wire "sys reset".

(** The four [mac set] commands: appkey, appeui, deveui, dr. *)
Definition set_commands (sf : Z) : list bytes :=
  [ wire "mac set appkey 0123456789ABCDEF0123456789ABCDEF";
    wire "mac set appeui DEAD25DEAD25DEAD";
    wire "mac set deveui DEADDEAD00090002";
    lit "mac set dr " ++ str_of_int (data_rate_of sf) ++ [13; 10]%N ].

(** The six channel commands: duty cycle then status, channels 0, 1, 2. *)
Definition channel_commands : list bytes :=
  [ wire "mac set ch dcycle 0 1"; wire "mac set ch status 0 on";
    wire "mac set ch dcycle 1 1"; wire "mac set ch status 1 on";
    wire "mac set ch dcycle 2 1"; wire "mac set ch status 2 on" ].

Definition save_command : bytes := wire "mac save".

Definition join_command : bytes := wire "mac join otaa".

Definition provisioning (sf : Z) : list bytes :=
  [reset_command] ++ set_commands sf ++ channel_commands ++ [save_command].

(** [issues cmds m] : in every run, [m] writes an initial part of [cmds],
    and all of it when it returns. *)
Definition issues {A} (cmds : list bytes) (m : M A) : Prop :=
  forall s, exists ws,
    writes (trace (snd (m s))) = writes (trace s) ++ ws /\
    (exists rest, cmds = ws ++ rest) /\
    (forall a, fst (m s) = Ret a -> ws = cmds).

(** What one turn of the join loop adds to the trace. *)
Definition join_events (p : reply) : list event :=
  [Log INFO "Preparing to join the network" []] ++
  exchange join_command p ++
  [Log INFO "Mac join otaa response : %s" [text p]; Sleep 2000].

(** What waiting for the verdict adds to the trace. *)
Definition verdict_events (p : reply) : list event :=
  [Log INFO "Wating to get the accepted response" []; Sleep 2000] ++
  reads_of p ++
  [Log INFO "Status of the join request : %s" [text p]].

(** Twelve "ok" for the provisioning, a refusal, an "ok", and the verdict. *)
Definition says (line : string) : reply :=
  mkReply 0 (lit line ++ [13; 10]%N) (lit line).

Definition join_script (verdict : string) : list rx_item :=
  flat_map heard (repeat (says "ok") 12) ++
  heard (mkReply 2 (lit "busy" ++ [13; 10]%N) (lit "busy")) ++
  heard (says "ok") ++ heard (mkReply 1 (lit verdict ++ [13; 10]%N) (lit verdict)).

(** What the polling adds to the trace, given what the reads returned: the
    first read is immediate, every later one comes after one second. *)
Definition later_reads (reads : list bytes) : list event :=
  flat_map (fun b => [Sleep 1000; Read b]) reads.

Definition poll_events (reads : list bytes) : list event :=
  match reads with
  | [] => []
  | b :: bs => Read b :: later_reads bs
  end.

(** The reads of a follow-up line that comes after [quiet q] empty ones. *)
Definition follow_up_reads (q : reply) : list bytes :=
  repeat [] (quiet q) ++ [raw q].

(** Whether a piece of trace ends with a failure record. *)
Definition ends_in_error (t : list event) : bool :=
  match index_last t with
  | Some e => is_error e
  | None => false
  end.

(** [attempt_like m] : in every run, [m] raises [error_counts] by the
    number of failures it logs, which is at most one; and when it logs one,
    that record is the last thing it does before it returns. *)
Definition attempt_like {A} (m : M A) : Prop :=
  forall s, exists it,
    trace (snd (m s)) = trace s ++ it /\
    error_counts (snd (m s)) = (error_counts s + Z.of_nat (failures it))%Z /\
    failures it <= 1 /\
    (failures it = 1 ->
     ends_in_error it = true /\ exists a, fst (m s) = Ret a).

(** What every uplink starts with: the pacing, and the exchange. *)
Definition uplink_events (command : str) (line : bytes) (p : reply)
  : list event :=
  [Log INFO "Waiting to send message" []; Sleep 10000;
   Log INFO ("Sending command " ++ dquote ++ "%s" ++ dquote) [command]] ++
  exchange line p.

(** What the handling of a follow-up line adds (lines 270-276). *)
Definition line_events (t : str) : list event :=
  Log INFO "Got response %s" [t] ::
  (if contains mac_rx t then
     Log INFO "Got a max_rx (downlink, processing)" [] ::
     match payload_of t with
     | Some payload => [Log DEBUG "Payload : %s" [payload]]
     | None => []
     end
   else [Log INFO "No mac_rx in response, continuing" []]).

(** The events of the polling: reads, and pauses of one second. *)
Definition is_pause (e : event) : bool :=
  match e with Sleep ms => (ms =? 1000)%N | _ => false end.

Definition is_read (e : event) : bool :=
  match e with Read _ => true | _ => false end.

Definition pauses (t : list event) : nat := List.length (filter is_pause t).

Definition only_polls (t : list event) : bool :=
  forallb (fun e => is_pause e || is_read e) t.

(** The command of [main] (lines 226-229) and its line on the wire. *)
Definition tx_command : str := command_of (hex (lit "Hello from DEADDEAD00090002")).

Definition tx_line : bytes := tx_command ++ [13; 10]%N.

(** The fields of [s.split()] : maximal runs of characters that are not
    white space.  This is the "whitespace-delimited token" of the
    specification, to be compared with what line 275 computes. *)
Fixpoint tokens_from (cur : str) (s : str) : list str :=
  match s with
  | [] => match cur with [] => [] | _ :: _ => [rev cur] end
  | c :: r =>
      if isspace c
      then match cur with [] => [] | _ :: _ => [rev cur] end
           ++ tokens_from [] r
      else tokens_from (c :: cur) r
  end.

Definition last_whitespace_token (s : str) : option str :=
  index_last (tokens_from [] s).

(** A downlink line whose fields are separated by a tab. *)
Definition tabbed_line : str := lit "mac_rx 1" ++ [9%N] ++ lit "a1b2c3".

Definition tabbed_reply : reply :=
  mkReply 0 (tabbed_line ++ [13; 10]%N) tabbed_line.

Definition downlink_reply : reply :=
  mkReply 3 (lit "mac_rx 1 a1b2c3" ++ [13; 10]%N) (lit "mac_rx 1 a1b2c3").


Definition is_attempt_start (e : event) : bool :=
  match e with
  | Log INFO fmt [] => String.eqb fmt "Waiting to send message"
  | _ => false
  end.






(** What the modem does during one attempt: it answers without "ok"; or
    with "ok" and then nothing for six reads; or with "ok" and then a
    follow-up line within the six reads. *)
Inductive attempt :=
| Refused (p : reply)
| Unanswered (p : reply)
| Answered (p q : reply).

Definition failed (a : attempt) : bool :=
  match a with Answered _ _ => false | _ => true end.

Definition incoming (a : attempt) : list rx_item :=
  match a with
  | Refused p => heard p
  | Unanswered p => heard p ++ repeat (Line []) 6
  | Answered p q => heard p ++ heard q
  end.

Definition plausible (a : attempt) : Prop :=
  match a with
  | Refused p => genuine p /\ contains ok (text p) = false
  | Unanswered p => genuine p /\ contains ok (text p) = true
  | Answered p q =>
      genuine p /\ contains ok (text p) = true /\ genuine q /\ quiet q <= 5
  end.

Definition failed_count (l : list attempt) : nat :=
  List.length (filter failed l).

(** The last attempt of the list, if any, is a failure. *)
Definition closing (l : list attempt) : Prop :=
  match index_last l with
  | Some a => failed a = true
  | None => True
  end.

(** Three failures of either kind, successes in between, three more. *)
Definition mixed_session : list attempt :=
  [ Refused (says "busy");
    Answered (says "ok") (says "mac_tx_ok");
    Unanswered (says "ok");
    Refused (says "no_free_ch");
    Answered (says "ok") (mkReply 2 (lit "mac_rx 1 a1b2c3" ++ [13; 10]%N)
                                  (lit "mac_rx 1 a1b2c3"));
    Answered (says "ok") (says "mac_tx_ok");
    Unanswered (says "ok");
    Refused (says "busy");
    Answered (says "ok") (says "mac_tx_ok");
    Refused (says "busy") ].

(** Events that do not begin an uplink attempt. *)
Definition no_attempt (e : event) : bool := negb (is_attempt_start e).

(** A rejoin: the previous session has left [error_counts] at 6. *)
Definition rejoining : state :=
  mkState (join_script "accepted") [] 6 None.

(** Join, six refusals, join again, one acknowledged uplink, and the user's
    interrupt. *)
Definition two_sessions : list rx_item :=
  join_script "accepted" ++
  flat_map heard (repeat (says "busy") 6) ++
  join_script "accepted" ++
  heard (says "ok") ++ heard (says "mac_tx_ok") ++
  [CtrlC].

(** [fueled m] : no run of [m] ends for lack of fuel. *)
Definition fueled {A} (m : M A) : Prop :=
  forall s, fst (m s) <> OutOfFuel.

(** *** Commands, and what [lora_setup] may do *)

(** Code points UTF-8 has no form for: the surrogates, and anything past
    U+10FFFF. *)
Definition unencodable (c : N) : Prop :=
  (0xD800 <= c <= 0xDFFF)%N \/ (0x110000 <= c)%N.

(** What [lora_setup] may do: write, read, pause 0.2 s or 2 s, and log at
    the levels INFO and DEBUG. *)
Definition setup_event (e : event) : bool :=
  match e with
  | Write _ | Read _ => true
  | Sleep ms => (ms =? 200)%N || (ms =? 2000)%N
  | Log INFO _ _ | Log DEBUG _ _ => true
  | _ => false
  end.

(** *** One command at a time *)

(** Where the program stands with the modem: nothing outstanding; a command
    just written; or waiting for the answer to it. *)
Inductive phase := Idle | Written | Awaiting.

(** The half-duplex discipline, one event at a time.  A command may only be
    written when nothing is outstanding; it is followed at once by the pause
    of 0.2 s; from then on, until a line that is not empty has been read,
    the program only reads (or, interrupted, logs and closes the port). *)
Definition turn (p : phase) (e : event) : option phase :=
  match p, e with
  | Idle, Write _ => Some Written
  | Idle, _ => Some Idle
  | Written, Sleep ms => if (ms =? 200)%N then Some Awaiting else None
  | Written, _ => None
  | Awaiting, Read [] => Some Awaiting
  | Awaiting, Read (_ :: _) => Some Idle
  | Awaiting, Log _ _ _ => Some Awaiting
  | Awaiting, Close => Some Awaiting
  | Awaiting, _ => None
  end.

Fixpoint walk (p : phase) (t : list event) : option phase :=
  match t with
  | [] => Some p
  | e :: t' =>
      match turn p e with
      | Some q => walk q t'
      | None => None
      end
  end.

(** The discipline was kept, and the program is not between a command and
    its pause. *)
Definition resting (o : option phase) : Prop :=
  o = Some Idle \/ o = Some Awaiting.

(** [dialogue m] : started with nothing outstanding, every run of [m] keeps
    the discipline, and a run that returns leaves nothing outstanding. *)
Definition dialogue {A} (m : M A) : Prop :=
  forall s, exists new,
    trace (snd (m s)) = trace s ++ new /\
    match fst (m s) with
    | Ret _ => walk Idle new = Some Idle
    | _ => resting (walk Idle new)
    end.

(** [rests m] : the same, without the promise on return; for code that
    returns from a handler, an answer still outstanding. *)
Definition rests {A} (m : M A) : Prop :=
  forall s, exists new,
    trace (snd (m s)) = trace s ++ new /\ resting (walk Idle new).

(** Log records, and the closing of the port. *)
Definition aside (e : event) : bool :=
  match e with Log _ _ _ | Close => true | _ => false end.

(** *** How runs end, and what they leave in the trace *)

(** [stops E m] : a run of [m] that raises raises one of [E], and a run that
    waits for ever does so with nothing left to read. *)
Definition stops (E : exn -> bool) {A} (m : M A) : Prop :=
  forall s,
    match fst (m s) with
    | Raise e => E e = true
    | Blocked => rx (snd (m s)) = []
    | _ => True
    end.

(** The two exceptions the main loop can meet: the user's interrupt, and a
    line of the modem that is not UTF-8. *)
Definition loop_exn (e : exn) : bool :=
  match e with
  | KeyboardInterrupt | UnicodeDecodeError => true
  | _ => false
  end.

(** Events other than the closing of the port. *)
Definition not_close (e : event) : bool :=
  match e with Close => false | _ => true end.

(** Where [error_counts] lives. *)
Definition in_range (n : Z) : Prop := (0 <= n <= 6)%Z.

(** [bounded m] : [m] keeps [error_counts] between 0 and 6. *)
Definition bounded {A} (m : M A) : Prop :=
  forall s, in_range (error_counts s) -> in_range (error_counts (snd (m s))).

(** No condition on the events. *)
Definition any_event (e : event) : bool := true.

(** [appends P m] : whatever happens, [m] only adds events that satisfy
    [P] to the trace. *)
Definition appends (P : event -> bool) {A} (m : M A) : Prop :=
  forall s, exists new,
    trace (snd (m s)) = trace s ++ new /\ forallb P new = true.

(** The lines the program may put on the wire, with the spreading factor
    of the configuration: the twelve of the provisioning, the join command
    and the uplink command. *)
Definition script_lines : list bytes :=
  provisioning SPREADING_FACTOR ++ [join_command; tx_line].

(** The pauses of the program, in milliseconds. *)
Definition script_pauses : list N := [200; 1000; 2000; 3000; 10000]%N.

(** What the whole program may do: these lines, these pauses, and any
    read, log record, opening or closing of the port. *)
Definition script_event (e : event) : bool :=
  match e with
  | Write b => existsb (str_eq b) script_lines
  | Sleep ms => existsb (N.eqb ms) script_pauses
  | _ => true
  end.

(** What [main] does once the port is open: the main loop, and the handler
    of the interrupt (lines 232-280). *)
Definition serve : M (option Z) :=
  try_except (main_loop tx_command ;; ret None)
    (fun e => match e with KeyboardInterrupt => true | _ => false end)
    (fun _ =>
       log INFO "KeyboardInterrupt, ending program" [] ;;
       close ;;
       ret (Some 0%Z)).

(** *** Rounds of the join *)

(** One round of [lora_setup] as the modem plays it: the answers to the
    twelve provisioning commands, the answers to the join command that do
    not hold "ok", the one that does, and the verdict of the network. *)
Record round := mkRound {
  acks : list reply;
  denials : list reply;
  consent : reply;
  decision : reply
}.

(** What the reads deliver during the round. *)
Definition round_rx (q : round) : list rx_item :=
  flat_map heard (acks q) ++ flat_map heard (denials q) ++
  heard (consent q) ++ heard (decision q).

(** Twelve answers to the provisioning, every answer a line that can be
    read, "ok" in the last answer to the join command and in no other. *)
Definition well_played (q : round) : Prop :=
  List.length (acks q) = 12 /\ Forall genuine (acks q) /\
  Forall (fun p => genuine p /\ contains ok (text p) = false) (denials q) /\
  genuine (consent q) /\ contains ok (text (consent q)) = true /\
  genuine (decision q).

(** The verdict is "accepted". *)
Definition granted (q : round) : bool := str_eq (text (decision q)) accepted.

(** The commands and pauses of one round: each provisioning command and
    its 0.2 s, each join command with its 0.2 s and 2 s, and the 2 s before
    the verdict is read. *)
Definition round_timeline (sf : Z) (q : round) : list event :=
  flat_map (fun c => [Write c; Sleep 200]) (provisioning sf) ++
  List.concat (repeat [Write join_command; Sleep 200; Sleep 2000]
                      (S (List.length (denials q)))) ++
  [Sleep 2000].

(** A round the network refuses, after one "busy", and a round it accepts. *)
Definition lost_round : round :=
  mkRound (repeat (says "ok") 12) [says "busy"] (says "ok") (says "denied").

Definition won_round : round :=
  mkRound (repeat (says "ok") 12) [] (says "ok") (says "accepted").

(** *** The interrupt, and the pacing of the uplinks *)

(** [heeds m] : with the user's interrupt somewhere ahead in the script,
    after lines only, [m] does not wait for ever; either it stops short of
    the interrupt, or it meets it, raises, and has read nothing past it. *)
Definition heeds {A} (m : M A) : Prop :=
  forall s lines post,
    rx s = map Line lines ++ CtrlC :: post ->
    match fst (m s) with
    | Ret _ =>
        exists lines', rx (snd (m s)) = map Line lines' ++ CtrlC :: post
    | Raise KeyboardInterrupt => rx (snd (m s)) = post
    | Blocked => False
    | _ => True
    end.

(** The pacing of the uplinks: the uplink command may only be written
    after a pause of 10 s that no other uplink command has used. *)
Fixpoint pace (rested : bool) (t : list event) : option bool :=
  match t with
  | [] => Some rested
  | Sleep ms :: t' => pace (rested || (ms =? 10000)%N) t'
  | Write b :: t' =>
      if str_eq b tx_line
      then if rested then pace false t' else None
      else pace rested t'
  | _ :: t' => pace rested t'
  end.

(** Events other than the writing of the uplink command. *)
Definition not_uplink (e : event) : bool :=
  match e with Write b => negb (str_eq b tx_line) | _ => true end.

(** [keeps_pace m] : whatever pause is in hand when it starts, [m] keeps
    the pacing. *)
Definition keeps_pace {A} (m : M A) : Prop :=
  forall s rested, exists new,
    trace (snd (m s)) = trace s ++ new /\ pace rested new <> None.

(** *** Legible input *)

(** A line that, stripped, is valid UTF-8. *)
Definition legible (b : bytes) : Prop := Py.decode (strip b) <> None.

(** A script in which every line is legible. *)
Definition clean_item (it : rx_item) : Prop :=
  match it with Line b => legible b | CtrlC => True end.

Definition clean (r : list rx_item) : Prop := Forall clean_item r.

(** The same, and no interrupt. *)
Definition calm_item (it : rx_item) : Prop :=
  match it with Line b => legible b | CtrlC => False end.

(** The exceptions expected of each kind of script. *)
Definition only_interrupt (e : exn) : bool :=
  match e with KeyboardInterrupt => true | _ => false end.

Definition no_exn (e : exn) : bool := false.

(** [sound G E Q m] : on a script whose items satisfy [G], [m] leaves such
    a script, raises nothing outside [E], and returns values that satisfy
    [Q]. *)
Definition sound (G : rx_item -> Prop) (E : exn -> bool)
  {A} (Q : A -> Prop) (m : M A) : Prop :=
  forall s, Forall G (rx s) ->
    Forall G (rx (snd (m s))) /\
    (forall e, fst (m s) = Raise e -> E e = true) /\
    (forall a, fst (m s) = Ret a -> Q a).

(** No condition on the value returned. *)
Definition whatever {A} (a : A) : Prop := True.

(** *** The second half of an uplink *)

(** What an uplink does with the response to its command (lines 250-276). *)
Definition after_send (response : str) : M unit :=
  if negb (contains ok response) then
    incr_error_counts ;;
    log ERROR "Could not send the command, retrying" []
  else
    log DEBUG "Message successfuly sent through serial" [] ;;
    ret_ <- poll_follow_up ;;
    if is_empty ret_ then
      incr_error_counts ;;
      log ERROR "No response, maybe collision or message lost" []
    else
      decoded_response <- bytes_decode (strip ret_) ;;
      log INFO "Got response %s" [decoded_response] ;;
      if negb (contains mac_rx decoded_response) then
        log INFO "No mac_rx in response, continuing" []
      else
        log INFO "Got a max_rx (downlink, processing)" [] ;;
        match payload_of decoded_response with
        | None => raise IndexError
        | Some payload => log DEBUG "Payload : %s" [payload]
        end.

(** *** The opening of the port *)

(** Events other than the opening of the port. *)
Definition not_open (e : event) : bool :=
  match e with Open => false | _ => true end.

(** *** A port without a timeout *)

(** A read that comes back empty: the time allowed for it has run out. *)
Definition timed_out (it : rx_item) : bool :=
  match it with Line [] => true | _ => false end.

(** The reads of a port that has no timeout.  [setup_serial] sets the
    name of the port, the speed, the size of a byte, the parity, the stop
    bits and DTR (lines 74-79), and no timeout: [sp.readline()] then waits
    until a whole line is there, however long, and no read is empty. *)
Definition untimed (r : list rx_item) : bool :=
  forallb (fun it => negb (timed_out it)) r.

(** Events other than the pause between two polls (line 262) and the
    record of a follow-up line that did not come (line 267). *)
Definition not_given_up (e : event) : bool :=
  match e with
  | Sleep ms => negb (ms =? 1000)%N
  | Log ERROR fmt _ =>
      negb (String.eqb fmt "No response, maybe collision or message lost")
  | _ => true
  end.

(** [waits P Q m] : on a port that has no timeout, [m] leaves such a port,
    only adds events that satisfy [P] to the trace, and returns values that
    satisfy [Q]. *)
Definition waits (P : event -> bool) {A} (Q : A -> Prop) (m : M A) : Prop :=
  forall s, untimed (rx s) = true ->
    untimed (rx (snd (m s))) = true /\
    (exists new, trace (snd (m s)) = trace s ++ new /\ forallb P new = true) /\
    (forall a, fst (m s) = Ret a -> Q a).

(* ===================================================================== *)
(** ** Facts about the built-ins *)
(* ===================================================================== *)

Section Strip.

Variable p : N -> bool.

Lemma lstrip_split (s : list N) :
  exists ws, s = ws ++ lstrip_with p s /\ forallb p ws = true.
Proof.
  induction s as [|c r [ws [E F]]]; simpl.
  - exists []; auto.
  - destruct (p c) eqn:Pc.
    + exists (c :: ws); simpl. rewrite Pc, F. split; [congruence | reflexivity].
    + exists []; auto.
Qed.

Lemma lstrip_head (s : list N) (c : N) (r : list N) :
  lstrip_with p s = c :: r -> p c = false.
Proof.
  induction s as [|d t IH]; simpl; [discriminate|].
  destruct (p d) eqn:Pd; auto. intros E; injection E as -> _; assumption.
Qed.

Lemma rstrip_split (s : list N) :
  exists ws, s = rstrip_with p s ++ ws /\ forallb p ws = true.
Proof.
  unfold rstrip_with.
  destruct (lstrip_split (rev s)) as [ws [E F]].
  exists (rev ws); split.
  - rewrite <- rev_app_distr, <- E, rev_involutive; reflexivity.
  - rewrite forallb_forall in *. intros x Hx. apply F, in_rev, Hx.
Qed.

Lemma rstrip_last (s : list N) (c : N) :
  index_last (rstrip_with p s) = Some c -> p c = false.
Proof.
  unfold index_last, rstrip_with. rewrite rev_involutive.
  destruct (lstrip_with p (rev s)) as [|d r] eqn:E; [discriminate|].
  intros H; injection H as <-. eapply lstrip_head; eassumption.
Qed.

(** Nothing to trim when the last character is not white. *)
Lemma rstrip_keeps (s : list N) (c : N) :
  p c = false -> rstrip_with p (s ++ [c]) = s ++ [c].
Proof.
  intros Pc. unfold rstrip_with. rewrite rev_app_distr; simpl.
  rewrite Pc. simpl. rewrite rev_involutive; reflexivity.
Qed.

End Strip.

Lemma index_last_snoc {A} (l : list A) (x : A) : index_last (l ++ [x]) = Some x.
Proof. unfold index_last. rewrite rev_app_distr; reflexivity. Qed.

Lemma index_last_cons {A} (x y : A) (l : list A) :
  index_last (x :: y :: l) = index_last (y :: l).
Proof.
  unfold index_last. simpl.
  destruct (rev l ++ [y]) as [|z r] eqn:E; [destruct (rev l); discriminate|].
  reflexivity.
Qed.

Lemma index_last_app {A} (a b : list A) (x : A) :
  index_last b = Some x -> index_last (a ++ b) = Some x.
Proof.
  unfold index_last. rewrite rev_app_distr.
  destruct (rev b); [discriminate|]. simpl; auto.
Qed.

Lemma str_eq_spec (a b : list N) : str_eq a b = true <-> a = b.
Proof.
  revert b; induction a as [|x a IH]; intros [|y b]; simpl; split;
    try discriminate; auto.
  - rewrite andb_true_iff, N.eqb_eq, IH. intros [-> ->]; reflexivity.
  - intros E; injection E as -> ->. rewrite N.eqb_refl. apply IH; reflexivity.
Qed.

(** *** [split] *)

Lemma split_not_nil (sep : N) (s : str) : split sep s <> [].
Proof.
  destruct s as [|c r]; simpl; [discriminate|].
  destruct (N.eqb c sep); [discriminate|].
  destruct (split sep r); discriminate.
Qed.

Lemma split_free (sep : N) (s : str) : ~ In sep s -> split sep s = [s].
Proof.
  induction s as [|c r IH]; simpl; intros NI; [reflexivity|].
  destruct (N.eqb_spec c sep) as [->|ne]; [tauto|].
  rewrite IH by tauto. reflexivity.
Qed.

Lemma split_app (sep : N) (a b : str) :
  split sep (a ++ sep :: b) = split sep a ++ split sep b.
Proof.
  induction a as [|c a IH]; simpl.
  - rewrite N.eqb_refl; reflexivity.
  - destruct (N.eqb c sep); rewrite IH; [reflexivity|].
    destruct (split sep a) as [|g gs] eqn:E; [|reflexivity].
    exfalso; eapply split_not_nil; eassumption.
Qed.

(** Every text is free of the separator, or has a last occurrence of it. *)
Lemma last_occurrence (sep : N) (s : str) :
  ~ In sep s \/ exists pre f, s = pre ++ sep :: f /\ ~ In sep f.
Proof.
  induction s as [|c r [NI|(pre & f & -> & NI)]].
  - left; simpl; tauto.
  - destruct (N.eq_dec c sep) as [->|ne].
    + right. exists [], r; auto.
    + left. simpl; intros [e|i]; [congruence|tauto].
  - right. exists (c :: pre), f; auto.
Qed.

(** The last field of [s.split(sep)] is what follows the last separator:
    it holds no separator, and it is all of [s] or [s] ends with the
    separator followed by it. *)
Lemma split_last (sep : N) (s : str) :
  exists f, index_last (split sep s) = Some f /\
            ~ In sep f /\
            (s = f \/ exists pre, s = pre ++ sep :: f).
Proof.
  destruct (last_occurrence sep s) as [NI|(pre & f & -> & NI)].
  - exists s. rewrite split_free by assumption. auto.
  - exists f. rewrite split_app, (split_free sep f NI), index_last_snoc.
    repeat split; eauto.
Qed.

(** *** UTF-8 *)

Lemma encode_app (a b : str) :
  encode (a ++ b) =
  match encode a, encode b with
  | Some x, Some y => Some (x ++ y)
  | _, _ => None
  end.
Proof.
  induction a as [|c a IH]; simpl.
  - destruct (encode b); reflexivity.
  - rewrite IH. destruct (encode_cp c), (encode a), (encode b);
      try reflexivity. rewrite app_assoc; reflexivity.
Qed.

Lemma encode_ascii (s : str) : Forall ascii7 s -> encode s = Some s.
Proof.
  induction 1 as [|c s Hc _ IH]; simpl; [reflexivity|].
  unfold encode_cp. destruct (N.ltb_spec c 128) as [_|H];
    [|unfold ascii7 in Hc; lia].
  rewrite IH; reflexivity.
Qed.

Lemma decode_ascii (b : bytes) : Forall ascii7 b -> decode b = Some b.
Proof.
  induction 1 as [|c s Hc _ IH]; simpl; [reflexivity|].
  destruct (N.ltb_spec c 128) as [_|H]; [|unfold ascii7 in Hc; lia].
  rewrite IH; reflexivity.
Qed.

Lemma lit_ascii7 (s : string) :
  forallb (fun c => c <? 128)%N (lit s) = true -> Forall ascii7 (lit s).
Proof.
  rewrite forallb_forall, Forall_forall. intros H c Hc.
  apply N.ltb_lt, H, Hc.
Qed.

(** An octet below 128 in the encoding of a code point is that code point:
    the octets of a longer form all have their high bit set. *)
Lemma some_eq {A} (a b : A) : Some a = Some b -> a = b.
Proof. congruence. Qed.

Lemma encode_cp_low (c : N) (bs : bytes) (x : N) :
  encode_cp c = Some bs -> In x bs -> (x < 128)%N -> bs = [c].
Proof.
  unfold encode_cp.
  pose proof (N.le_0_l (c / 64)). pose proof (N.le_0_l (c mod 64)).
  pose proof (N.le_0_l (c / 4096)). pose proof (N.le_0_l ((c / 64) mod 64)).
  pose proof (N.le_0_l (c / 262144)). pose proof (N.le_0_l ((c / 4096) mod 64)).
  destruct (N.ltb_spec c 128); [intros E; apply some_eq in E; auto|].
  destruct (N.ltb_spec c 2048).
  { intros E; apply some_eq in E; subst bs.
    intros [<-|[<-|[]]] Hx; exfalso; lia. }
  destruct (N.ltb_spec c 65536).
  { destruct (_ && _); [discriminate|].
    intros E; apply some_eq in E; subst bs.
    intros [<-|[<-|[<-|[]]]] Hx; exfalso; lia. }
  destruct (N.ltb_spec c 1114112); [|discriminate].
  intros E; apply some_eq in E; subst bs.
  intros [<-|[<-|[<-|[<-|[]]]]] Hx; exfalso; lia.
Qed.

Lemma encode_cp_not_nil (c : N) (bs : bytes) : encode_cp c = Some bs -> bs <> [].
Proof.
  unfold encode_cp.
  repeat match goal with
         | |- context [if ?b then _ else _] => destruct b
         end; intros E; try discriminate; apply some_eq in E; subst bs;
    discriminate.
Qed.

(** So the last octet of an encoded text, when below 128, is the last
    character of the text. *)
Lemma encode_last_low (s : str) (b : bytes) (x : N) :
  encode s = Some b -> index_last b = Some x -> (x < 128)%N ->
  index_last s = Some x.
Proof.
  revert b; induction s as [|c s IH]; simpl; intros b E L Lt.
  - injection E as <-. discriminate.
  - destruct (encode_cp c) as [bc|] eqn:Ec; [|discriminate].
    destruct (encode s) as [bs|] eqn:Es; [|discriminate].
    injection E as <-.
    destruct s as [|d s].
    + simpl in Es. injection Es as <-. rewrite app_nil_r in L.
      assert (In x bc).
      { unfold index_last in L. apply in_rev.
        destruct (rev bc); [discriminate|]. injection L as ->. left; reflexivity. }
      rewrite (encode_cp_low c bc x Ec H Lt) in L. exact L.
    + rewrite index_last_cons. apply (IH bs eq_refl); [|assumption].
      assert (bs <> []).
      { simpl in Es. destruct (encode_cp d) as [bd|] eqn:Ed; [|discriminate].
        destruct (encode s); [|discriminate]. injection Es as <-.
        pose proof (encode_cp_not_nil d bd Ed). destruct bd; [congruence|discriminate]. }
      unfold index_last in *. rewrite rev_app_distr in L.
      destruct (rev bs) eqn:R; [|exact L].
      apply (f_equal (@rev N)) in R. rewrite rev_involutive in R. contradiction.
Qed.

(** *** [str(n)] *)

Lemma string_of_uint_digits (u : Decimal.uint) :
  Forall digit (lit (DecimalString.NilEmpty.string_of_uint u)).
Proof.
  induction u; simpl; constructor; auto; unfold digit; simpl; lia.
Qed.

Lemma string_of_uint_not_nil (u : Decimal.uint) :
  u <> Decimal.Nil -> lit (DecimalString.NilEmpty.string_of_uint u) <> [].
Proof. destruct u; simpl; intros H; congruence || discriminate. Qed.

Lemma to_uint_not_nil (n : N) : N.to_uint n <> Decimal.Nil.
Proof.
  destruct n as [|q]; [discriminate|]. apply DecimalPos.Unsigned.to_uint_nonnil.
Qed.

(** The decimal text of a natural number: digits, and at least one. *)
Lemma str_of_int_digits (z : Z) :
  (0 <= z)%Z -> str_of_int z <> [] /\ Forall digit (str_of_int z).
Proof.
  intros H. unfold str_of_int.
  destruct (Z.ltb_spec z 0); [lia|].
  split; [apply string_of_uint_not_nil, to_uint_not_nil
         | apply string_of_uint_digits].
Qed.

Lemma digit_ascii7 (c : N) : digit c -> ascii7 c.
Proof. unfold digit, ascii7; lia. Qed.

Lemma digit_not_space (c : N) : digit c -> isspace c = false.
Proof.
  unfold digit. intros H.
  assert (E : (c = 48 \/ c = 49 \/ c = 50 \/ c = 51 \/ c = 52 \/ c = 53
               \/ c = 54 \/ c = 55 \/ c = 56 \/ c = 57)%N) by lia.
  repeat destruct E as [E|E]; subst c; reflexivity.
Qed.

(* ===================================================================== *)
(** ** Facts about the monad: input is only ever consumed *)
(* ===================================================================== *)

Create HintDb rx.

Lemma consumes_ret {A} (a : A) : consumes (ret a).
Proof. intros s; simpl; lia. Qed.

Lemma consumes_raise {A} (e : exn) : consumes (@raise A e).
Proof. intros s; simpl; lia. Qed.

Lemma consumes_emit (e : event) : consumes (emit e).
Proof. intros s; simpl; lia. Qed.

Lemma consumes_sleep (ms : N) : consumes (sleep ms).
Proof. apply consumes_emit. Qed.

Lemma consumes_log l fmt args : consumes (log l fmt args).
Proof. apply consumes_emit. Qed.

Lemma consumes_write b : consumes (write b).
Proof. apply consumes_emit. Qed.

Lemma consumes_close : consumes close.
Proof. apply consumes_emit. Qed.

Lemma consumes_open : consumes open.
Proof. intros s; unfold open; destruct (port_fault s); simpl; lia. Qed.

Lemma consumes_get : consumes get_error_counts.
Proof. intros s; simpl; lia. Qed.

Lemma consumes_put n : consumes (put_error_counts n).
Proof. intros s; simpl; lia. Qed.

Lemma consumes_readline : consumes readline.
Proof.
  intros s; unfold readline.
  destruct (rx s) as [|[b|] r] eqn:E; simpl; rewrite ?E; simpl; lia.
Qed.

Lemma advances_readline : advances readline.
Proof.
  intros s a s'; unfold readline.
  destruct (rx s) as [|[b|] r] eqn:R; intros E; inversion E; subst; simpl; lia.
Qed.

Lemma consumes_str_encode t : consumes (str_encode t).
Proof. unfold str_encode; destruct (Py.encode t); intros w; simpl; lia. Qed.

Lemma consumes_bytes_decode b : consumes (bytes_decode b).
Proof. unfold bytes_decode; destruct (Py.decode b); intros w; simpl; lia. Qed.

Lemma consumes_bind {A B} (m : M A) (k : A -> M B) :
  consumes m -> (forall a, consumes (k a)) -> consumes (bind m k).
Proof.
  intros Hm Hk s. unfold bind. specialize (Hm s).
  destruct (m s) as [[a| | |] s1]; simpl in *; try assumption.
  specialize (Hk a s1). lia.
Qed.

Lemma consumes_try {A} (m : M A) handled (h : exn -> M A) :
  consumes m -> (forall e, consumes (h e)) -> consumes (try_except m handled h).
Proof.
  intros Hm Hh s. unfold try_except. specialize (Hm s).
  destruct (m s) as [[a|e| |] s1]; simpl in *; try assumption.
  destruct (handled e); simpl; [|assumption].
  specialize (Hh e s1). lia.
Qed.

Lemma consumes_if {A} (b : bool) (m1 m2 : M A) :
  consumes m1 -> consumes m2 -> consumes (if b then m1 else m2).
Proof. destruct b; auto. Qed.

Lemma consumes_while_ {X} (cond : X -> M bool) (body : X -> M X) :
  (forall x, consumes (cond x)) -> (forall x, consumes (body x)) ->
  forall fuel x, consumes (while_ fuel cond body x).
Proof.
  intros Hc Hb fuel; induction fuel as [|fuel IH]; intros x; simpl;
    (apply consumes_bind; [apply Hc|]); intros [|];
    try apply consumes_ret.
  - intros s; simpl; lia.
  - apply consumes_bind; [apply Hb | apply IH].
Qed.

Lemma consumes_while {X} (cond : X -> M bool) (body : X -> M X) (x : X) :
  (forall x, consumes (cond x)) -> (forall x, consumes (body x)) ->
  consumes (while cond body x).
Proof. intros Hc Hb s. unfold while. apply consumes_while_; assumption. Qed.

Lemma consumes_for_each {X} (l : list X) (body : X -> M unit) :
  (forall x, consumes (body x)) -> consumes (for_each l body).
Proof.
  intros Hb; induction l; simpl;
    [apply consumes_ret | apply consumes_bind; auto].
Qed.

Lemma advances_bind_l {A B} (m : M A) (k : A -> M B) :
  advances m -> (forall a, consumes (k a)) -> advances (bind m k).
Proof.
  intros Hm Hk s b s'. unfold bind.
  destruct (m s) as [[a| | |] s1] eqn:E; try discriminate.
  intros E2. specialize (Hm s a s1 E). specialize (Hk a s1).
  rewrite E2 in Hk; simpl in Hk. lia.
Qed.

Lemma advances_bind_r {A B} (m : M A) (k : A -> M B) :
  consumes m -> (forall a, advances (k a)) -> advances (bind m k).
Proof.
  intros Hm Hk s b s'. unfold bind. specialize (Hm s).
  destruct (m s) as [[a| | |] s1] eqn:E; try discriminate.
  intros E2. specialize (Hk a s1 b s' E2). simpl in Hm. lia.
Qed.

#[export] Hint Resolve consumes_ret consumes_raise consumes_emit consumes_sleep
  consumes_log consumes_write consumes_close consumes_open consumes_get
  consumes_put consumes_readline consumes_str_encode consumes_bytes_decode
  advances_readline : rx.

(** *** Unfolding a loop *)

Section While.

Context {X : Type} (cond : X -> M bool) (body : X -> M X).

(** One turn of the loop reads at least one item. *)
Hypothesis turn_advances :
  forall x s s1 x' s2,
    cond x s = (Ret true, s1) -> body x s1 = (Ret x', s2) ->
    List.length (rx s2) < List.length (rx s).

(** More fuel than items left: the amount no longer matters. *)
Lemma while_fuel (f1 f2 : nat) (x : X) (s : state) :
  List.length (rx s) < f1 -> List.length (rx s) < f2 ->
  while_ f1 cond body x s = while_ f2 cond body x s.
Proof.
  revert f2 x s; induction f1 as [|f1 IH]; intros f2 x s H1 H2; [lia|].
  destruct f2 as [|f2]; [lia|].
  simpl. unfold bind.
  destruct (cond x s) as [[[|]| | |] s1] eqn:Ec; try reflexivity.
  destruct (body x s1) as [[x'| | |] s2] eqn:Eb; try reflexivity.
  pose proof (turn_advances _ _ _ _ _ Ec Eb).
  apply IH; lia.
Qed.

(** ... and the loop never stops for lack of it. *)
Lemma while_fueled (f : nat) (x : X) (s : state) :
  (forall x s, fst (cond x s) <> OutOfFuel) ->
  (forall x s, fst (body x s) <> OutOfFuel) ->
  List.length (rx s) < f ->
  fst (while_ f cond body x s) <> OutOfFuel.
Proof.
  intros Fc Fb.
  revert x s; induction f as [|f IH]; intros x s H; [lia|].
  simpl. unfold bind.
  pose proof (Fc x s) as Fc'.
  destruct (cond x s) as [[[|]| | |] s1] eqn:Ec; simpl in *;
    try discriminate; try congruence.
  pose proof (Fb x s1) as Fb'.
  destruct (body x s1) as [[x'| | |] s2] eqn:Eb; simpl in *;
    try discriminate; try congruence.
  pose proof (turn_advances _ _ _ _ _ Ec Eb).
  apply IH; lia.
Qed.

(** The loop is its first test, then its body, then the loop again. *)
Lemma while_unfold (x : X) (s : state) :
  while cond body x s =
  (c <- cond x ;;
   if c : bool then x' <- body x ;; while cond body x' else ret x) s.
Proof.
  unfold while at 1. simpl. unfold bind.
  destruct (cond x s) as [[[|]| | |] s1] eqn:Ec; try reflexivity.
  destruct (body x s1) as [[x'| | |] s2] eqn:Eb; try reflexivity.
  pose proof (turn_advances _ _ _ _ _ Ec Eb).
  unfold while. apply while_fuel; lia.
Qed.

End While.

(** A loop whose test reads has read when it ends. *)
Lemma advances_while_cond {X} (cond : X -> M bool) (body : X -> M X) :
  (forall x, advances (cond x)) -> (forall x, consumes (body x)) ->
  (forall x, consumes (cond x)) ->
  forall fuel x, advances (while_ fuel cond body x).
Proof.
  intros Ac Cb Cc fuel x s a s'.
  destruct fuel as [|fuel]; simpl; unfold bind;
    destruct (cond x s) as [[[|]| | |] s1] eqn:Ec; try discriminate.
  - intros E; inversion E; subst. eapply Ac; eassumption.
  - pose proof (Ac _ _ _ _ Ec) as H1.
    pose proof (Cb x s1) as H2.
    destruct (body x s1) as [[x'| | |] s2] eqn:Eb; try discriminate.
    intros E. pose proof (consumes_while_ cond body Cc Cb fuel x' s2) as H3.
    rewrite E in H3. simpl in *. lia.
  - intros E; inversion E; subst. eapply Ac; eassumption.
Qed.

(* ===================================================================== *)
(** ** The script only ever consumes its input *)
(* ===================================================================== *)

Ltac rx_step :=
  lazymatch goal with
  | |- consumes (bind _ _) => apply consumes_bind; [|intro]
  | |- consumes (while _ _ _) => apply consumes_while; intro
  | |- consumes (for_each _ _) => apply consumes_for_each; intro
  | |- consumes (try_except _ _ _) => apply consumes_try; [|intro]
  | |- consumes (if ?b then _ else _) => destruct b
  | |- consumes (match ?o with Some _ => _ | None => _ end) => destruct o
  | |- consumes (let _ := _ in _) => cbv zeta
  | |- consumes (join_turn _) => unfold join_turn
  | |- consumes (poll_test _) => unfold poll_test
  | |- consumes (poll_turn _) => unfold poll_turn
  | |- consumes (transmit_test _) => unfold transmit_test
  | |- _ => solve [auto 2 with rx nocore]
  end.

Ltac rx_solve := repeat rx_step.

Lemma consumes_read_nonempty : consumes read_nonempty.
Proof. unfold read_nonempty. rx_solve. Qed.

Lemma advances_read_nonempty : advances read_nonempty.
Proof.
  unfold read_nonempty. apply advances_bind_l; [apply advances_readline|].
  intro. rx_solve.
Qed.

Lemma consumes_frame data : consumes (frame data).
Proof. unfold frame. rx_solve. Qed.

Lemma consumes_send data : consumes (send data).
Proof.
  unfold send. pose proof consumes_read_nonempty. pose proof consumes_frame.
  rx_solve.
Qed.

Lemma advances_send data : advances (send data).
Proof.
  unfold send.
  apply advances_bind_r; [apply consumes_frame|intro].
  apply advances_bind_r; [auto with rx|intro].
  apply advances_bind_r; [auto with rx|intro].
  apply advances_bind_l; [apply advances_read_nonempty|intro].
  rx_solve.
Qed.

#[export] Hint Resolve consumes_read_nonempty consumes_frame consumes_send : rx.

Lemma consumes_provision sf : consumes (provision sf).
Proof. unfold provision. rx_solve. Qed.

Lemma advances_provision sf : advances (provision sf).
Proof.
  unfold provision. cbv zeta.
  apply advances_bind_r; [auto with rx|intro].
  apply advances_bind_l; [apply advances_send|intro].
  rx_solve.
Qed.

Lemma consumes_join_attempts : consumes join_attempts.
Proof. unfold join_attempts. rx_solve. Qed.

Lemma consumes_await_accept : consumes await_accept.
Proof. unfold await_accept. rx_solve. Qed.

#[export] Hint Resolve consumes_provision consumes_join_attempts
  consumes_await_accept : rx.

Lemma consumes_lora_setup sf : consumes (lora_setup sf).
Proof. unfold lora_setup. rx_solve. Qed.

Lemma advances_lora_setup sf : advances (lora_setup sf).
Proof.
  unfold lora_setup.
  apply advances_bind_l; [apply advances_provision|intro]. rx_solve.
Qed.

Lemma consumes_poll_follow_up : consumes poll_follow_up.
Proof. unfold poll_follow_up. rx_solve. Qed.

Lemma consumes_incr : consumes incr_error_counts.
Proof. unfold incr_error_counts. rx_solve. Qed.

#[export] Hint Resolve consumes_lora_setup consumes_poll_follow_up
  consumes_incr : rx.

Lemma consumes_uplink command : consumes (uplink command).
Proof. unfold uplink. rx_solve. Qed.

Lemma advances_uplink command : advances (uplink command).
Proof.
  unfold uplink.
  apply advances_bind_r; [auto with rx|intro].
  apply advances_bind_r; [auto with rx|intro].
  apply advances_bind_r; [auto with rx|intro].
  apply advances_bind_l; [apply advances_send|intro].
  rx_solve.
Qed.

#[export] Hint Resolve consumes_uplink : rx.

Lemma consumes_transmit_loop command : consumes (transmit_loop command).
Proof. unfold transmit_loop. rx_solve. Qed.

Lemma consumes_connect : consumes connect.
Proof. unfold connect. rx_solve. Qed.

Lemma advances_connect : advances connect.
Proof.
  unfold connect, while. intros s a s'.
  apply advances_while_cond; intro.
  - apply advances_bind_l; [apply advances_lora_setup|intro; auto with rx].
  - rx_solve.
  - rx_solve.
Qed.

#[export] Hint Resolve consumes_transmit_loop consumes_connect : rx.

Lemma consumes_enter_session : consumes enter_session.
Proof. unfold enter_session. rx_solve. Qed.

Lemma advances_enter_session : advances enter_session.
Proof.
  unfold enter_session.
  apply advances_bind_l; [apply advances_connect|intro]. rx_solve.
Qed.

#[export] Hint Resolve consumes_enter_session : rx.

Lemma consumes_main_loop command : consumes (main_loop command).
Proof. unfold main_loop. rx_solve. Qed.

(* ===================================================================== *)
(** ** What a computation may add to the trace *)
(* ===================================================================== *)

Section Observes.

Variable P : event -> bool.

Lemma observes_ret {A} (a : A) : observes P (ret a).
Proof. intros s; exists []; simpl; rewrite app_nil_r; auto. Qed.

Lemma observes_raise {A} (e : exn) : observes P (@raise A e).
Proof. intros s; exists []; simpl; rewrite app_nil_r; auto. Qed.

Lemma observes_get : observes P get_error_counts.
Proof. intros s; exists []; simpl; rewrite app_nil_r; auto. Qed.

Lemma observes_emit (e : event) : P e = true -> observes P (emit e).
Proof. intros Pe s; exists [e]; simpl; rewrite Pe; auto. Qed.

Lemma observes_str_encode t : observes P (str_encode t).
Proof.
  unfold str_encode; destruct (Py.encode t);
    [apply observes_ret | apply observes_raise].
Qed.

Lemma observes_bytes_decode b : observes P (bytes_decode b).
Proof.
  unfold bytes_decode; destruct (Py.decode b);
    [apply observes_ret | apply observes_raise].
Qed.

Lemma observes_readline :
  (forall b, P (Read b) = true) -> observes P readline.
Proof.
  intros Pr s; unfold readline.
  destruct (rx s) as [|[b|] r] eqn:E.
  - exists []; simpl; rewrite app_nil_r; auto.
  - exists [Read b]; simpl; rewrite Pr; auto.
  - exists []; simpl; rewrite app_nil_r; auto.
Qed.

Lemma observes_bind {A B} (m : M A) (k : A -> M B) :
  observes P m -> (forall a, observes P (k a)) -> observes P (bind m k).
Proof.
  intros Hm Hk s. unfold bind.
  destruct (Hm s) as (n1 & T1 & F1 & E1 & Q1).
  destruct (m s) as [[a| | |] s1]; simpl in *; try (exists n1; auto; fail).
  destruct (Hk a s1) as (n2 & T2 & F2 & E2 & Q2).
  exists (n1 ++ n2). rewrite T2, T1, app_assoc, forallb_app, F1, F2.
  repeat split; congruence.
Qed.

Lemma observes_try {A} (m : M A) handled (h : exn -> M A) :
  observes P m -> (forall e, observes P (h e)) ->
  observes P (try_except m handled h).
Proof.
  intros Hm Hh s. unfold try_except.
  destruct (Hm s) as (n1 & T1 & F1 & E1 & Q1).
  destruct (m s) as [[a|e| |] s1]; simpl in *; try (exists n1; auto; fail).
  destruct (handled e); [|exists n1; auto].
  destruct (Hh e s1) as (n2 & T2 & F2 & E2 & Q2).
  exists (n1 ++ n2). rewrite T2, T1, app_assoc, forallb_app, F1, F2.
  repeat split; congruence.
Qed.

Lemma observes_while_ {X} (cond : X -> M bool) (body : X -> M X) :
  (forall x, observes P (cond x)) -> (forall x, observes P (body x)) ->
  forall fuel x, observes P (while_ fuel cond body x).
Proof.
  intros Hc Hb fuel; induction fuel as [|fuel IH]; intros x; simpl;
    (apply observes_bind; [apply Hc|]); intros [|];
    try apply observes_ret.
  - intros s; exists []; simpl; rewrite app_nil_r; auto.
  - apply observes_bind; [apply Hb | apply IH].
Qed.

Lemma observes_while {X} (cond : X -> M bool) (body : X -> M X) (x : X) :
  (forall x, observes P (cond x)) -> (forall x, observes P (body x)) ->
  observes P (while cond body x).
Proof. intros Hc Hb s. unfold while. apply observes_while_; assumption. Qed.

Lemma observes_for_each {X} (l : list X) (body : X -> M unit) :
  (forall x, observes P (body x)) -> observes P (for_each l body).
Proof.
  intros Hb; induction l; simpl;
    [apply observes_ret | apply observes_bind; auto].
Qed.

End Observes.

Create HintDb obs.

Ltac obs_step :=
  lazymatch goal with
  | |- observes _ (bind _ _) => apply observes_bind; [|intro]
  | |- observes _ (while _ _ _) => apply observes_while; intro
  | |- observes _ (for_each _ _) => apply observes_for_each; intro
  | |- observes _ (try_except _ _ _) => apply observes_try; [|intro]
  | |- observes _ (ret _) => apply observes_ret
  | |- observes _ (raise _) => apply observes_raise
  | |- observes _ get_error_counts => apply observes_get
  | |- observes _ (str_encode _) => apply observes_str_encode
  | |- observes _ (bytes_decode _) => apply observes_bytes_decode
  | |- observes _ readline =>
      first [ assumption | apply observes_readline; intro; reflexivity ]
  | |- observes _ (emit _) =>
      first [ assumption | apply observes_emit; reflexivity ]
  | |- observes _ (sleep _) => apply observes_emit; reflexivity
  | |- observes _ (log _ _ _) => apply observes_emit; reflexivity
  | |- observes _ (write _) => apply observes_emit; reflexivity
  | |- observes _ close => apply observes_emit; reflexivity
  | |- observes _ (if ?b then _ else _) => destruct b
  | |- observes _ (match ?o with Some _ => _ | None => _ end) => destruct o
  | |- observes _ (let _ := _ in _) => cbv zeta
  | |- observes _ (join_turn _) => unfold join_turn
  | |- observes _ (poll_test _) => unfold poll_test
  | |- observes _ (poll_turn _) => unfold poll_turn
  | |- observes _ (transmit_test _) => unfold transmit_test
  | |- _ => first [ assumption | solve [auto 1 with obs nocore] ]
  end.

Ltac obs_solve :=
  unfold sleep, log, write, close; repeat obs_step.

Lemma observes_read_nonempty P :
  (forall b, P (Read b) = true) -> observes P read_nonempty.
Proof.
  intros Pr. unfold read_nonempty.
  pose proof (observes_readline P Pr). obs_solve.
Qed.

(** [send] logs no failure and leaves [error_counts] alone. *)
Lemma send_no_failure data : observes not_error (send data).
Proof.
  unfold send, frame.
  pose proof (observes_read_nonempty not_error (fun _ => eq_refl)).
  obs_solve.
Qed.

Lemma poll_no_failure : observes not_error poll_follow_up.
Proof. unfold poll_follow_up. obs_solve. Qed.

(* ===================================================================== *)
(** ** Running the script against what the modem says *)
(* ===================================================================== *)

Lemma is_empty_false (b : bytes) : b <> [] -> is_empty b = false.
Proof. destruct b; [congruence|reflexivity]. Qed.

Lemma read_loop_unfold (r : bytes) (s : state) :
  while (fun rdata => ret (is_empty rdata)) (fun _ => readline) r s =
  if is_empty r
  then (r' <- readline ;;
        while (fun rdata => ret (is_empty rdata)) (fun _ => readline) r') s
  else (Ret r, s).
Proof.
  rewrite while_unfold.
  - unfold bind at 1, ret at 1. destruct (is_empty r); reflexivity.
  - intros x s0 s1 x' s2 Ec Eb. inversion Ec; subst.
    eapply advances_readline; eassumption.
Qed.

Lemma read_loop_hears (k : nat) (b : bytes) r tr n pf :
  b <> [] ->
  while (fun rdata => ret (is_empty rdata)) (fun _ => readline) []
    (mkState (repeat (Line []) k ++ Line b :: r) tr n pf) =
  (Ret b, mkState r (tr ++ repeat (Read []) k ++ [Read b]) n pf).
Proof.
  intros Hb. revert tr; induction k as [|k IH]; intros tr;
    rewrite read_loop_unfold; simpl; unfold bind, readline; simpl.
  - rewrite read_loop_unfold, (is_empty_false b Hb). reflexivity.
  - unfold emits, set_rx; simpl. rewrite IH, <- app_assoc. reflexivity.
Qed.

Lemma read_nonempty_hears (p : reply) r tr n pf :
  raw p <> [] ->
  read_nonempty (mkState (heard p ++ r) tr n pf) =
  (Ret (raw p), mkState r (tr ++ reads_of p) n pf).
Proof.
  intros Hb. unfold read_nonempty, heard, reads_of.
  rewrite <- app_assoc. simpl.
  destruct (quiet p) as [|k]; unfold bind, readline; simpl.
  - rewrite read_loop_unfold, (is_empty_false _ Hb). reflexivity.
  - unfold emits, set_rx; simpl.
    rewrite read_loop_hears by assumption. rewrite <- app_assoc. reflexivity.
Qed.

(** [send] when the command can be framed and the modem answers. *)
Lemma send_hears (data : str) (line : bytes) (p : reply) r tr n pf :
  Py.encode (rstrip data ++ CRLF) = Some line ->
  genuine p ->
  send data (mkState (heard p ++ r) tr n pf) =
  (Ret (text p), mkState r (tr ++ exchange line p) n pf).
Proof.
  intros E [Hb Hd]. unfold send, frame, str_encode. rewrite E.
  unfold bind at 1, ret at 1.
  unfold bind at 1, write, emit, emits; simpl.
  unfold bind at 1, sleep, emit, emits; simpl.
  unfold bind at 1. rewrite read_nonempty_hears by assumption.
  unfold bytes_decode. rewrite Hd.
  unfold bind, ret, log, emit, emits; simpl.
  unfold exchange. rewrite <- !app_assoc. reflexivity.
Qed.

(** [send] when the line that answers is not UTF-8: line 106 raises, and
    nothing in [send] handles it. *)
Lemma send_garbled (data : str) (line : bytes) (p : reply) r tr n pf :
  Py.encode (rstrip data ++ CRLF) = Some line ->
  raw p <> [] -> Py.decode (strip (raw p)) = None ->
  send data (mkState (heard p ++ r) tr n pf) =
  (Raise UnicodeDecodeError,
   mkState r (tr ++ [Write line; Sleep 200] ++ reads_of p) n pf).
Proof.
  intros E Hb Hd. unfold send, frame, str_encode. rewrite E.
  unfold bind at 1, ret at 1.
  unfold bind at 1, write, emit, emits; simpl.
  unfold bind at 1, sleep, emit, emits; simpl.
  unfold bind at 1. rewrite read_nonempty_hears by assumption.
  unfold bytes_decode. rewrite Hd.
  unfold bind, raise. rewrite <- !app_assoc. reflexivity.
Qed.

Lemma send_written (data : str) (line : bytes) (s : state) :
  Py.encode (rstrip data ++ CRLF) = Some line ->
  send data s = await_response (emits [Write line] s).
Proof.
  intros E. unfold send, frame, str_encode. rewrite E. reflexivity.
Qed.

Lemma await_response_observes P :
  P (Sleep 200) = true -> (forall b, P (Read b) = true) ->
  (forall t, P (Log DEBUG "Decoded response : %s" [t]) = true) ->
  observes P await_response.
Proof.
  intros Ps Pr Pl. unfold await_response.
  pose proof (observes_read_nonempty P Pr).
  apply observes_bind; [apply observes_emit, Ps|intro].
  apply observes_bind; [assumption|intro].
  apply observes_bind; [apply observes_bytes_decode|intro].
  apply observes_bind; [apply observes_emit, Pl|intro].
  apply observes_ret.
Qed.

(** After its write, [send] writes nothing more: whatever the modem does,
    one call of [send] puts exactly one line on the wire. *)
Lemma send_trace (data : str) (line : bytes) (s : state) :
  Py.encode (rstrip data ++ CRLF) = Some line ->
  exists evs,
    trace (snd (send data s)) = trace s ++ Write line :: evs /\
    forallb not_write evs = true /\
    error_counts (snd (send data s)) = error_counts s.
Proof.
  intros E. rewrite (send_written data line s E).
  destruct (await_response_observes not_write eq_refl (fun _ => eq_refl)
              (fun _ => eq_refl) (emits [Write line] s))
    as (evs & T & F & Ec & _).
  exists evs. rewrite T, Ec. simpl. rewrite <- app_assoc. auto.
Qed.

Lemma send_unframed (data : str) (s : state) :
  Py.encode (rstrip data ++ CRLF) = None ->
  send data s = (Raise UnicodeEncodeError, s).
Proof.
  intros E. unfold send, frame, str_encode. rewrite E. reflexivity.
Qed.

Lemma frame_bytes (data : str) (body : bytes) :
  Py.encode (rstrip data) = Some body ->
  Py.encode (rstrip data ++ CRLF) = Some (body ++ [13; 10]%N).
Proof. intros E. rewrite encode_app, E. reflexivity. Qed.

(* ===================================================================== *)
(** ** [send] : framing of the command (lines 96-97) *)
(* ===================================================================== *)

(** C3. For every command [data] whose trimmed text can be encoded to
    [body], whatever the state and whatever the modem then does, the one
    thing [send] writes is [body] followed by CR LF; [data] is the trimmed
    text followed by white space only; the trimmed text does not end in
    white space, and [body] ends neither in CR nor in LF: the line on the
    wire carries exactly one terminator, however many the input had. *)
Theorem send_one_terminator (data : str) (body : bytes) :
  Py.encode (rstrip data) = Some body ->
  (forall s, writes (trace (snd (send data s))) =
             writes (trace s) ++ [body ++ [13; 10]%N]) /\
  (exists ws, data = rstrip data ++ ws /\ forallb isspace ws = true) /\
  (forall c, index_last (rstrip data) = Some c -> isspace c = false) /\
  (forall b, index_last body = Some b -> b <> 13%N /\ b <> 10%N).
Proof.
  intros E. split; [|split; [|split]].
  - intros s.
    destruct (send_trace data (body ++ [13; 10]%N) s (frame_bytes data body E))
      as (evs & T & F & _).
    rewrite T. unfold writes. rewrite flat_map_app. simpl.
    replace (flat_map _ evs) with (@nil bytes); [reflexivity|].
    clear T. induction evs as [|e evs IH]; [reflexivity|].
    simpl in F. apply andb_true_iff in F as [Fe F].
    destruct e; try discriminate; simpl; auto.
  - apply rstrip_split.
  - apply rstrip_last.
  - intros b L.
    assert (Hlow : (b < 128)%N -> index_last (rstrip data) = Some b)
      by (intros; eapply encode_last_low; eassumption).
    split; intros ->; specialize (Hlow eq_refl);
      apply (rstrip_last isspace) in Hlow; discriminate.
Qed.

Lemma send_one_terminator_witness :
  Py.encode (rstrip (lit "mac save" ++ [32; 13; 10; 13; 10])%N)
  = Some (lit "mac save") /\
  writes (trace (snd (send (lit "mac save" ++ [32; 13; 10; 13; 10])%N
                           (boot [Line (lit "ok" ++ [13; 10])%N] None))))
  = [lit "mac save" ++ [13; 10]%N].
Proof.
  split; [reflexivity|].
  exact (proj1 (send_one_terminator
                  (lit "mac save" ++ [32; 13; 10; 13; 10])%N
                  (lit "mac save") eq_refl)
               (boot [Line (lit "ok" ++ [13; 10])%N] None)).
Defined.

(* ===================================================================== *)
(** ** The data-rate index (line 137) *)
(* ===================================================================== *)

(** C4. For a spreading factor between 7 and 12 the data-rate index the
    join machine computes is |SF - 12|, that is 12 - SF, and lies between
    0 and 5; SF 7 gives 5 and SF 12 gives 0, and these are the indices
    written in the [mac set dr] command. *)
Theorem data_rate_index (sf : Z) :
  (7 <= sf <= 12)%Z ->
  data_rate_of sf = Z.abs (sf - 12) /\
  data_rate_of sf = (12 - sf)%Z /\
  (0 <= data_rate_of sf <= 5)%Z /\
  data_rate_of 7 = 5%Z /\ data_rate_of 12 = 0%Z /\
  str_of_int (data_rate_of 7) = lit "5" /\
  str_of_int (data_rate_of 12) = lit "0".
Proof.
  intros H. unfold data_rate_of. repeat split; try reflexivity; lia.
Qed.

Lemma data_rate_index_witness :
  data_rate_of 9 = Z.abs (9 - 12) /\
  data_rate_of 9 = (12 - 9)%Z /\
  (0 <= data_rate_of 9 <= 5)%Z /\
  data_rate_of 7 = 5%Z /\ data_rate_of 12 = 0%Z /\
  str_of_int (data_rate_of 7) = lit "5" /\
  str_of_int (data_rate_of 12) = lit "0".
Proof. apply (data_rate_index 9). lia. Defined.

(* ===================================================================== *)
(** ** The exit status of the process (lines 219-223, 277-285) *)
(* ===================================================================== *)

(** C8. When the serial port cannot be opened ([sp.open()] raises
    [SerialException] or [ValueError]), [main] logs the failure and returns
    1, but the module body drops that value and runs to its end: the
    process exits with status 0, not 1.  On the user's interrupt [main]
    returns 0 after closing the port, and the status is 0 as well. *)
Theorem exit_status_ignores_main (script_rx : list rx_item) :
  fst (main (boot script_rx (Some SerialException))) = Ret (Some 1%Z) /\
  exit_status (fst (script (boot script_rx (Some SerialException)))) = Some 0%Z /\
  fst (main (boot script_rx (Some ValueError))) = Ret (Some 1%Z) /\
  exit_status (fst (script (boot script_rx (Some ValueError)))) = Some 0%Z /\
  fst (main (boot (CtrlC :: script_rx) None)) = Ret (Some 0%Z) /\
  exit_status (fst (script (boot (CtrlC :: script_rx) None))) = Some 0%Z /\
  index_last (trace (snd (main (boot (CtrlC :: script_rx) None)))) = Some Close.
Proof. repeat split; reflexivity. Qed.

(* ===================================================================== *)
(** ** The commands of [lora_setup], in order (lines 144-194) *)
(* ===================================================================== *)

Lemma writes_app (a b : list event) : writes (a ++ b) = writes a ++ writes b.
Proof. apply flat_map_app. Qed.

Lemma writes_not_write (evs : list event) :
  forallb not_write evs = true -> writes evs = [].
Proof.
  induction evs as [|e evs IH]; [reflexivity|]. simpl.
  intros F; apply andb_true_iff in F as [Fe F].
  destruct e; try discriminate; simpl; auto.
Qed.

Lemma issues_silent {A} (m : M A) : observes not_write m -> issues [] m.
Proof.
  intros H s. destruct (H s) as (new & T & F & _).
  exists []. rewrite T, writes_app, (writes_not_write new F).
  repeat split; auto. exists []; reflexivity.
Qed.

Lemma issues_bind {A B} (c1 c2 : list bytes) (m : M A) (k : A -> M B) :
  issues c1 m -> (forall a, issues c2 (k a)) -> issues (c1 ++ c2) (bind m k).
Proof.
  intros Hm Hk s. unfold bind.
  destruct (Hm s) as (w1 & T1 & [r1 P1] & C1).
  destruct (m s) as [[a| | |] s1]; simpl in *.
  - destruct (Hk a s1) as (w2 & T2 & [r2 P2] & C2).
    rewrite (C1 a eq_refl) in *.
    exists (c1 ++ w2). rewrite T2, T1, app_assoc. split; [reflexivity|].
    split; [exists r2; rewrite <- app_assoc; congruence|].
    intros b E. rewrite (C2 b E). reflexivity.
  - exists w1. split; [assumption|]. split; [|discriminate].
    exists (r1 ++ c2). rewrite app_assoc; congruence.
  - exists w1. split; [assumption|]. split; [|discriminate].
    exists (r1 ++ c2). rewrite app_assoc; congruence.
  - exists w1. split; [assumption|]. split; [|discriminate].
    exists (r1 ++ c2). rewrite app_assoc; congruence.
Qed.

Lemma issues_send (data : str) (line : bytes) :
  Py.encode (rstrip data ++ CRLF) = Some line -> issues [line] (send data).
Proof.
  intros E s. destruct (send_trace data line s E) as (evs & T & F & _).
  exists [line]. rewrite T. change (Write line :: evs) with ([Write line] ++ evs).
  rewrite !writes_app, (writes_not_write evs F). simpl.
  repeat split; auto. exists []; reflexivity.
Qed.

Lemma issues_log l fmt args : issues [] (log l fmt args).
Proof. apply issues_silent, observes_emit. reflexivity. Qed.

Lemma issues_eq {A} (c c' : list bytes) (m : M A) :
  issues c m -> c = c' -> issues c' m.
Proof. intros H <-; exact H. Qed.

(** A plain ASCII command that does not end in white space goes on the
    wire as it is, followed by CR LF. *)
Lemma frame_plain (pre : str) (c : N) :
  Forall ascii7 (pre ++ [c]) -> isspace c = false ->
  Py.encode (rstrip (pre ++ [c]) ++ CRLF) = Some ((pre ++ [c]) ++ [13; 10]%N).
Proof.
  intros A S. unfold rstrip. rewrite rstrip_keeps by assumption.
  rewrite encode_app, (encode_ascii _ A). reflexivity.
Qed.

Lemma dr_frame (sf : Z) :
  Py.encode (rstrip (lit "mac set dr " ++ str_of_int (data_rate_of sf)) ++ CRLF)
  = Some (lit "mac set dr " ++ str_of_int (data_rate_of sf) ++ [13; 10]%N).
Proof.
  assert (H : (0 <= data_rate_of sf)%Z) by (unfold data_rate_of; lia).
  destruct (str_of_int_digits _ H) as [NE D].
  destruct (exists_last NE) as (pre & c & E). rewrite E in *.
  apply Forall_app in D as [D1 D2].
  rewrite !app_assoc. apply frame_plain.
  - rewrite !Forall_app. repeat split.
    + apply lit_ascii7. reflexivity.
    + eapply Forall_impl; [apply digit_ascii7 | exact D1].
    + eapply Forall_impl; [apply digit_ascii7 | exact D2].
  - apply digit_not_space. inversion D2; assumption.
Qed.

Ltac issue_step sf :=
  lazymatch goal with
  | |- issues _ (bind _ _) => eapply issues_bind; [|intro]
  | |- issues _ (log _ _ _) => apply issues_log
  | |- issues _ (ret _) => apply issues_silent, observes_ret
  | |- issues _ (sleep _) => apply issues_silent, observes_emit; reflexivity
  | |- issues _ (send _) =>
      eapply issues_send; first [ apply (dr_frame sf) | vm_compute; reflexivity ]
  end.

(** Every run of [provision] writes an initial part of the twelve
    provisioning commands, and all twelve when it returns. *)
Lemma provision_issues (sf : Z) : issues (provisioning sf) (provision sf).
Proof.
  unfold provision. cbv zeta. simpl for_each.
  eapply issues_eq.
  - repeat issue_step sf.
  - reflexivity.
Qed.

Lemma join_attempts_eq :
  join_attempts = while (fun joining => ret (negb joining)) join_turn false.
Proof. reflexivity. Qed.

Lemma join_turn_issues (j : bool) : issues [join_command] (join_turn j).
Proof.
  unfold join_turn. eapply issues_eq.
  - cbv zeta. repeat issue_step 0%Z.
  - reflexivity.
Qed.

(** The join loop writes the join command, and nothing else, once per
    turn. *)
Lemma join_loop_writes (fuel : nat) (j : bool) (s : state) :
  exists n,
    writes (trace (snd (while_ fuel (fun joining => ret (negb joining))
                               join_turn j s)))
    = writes (trace s) ++ repeat join_command n /\
    (j = false ->
     forall a, fst (while_ fuel (fun joining => ret (negb joining))
                           join_turn j s) = Ret a -> 1 <= n).
Proof.
  set (C := fun joining : bool => ret (negb joining)).
  revert j s; induction fuel as [|fuel IH]; intros j s; destruct j.
  - exists 0. change (while_ 0 C join_turn true s) with (Ret true, s).
    simpl. rewrite app_nil_r. split; [reflexivity|discriminate].
  - exists 0. change (while_ 0 C join_turn false s) with (@OutOfFuel bool, s).
    simpl. rewrite app_nil_r. split; [reflexivity|discriminate].
  - exists 0. change (while_ (S fuel) C join_turn true s) with (Ret true, s).
    simpl. rewrite app_nil_r. split; [reflexivity|discriminate].
  - change (while_ (S fuel) C join_turn false s)
      with (bind (join_turn false) (fun x' => while_ fuel C join_turn x') s).
    unfold bind.
    destruct (join_turn_issues false s) as (ws & T & [rest P] & Cw).
    destruct (join_turn false s) as [[j'| | |] s1]; simpl in *.
    + rewrite (Cw j' eq_refl) in T.
      destruct (IH j' s1) as (n & Tn & _).
      exists (S n). rewrite Tn, T, <- app_assoc. split; [reflexivity|].
      intros; lia.
    + destruct ws as [|w [|w' ws]]; try discriminate.
      * exists 0. split; [assumption|discriminate].
      * exists 1. injection P as <- _. split; [assumption|discriminate].
    + destruct ws as [|w [|w' ws]]; try discriminate.
      * exists 0. split; [assumption|discriminate].
      * exists 1. injection P as <- _. split; [assumption|discriminate].
    + destruct ws as [|w [|w' ws]]; try discriminate.
      * exists 0. split; [assumption|discriminate].
      * exists 1. injection P as <- _. split; [assumption|discriminate].
Qed.

Lemma await_accept_silent : observes not_write await_accept.
Proof.
  unfold await_accept.
  pose proof (observes_read_nonempty not_write (fun _ => eq_refl)).
  obs_solve.
Qed.


(* ===================================================================== *)
(** ** Joining (lines 187-205) *)
(* ===================================================================== *)

(** The first character [decode] produces is the first octet when that is
    below 128, and is 128 or more otherwise. *)
Lemma decode_cons (b0 : N) (r0 : bytes) (t : str) :
  Py.decode (b0 :: r0) = Some t ->
  ((b0 < 128)%N /\ exists t', t = b0 :: t' /\ Py.decode r0 = Some t') \/
  (exists c t', t = c :: t' /\ (128 <= c)%N).
Proof.
  change (Py.decode (b0 :: r0)) with
    (if (b0 <? 0x80)%N then option_map (cons b0) (Py.decode r0)
     else if between 0xC2 0xDF b0 then
       match r0 with
       | b1 :: r1 =>
           if between 0x80 0xBF b1
           then option_map (cons ((b0 - 0xC0) * 64 + cont b1)%N) (Py.decode r1)
           else None
       | _ => None
       end
     else if between 0xE0 0xEF b0 then
       match r0 with
       | b1 :: b2 :: r2 =>
           if between (if (b0 =? 0xE0)%N then 0xA0%N else 0x80%N)
                      (if (b0 =? 0xED)%N then 0x9F%N else 0xBF%N) b1
              && between 0x80 0xBF b2
           then option_map
                  (cons ((b0 - 0xE0) * 4096 + cont b1 * 64 + cont b2)%N)
                  (Py.decode r2)
           else None
       | _ => None
       end
     else if between 0xF0 0xF4 b0 then
       match r0 with
       | b1 :: b2 :: b3 :: r3 =>
           if between (if (b0 =? 0xF0)%N then 0x90%N else 0x80%N)
                      (if (b0 =? 0xF4)%N then 0x8F%N else 0xBF%N) b1
              && between 0x80 0xBF b2 && between 0x80 0xBF b3
           then option_map
                  (cons ((b0 - 0xF0) * 262144 + cont b1 * 4096
                         + cont b2 * 64 + cont b3)%N)
                  (Py.decode r3)
           else None
       | _ => None
       end
     else None).
  destruct (N.ltb_spec b0 128) as [Lt|Ge].
  { destruct (Py.decode r0) as [t'|]; [|discriminate].
    intros D; apply some_eq in D. left; eauto. }
  intros D; right.
  destruct (between 0xC2 0xDF b0) eqn:B2.
  { destruct r0 as [|b1 r1]; [discriminate|].
    destruct (between 0x80 0xBF b1) eqn:C1; [|discriminate].
    destruct (Py.decode r1) as [t'|]; [|discriminate].
    apply some_eq in D. eexists _, t'; split; [symmetry; exact D|].
    unfold between, cont in *. apply andb_true_iff in B2 as [L1 _], C1 as [L2 _].
    apply N.leb_le in L1, L2. lia. }
  destruct (between 0xE0 0xEF b0) eqn:B3.
  { destruct r0 as [|b1 [|b2 r2]]; try discriminate.
    destruct (_ && _) eqn:C; [|discriminate].
    destruct (Py.decode r2) as [t'|]; [|discriminate].
    apply some_eq in D. eexists _, t'; split; [symmetry; exact D|].
    unfold between, cont in *.
    apply andb_true_iff in B3 as [L1 _], C as [C1 C2].
    apply andb_true_iff in C1 as [L2 _], C2 as [L3 _].
    apply N.leb_le in L1, L2, L3.
    destruct (N.eqb_spec b0 224); lia. }
  destruct (between 0xF0 0xF4 b0) eqn:B4; [|discriminate].
  destruct r0 as [|b1 [|b2 [|b3 r3]]]; try discriminate.
  destruct (_ && _) eqn:C; [|discriminate].
  destruct (Py.decode r3) as [t'|]; [|discriminate].
  apply some_eq in D. eexists _, t'; split; [symmetry; exact D|].
  unfold between, cont in *.
  apply andb_true_iff in B4 as [L1 _], C as [C1 _].
  apply andb_true_iff in C1 as [C1 _]. apply andb_true_iff in C1 as [L2 _].
  apply N.leb_le in L1, L2.
  destruct (N.eqb_spec b0 240); lia.
Qed.

(** Text that decodes to plain ASCII was those very octets. *)
Lemma decode_ascii_inv (b : bytes) :
  forall t : str, Py.decode b = Some t -> Forall ascii7 t -> b = t.
Proof.
  induction b as [|b0 r0 IH]; intros t D A.
  - apply some_eq in D. exact D.
  - destruct (decode_cons b0 r0 t D) as [[Lt (t' & -> & D')]|(c & t' & -> & Ge)].
    + inversion A; subst. f_equal. apply IH; assumption.
    + inversion A; subst. unfold ascii7 in *. lia.
Qed.

Lemma accepted_exactly (b : bytes) (t : str) :
  Py.decode b = Some t -> (str_eq t accepted = true <-> b = lit "accepted").
Proof.
  intros D. rewrite str_eq_spec. split.
  - intros ->. apply decode_ascii_inv; [assumption|].
    apply lit_ascii7. reflexivity.
  - intros ->. simpl in D. apply some_eq in D. symmetry; exact D.
Qed.

Lemma advances_join_turn (j : bool) : advances (join_turn j).
Proof.
  unfold join_turn.
  apply advances_bind_r; [auto with rx|intro].
  apply advances_bind_l; [apply advances_send|intro]. rx_solve.
Qed.

Lemma join_loop_unfold (j : bool) (s : state) :
  while (fun joining => ret (negb joining)) join_turn j s =
  if j then (Ret j, s)
  else (j' <- join_turn j ;;
        while (fun joining => ret (negb joining)) join_turn j') s.
Proof.
  rewrite while_unfold.
  - unfold bind at 1, ret at 1. destruct j; reflexivity.
  - intros x s0 s1 x' s2 Ec Eb. inversion Ec; subst.
    eapply advances_join_turn; eassumption.
Qed.

Lemma join_turn_hears (j : bool) (p : reply) r tr n pf :
  genuine p ->
  join_turn j (mkState (heard p ++ r) tr n pf) =
  (Ret (if contains ok (text p) then true else j),
   mkState r (tr ++ join_events p) n pf).
Proof.
  intros G. unfold join_turn.
  unfold bind at 1, log, emit, emits; simpl.
  unfold bind at 1.
  rewrite (send_hears (lit "mac join otaa") join_command p r _ n pf eq_refl G).
  unfold bind, log, sleep, emit, emits, ret; simpl.
  unfold join_events. rewrite <- !app_assoc. reflexivity.
Qed.

(** The modem refuses as long as it likes, then says "ok": the loop has
    asked once per answer, and ends. *)
Lemma join_loop_runs (bad : list reply) (good : reply) r tr n pf :
  Forall (fun p => genuine p /\ contains ok (text p) = false) bad ->
  genuine good -> contains ok (text good) = true ->
  join_attempts (mkState (flat_map heard bad ++ heard good ++ r) tr n pf) =
  (Ret true,
   mkState r (tr ++ flat_map join_events bad ++ join_events good) n pf).
Proof.
  intros B G K. rewrite join_attempts_eq.
  revert tr; induction B as [|p bad [Gp Kp] _ IH]; intros tr;
    rewrite join_loop_unfold; cbn [flat_map app]; unfold bind.
  - rewrite join_turn_hears by assumption. rewrite K.
    rewrite join_loop_unfold. reflexivity.
  - rewrite <- app_assoc. rewrite join_turn_hears by assumption. rewrite Kp.
    rewrite IH, <- !app_assoc. reflexivity.
Qed.

Lemma await_accept_hears (p : reply) r tr n pf :
  genuine p ->
  await_accept (mkState (heard p ++ r) tr n pf) =
  (Ret (str_eq (text p) accepted),
   mkState r (tr ++ verdict_events p) n pf).
Proof.
  intros [Hb Hd]. unfold await_accept.
  unfold bind at 1, log, emit, emits; simpl.
  unfold bind at 1, sleep, emit, emits; simpl.
  unfold bind at 1. rewrite read_nonempty_hears by assumption.
  unfold bytes_decode. rewrite Hd.
  unfold bind, ret, log, emit, emits; simpl.
  unfold verdict_events. rewrite <- !app_assoc. simpl.
  destruct (str_eq (text p) accepted); reflexivity.
Qed.

Lemma timeline_app (a b : list event) :
  timeline (a ++ b) = timeline a ++ timeline b.
Proof. apply filter_app. Qed.

Lemma timeline_reads (p : reply) : timeline (reads_of p) = [].
Proof.
  unfold reads_of. rewrite timeline_app. simpl. rewrite app_nil_r.
  induction (quiet p); simpl; auto.
Qed.

Lemma timeline_join_events (p : reply) :
  timeline (join_events p) = [Write join_command; Sleep 200; Sleep 2000].
Proof.
  unfold join_events, exchange. rewrite !timeline_app, timeline_reads.
  reflexivity.
Qed.

Lemma timeline_verdict_events (p : reply) :
  timeline (verdict_events p) = [Sleep 2000].
Proof.
  unfold verdict_events. rewrite !timeline_app, timeline_reads. reflexivity.
Qed.

Lemma timeline_join_turns (bad : list reply) :
  timeline (flat_map join_events bad) =
  List.concat (repeat [Write join_command; Sleep 200; Sleep 2000]
                      (List.length bad)).
Proof.
  induction bad as [|p bad IH]; [reflexivity|]. cbn [flat_map].
  rewrite timeline_app, timeline_join_events, IH. reflexivity.
Qed.

(** An answer to the join command that is not UTF-8 ends the loop, and
    [lora_setup], by the exception. *)
Lemma join_turn_garbled (j : bool) (p : reply) r tr n pf :
  raw p <> [] -> Py.decode (strip (raw p)) = None ->
  join_turn j (mkState (heard p ++ r) tr n pf) =
  (Raise UnicodeDecodeError,
   mkState r
     (tr ++ [Log INFO "Preparing to join the network" [];
             Write join_command; Sleep 200] ++ reads_of p) n pf).
Proof.
  intros Hb Hd. unfold join_turn.
  unfold bind at 1, log, emit, emits; simpl.
  unfold bind at 1.
  rewrite (send_garbled (lit "mac join otaa") join_command p r _ n pf
             eq_refl Hb Hd).
  rewrite <- !app_assoc. reflexivity.
Qed.

Lemma join_loop_garbled (bad : list reply) (p : reply) r tr n pf :
  Forall (fun p => genuine p /\ contains ok (text p) = false) bad ->
  raw p <> [] -> Py.decode (strip (raw p)) = None ->
  join_attempts (mkState (flat_map heard bad ++ heard p ++ r) tr n pf) =
  (Raise UnicodeDecodeError,
   mkState r
     (tr ++ flat_map join_events bad ++
      [Log INFO "Preparing to join the network" [];
       Write join_command; Sleep 200] ++ reads_of p) n pf).
Proof.
  intros B Hb Hd. rewrite join_attempts_eq.
  revert tr; induction B as [|q bad [Gq Kq] _ IH]; intros tr;
    rewrite join_loop_unfold; cbn [flat_map app]; unfold bind.
  - rewrite join_turn_garbled by assumption. reflexivity.
  - rewrite <- app_assoc. rewrite join_turn_hears by assumption. rewrite Kq.
    rewrite IH, <- !app_assoc. reflexivity.
Qed.

(** The verdict is a line that is not UTF-8: [decode] raises, and nothing
    in [lora_setup] handles it. *)
Lemma await_accept_garbled (p : reply) r tr n pf :
  raw p <> [] -> Py.decode (strip (raw p)) = None ->
  await_accept (mkState (heard p ++ r) tr n pf) =
  (Raise UnicodeDecodeError,
   mkState r
     (tr ++ [Log INFO "Wating to get the accepted response" []; Sleep 2000]
         ++ reads_of p) n pf).
Proof.
  intros Hb Hd. unfold await_accept.
  unfold bind at 1, log, emit, emits; simpl.
  unfold bind at 1, sleep, emit, emits; simpl.
  unfold bind at 1. rewrite read_nonempty_hears by assumption.
  unfold bytes_decode. rewrite Hd.
  unfold bind, raise. rewrite <- !app_assoc. reflexivity.
Qed.

(** C2, as stated, fails: a line that is not "accepted" does not always
    make the join machine report failure.  After the provisioning and an
    "ok" to the join command, let the first line that is not empty hold an
    octet that is not UTF-8 (here 0xFF, then CR LF).  Line 201 decodes it
    strictly, [UnicodeDecodeError] escapes [lora_setup], and the function
    returns neither [True] nor [False]. *)
Lemma verdict_that_is_not_text_is_no_report :
  fst (lora_setup 7
         (boot (flat_map heard (repeat (says "ok") 13) ++
                [Line [255; 13; 10]%N]) None))
  = Raise UnicodeDecodeError /\
  (forall joined : bool,
     fst (lora_setup 7
            (boot (flat_map heard (repeat (says "ok") 13) ++
                   [Line [255; 13; 10]%N]) None))
     <> Ret joined).
Proof.
  assert (E : fst (lora_setup 7
                     (boot (flat_map heard (repeat (says "ok") 13) ++
                            [Line [255; 13; 10]%N]) None))
              = Raise UnicodeDecodeError) by (vm_compute; reflexivity).
  split; [exact E|]. intros joined. rewrite E. discriminate.
Qed.

(** C2, amended. Once the modem is provisioned, let it answer the join
    command any number of times with a text that does not hold "ok"
    ([bad]), then with a line [last] that is not such a text, and then
    send a first line that is not empty, [verdict].  [lora_setup] sends the
    join command once per answer, each time followed by the 0.2 s of
    [send], and pauses 2 s after each answer it could decode.  When [last]
    is a text (it then holds "ok"), [lora_setup] stops asking, waits 2 s
    more and reads the verdict: when the verdict, stripped of white space,
    is UTF-8, [lora_setup] returns [True] if it is exactly the text
    "accepted" and [False] for any other text; when it is not UTF-8,
    [UnicodeDecodeError] is raised out of [lora_setup], which then reports
    neither.  When [last] is not UTF-8, [UnicodeDecodeError] is raised out
    of [lora_setup] at once, the verdict unread. *)
Theorem join_until_ok_then_verdict
  (sf : Z) (s s1 : state) (bad : list reply) (last verdict : reply)
  (rest : list rx_item) :
  provision sf s = (Ret tt, s1) ->
  rx s1 = flat_map heard bad ++ heard last ++ heard verdict ++ rest ->
  Forall (fun p => genuine p /\ contains ok (text p) = false) bad ->
  raw last <> [] ->
  (forall t, Py.decode (strip (raw last)) = Some t -> contains ok t = true) ->
  raw verdict <> [] ->
  exists s',
    match Py.decode (strip (raw last)) with
    | Some _ =>
        match Py.decode (strip (raw verdict)) with
        | Some t =>
            lora_setup sf s = (Ret (str_eq t accepted), s') /\
            (str_eq t accepted = true <->
             strip (raw verdict) = lit "accepted")
        | None => lora_setup sf s = (Raise UnicodeDecodeError, s')
        end /\
        rx s' = rest /\
        timeline (trace s') =
          timeline (trace s1) ++
          List.concat (repeat [Write join_command; Sleep 200; Sleep 2000]
                              (S (List.length bad))) ++
          [Sleep 2000]
    | None =>
        lora_setup sf s = (Raise UnicodeDecodeError, s') /\
        rx s' = heard verdict ++ rest /\
        timeline (trace s') =
          timeline (trace s1) ++
          List.concat (repeat [Write join_command; Sleep 200; Sleep 2000]
                              (List.length bad)) ++
          [Write join_command; Sleep 200]
    end.
Proof.
  intros Ep Erx B L K V.
  destruct s1 as [rx1 tr1 n1 pf1]. simpl in Erx. subst rx1.
  destruct (Py.decode (strip (raw last))) as [tl|] eqn:Dl.
  - assert (G : genuine (mkReply (quiet last) (raw last) tl))
      by (split; assumption).
    assert (Tj : timeline (flat_map join_events bad ++
                           join_events (mkReply (quiet last) (raw last) tl)) =
                 List.concat
                   (repeat [Write join_command; Sleep 200; Sleep 2000]
                           (S (List.length bad)))).
    { rewrite timeline_app, timeline_join_turns, timeline_join_events.
      replace (S (List.length bad)) with (List.length bad + 1) by lia.
      rewrite repeat_app, concat_app. cbn [repeat List.concat].
      rewrite app_nil_r. reflexivity. }
    change (heard last)
      with (heard (mkReply (quiet last) (raw last) tl)) in Ep.
    destruct (Py.decode (strip (raw verdict))) as [t|] eqn:D;
      unfold lora_setup; unfold bind at 1; rewrite Ep;
      unfold bind at 1;
      rewrite (join_loop_runs bad _ _ tr1 n1 pf1 B G (K tl eq_refl)).
    + change (heard verdict)
        with (heard (mkReply (quiet verdict) (raw verdict) t)).
      rewrite await_accept_hears by (split; assumption).
      eexists. split; [split; [reflexivity|]|split; [reflexivity|]].
      * apply accepted_exactly. exact D.
      * cbn [trace]. rewrite !timeline_app, timeline_verdict_events.
        rewrite <- timeline_app, Tj, <- !app_assoc. reflexivity.
    + rewrite await_accept_garbled by assumption.
      eexists. split; [reflexivity|]. split; [reflexivity|].
      cbn [trace]. rewrite !timeline_app, timeline_reads.
      rewrite <- timeline_app, Tj, app_nil_r, <- app_assoc. reflexivity.
  - unfold lora_setup. unfold bind at 1. rewrite Ep.
    unfold bind at 1.
    rewrite (join_loop_garbled bad last _ tr1 n1 pf1 B L Dl).
    eexists. split; [reflexivity|]. split; [reflexivity|].
    cbn [trace]. rewrite !timeline_app, timeline_join_turns, timeline_reads.
    rewrite app_nil_r. reflexivity.
Qed.

Lemma join_until_ok_then_verdict_witness :
  exists s',
    (lora_setup 7 (boot (join_script "accepted") None) = (Ret true, s') /\
     (true = true <-> lit "accepted" = lit "accepted")) /\
    rx s' = [] /\
    timeline (trace s') =
      timeline (trace (snd (provision 7 (boot (join_script "accepted") None))))
      ++ List.concat (repeat [Write join_command; Sleep 200; Sleep 2000] 2)
      ++ [Sleep 2000].
Proof.
  apply (join_until_ok_then_verdict 7 (boot (join_script "accepted") None)
           (snd (provision 7 (boot (join_script "accepted") None)))
           [mkReply 2 (lit "busy" ++ [13; 10]%N) (lit "busy")]
           (says "ok")
           (mkReply 1 (lit "accepted" ++ [13; 10]%N) (lit "accepted")) []).
  - vm_compute. reflexivity.
  - vm_compute. reflexivity.
  - repeat constructor; discriminate.
  - discriminate.
  - intros t H. vm_compute in H. inversion H. reflexivity.
  - discriminate.
Defined.

(** The verdict must be the whole line: text that merely holds
    "accepted" is a refusal. *)
Example not_accepted_is_refused :
  fst (lora_setup 7 (boot (join_script "not accepted") None)) = Ret false /\
  fst (lora_setup 7 (boot (join_script "accepted") None)) = Ret true /\
  fst (lora_setup 7 (boot (join_script "denied") None)) = Ret false.
Proof. repeat split; vm_compute; reflexivity. Qed.

(* ===================================================================== *)
(** ** One uplink (lines 245-276) *)
(* ===================================================================== *)

Lemma poll_follow_up_eq :
  poll_follow_up =
  (ret_ <- readline ;;
   rt <- while poll_test poll_turn (ret_, 0%Z) ;;
   ret (fst rt)).
Proof. reflexivity. Qed.

Lemma advances_poll_turn rt : advances (poll_turn rt).
Proof.
  unfold poll_turn.
  apply advances_bind_r; [auto with rx|intro].
  apply advances_bind_l; [apply advances_readline|intro]. rx_solve.
Qed.

Lemma poll_loop_unfold (rt : bytes * Z) (s : state) :
  while poll_test poll_turn rt s =
  if is_empty (fst rt) && (snd rt <? 5)%Z
  then (rt' <- poll_turn rt ;; while poll_test poll_turn rt') s
  else (Ret rt, s).
Proof.
  rewrite while_unfold.
  - unfold bind at 1, poll_test, ret at 1.
    destruct (is_empty (fst rt) && (snd rt <? 5)%Z); reflexivity.
  - intros x s0 s1 x' s2 Ec Eb. inversion Ec; subst.
    eapply advances_poll_turn; eassumption.
Qed.

Lemma poll_turn_reads (t : Z) (b : bytes) r tr n pf :
  poll_turn ([], t) (mkState (Line b :: r) tr n pf) =
  (Ret (b, (t + 1)%Z), mkState r (tr ++ [Sleep 1000; Read b]) n pf).
Proof.
  unfold poll_turn, bind, sleep, emit, readline, ret, emits, set_rx; simpl.
  rewrite <- app_assoc. reflexivity.
Qed.

(** A line arrives while the loop still has turns left. *)
Lemma poll_loop_hears (k : nat) (b : bytes) (t : Z) r tr n pf :
  b <> [] -> (t + Z.of_nat k < 5)%Z ->
  while poll_test poll_turn ([], t)
    (mkState (repeat (Line []) k ++ Line b :: r) tr n pf) =
  (Ret (b, (t + Z.of_nat k + 1)%Z),
   mkState r (tr ++ later_reads (repeat [] k ++ [b])) n pf).
Proof.
  intros Hb. revert t tr; induction k as [|k IH]; intros t tr Lt;
    rewrite poll_loop_unfold; cbn [fst snd is_empty andb];
    (destruct (Z.ltb_spec t 5); [|lia]);
    cbn [repeat app]; unfold bind; rewrite poll_turn_reads.
  - rewrite poll_loop_unfold. cbn [fst snd].
    rewrite (is_empty_false b Hb). cbn [andb].
    replace (t + Z.of_nat 0 + 1)%Z with (t + 1)%Z by lia. reflexivity.
  - rewrite IH by lia. unfold later_reads. cbn [repeat app flat_map].
    rewrite <- !app_assoc.
    replace (t + 1 + Z.of_nat k + 1)%Z with (t + Z.of_nat (S k) + 1)%Z by lia.
    reflexivity.
Qed.

(** Nothing arrives: the loop stops when [tries] reaches 5. *)
Lemma poll_loop_gives_up (k : nat) (t : Z) r tr n pf :
  (t + Z.of_nat k = 5)%Z ->
  while poll_test poll_turn ([], t)
    (mkState (repeat (Line []) k ++ r) tr n pf) =
  (Ret ([], 5%Z), mkState r (tr ++ later_reads (repeat [] k)) n pf).
Proof.
  revert t tr; induction k as [|k IH]; intros t tr E;
    rewrite poll_loop_unfold; cbn [fst snd is_empty andb].
  - destruct (Z.ltb_spec t 5); [lia|]. cbn [repeat app later_reads flat_map].
    rewrite app_nil_r. replace t with 5%Z by lia. reflexivity.
  - destruct (Z.ltb_spec t 5); [|lia].
    cbn [repeat app]; unfold bind; rewrite poll_turn_reads.
    rewrite IH by lia. unfold later_reads. cbn [repeat flat_map].
    rewrite <- !app_assoc. reflexivity.
Qed.

Lemma poll_follow_up_hears (q : reply) r tr n pf :
  raw q <> [] -> quiet q <= 5 ->
  poll_follow_up (mkState (heard q ++ r) tr n pf) =
  (Ret (raw q), mkState r (tr ++ poll_events (follow_up_reads q)) n pf).
Proof.
  intros Hb Hq. rewrite poll_follow_up_eq. unfold heard, follow_up_reads.
  rewrite <- app_assoc. cbn [app].
  destruct (quiet q) as [|k]; cbn [repeat app];
    unfold bind at 1, readline; cbn [rx]; unfold emits, set_rx; cbn [rx trace error_counts port_fault].
  - unfold bind. rewrite poll_loop_unfold. cbn [fst snd].
    rewrite (is_empty_false _ Hb). reflexivity.
  - unfold bind. rewrite poll_loop_hears by (assumption || lia).
    unfold ret. cbn [fst poll_events]. rewrite <- app_assoc. reflexivity.
Qed.

Lemma poll_follow_up_gives_up r tr n pf :
  poll_follow_up (mkState (repeat (Line []) 6 ++ r) tr n pf) =
  (Ret [], mkState r (tr ++ poll_events (repeat [] 6)) n pf).
Proof.
  rewrite poll_follow_up_eq.
  change (repeat (Line []) 6) with (Line [] :: repeat (Line []) 5).
  cbn [app]. unfold bind at 1, readline; cbn [rx]; unfold emits, set_rx;
    cbn [rx trace error_counts port_fault].
  unfold bind. rewrite poll_loop_gives_up by reflexivity.
  unfold ret. cbn [fst]. rewrite <- app_assoc. reflexivity.
Qed.

Lemma failures_app (a b : list event) :
  failures (a ++ b) = failures a + failures b.
Proof. unfold failures. rewrite filter_app, length_app. reflexivity. Qed.

Lemma failures_not_error (t : list event) :
  forallb not_error t = true -> failures t = 0.
Proof.
  unfold failures, not_error. induction t as [|e t IH]; [reflexivity|].
  simpl. intros F; apply andb_true_iff in F as [Fe F].
  destruct (is_error e); [discriminate|]. auto.
Qed.

Lemma ends_in_error_app (a b : list event) :
  b <> [] -> ends_in_error (a ++ b) = ends_in_error b.
Proof.
  intros Hb. unfold ends_in_error.
  destruct (exists_last Hb) as (pre & e & ->).
  rewrite app_assoc, !index_last_snoc. reflexivity.
Qed.

Lemma attempt_observes {A} (m : M A) : observes not_error m -> attempt_like m.
Proof.
  intros H s. destruct (H s) as (new & T & F & E & _).
  exists new. rewrite (failures_not_error new F), E.
  repeat split; try lia; auto.
Qed.

Lemma attempt_bind {A B} (m : M A) (k : A -> M B) :
  observes not_error m -> (forall a, attempt_like (k a)) ->
  attempt_like (bind m k).
Proof.
  intros Hm Hk s. unfold bind.
  destruct (Hm s) as (n1 & T1 & F1 & E1 & _).
  pose proof (failures_not_error n1 F1) as Z1.
  destruct (m s) as [[a| | |] s1]; cbn [fst snd] in *;
    try (exists n1; rewrite Z1, E1; repeat split; try lia; auto; fail).
  destruct (Hk a s1) as (n2 & T2 & E2 & L2 & X2).
  exists (n1 ++ n2). rewrite failures_app, Z1, T2, T1, E2, E1, app_assoc.
  cbn [Nat.add]. repeat split; auto.
  - destruct (X2 H) as [X _]. rewrite ends_in_error_app; [exact X|].
    intros ->. discriminate.
  - apply X2; assumption.
Qed.

Lemma attempt_failed (fmt : string) :
  attempt_like (incr_error_counts ;; log ERROR fmt []).
Proof.
  intros s. exists [Log ERROR fmt []]. cbn.
  repeat split; eauto.
Qed.

Ltac attempt_step :=
  lazymatch goal with
  | |- attempt_like (bind incr_error_counts _) => apply attempt_failed
  | |- attempt_like (bind _ _) => apply attempt_bind; [|intro]
  | |- attempt_like (if ?b then _ else _) => destruct b
  | |- attempt_like _ => apply attempt_observes
  | |- observes _ (send _) => apply send_no_failure
  | |- observes _ poll_follow_up => apply poll_no_failure
  | |- observes _ _ => solve [obs_solve]
  end.

(** Every run of one uplink, however it ends, is such an attempt. *)
Lemma uplink_attempt (command : str) : attempt_like (uplink command).
Proof. unfold uplink. repeat attempt_step. Qed.

Lemma payload_of_some (t : str) : exists payload, payload_of t = Some payload.
Proof.
  unfold payload_of. destruct (split_last space t) as (f & L & _). eauto.
Qed.

Lemma bind_log {A} l fmt args (k : M A) r tr n pf :
  (log l fmt args ;; k) (mkState r tr n pf) =
  k (mkState r (tr ++ [Log l fmt args]) n pf).
Proof. reflexivity. Qed.

Lemma bind_sleep {A} ms (k : M A) r tr n pf :
  (sleep ms ;; k) (mkState r tr n pf) = k (mkState r (tr ++ [Sleep ms]) n pf).
Proof. reflexivity. Qed.

Lemma log_run l fmt args r tr n pf :
  log l fmt args (mkState r tr n pf) =
  (Ret tt, mkState r (tr ++ [Log l fmt args]) n pf).
Proof. reflexivity. Qed.

Lemma failed_run fmt r tr n pf :
  (incr_error_counts ;; log ERROR fmt []) (mkState r tr n pf) =
  (Ret tt, mkState r (tr ++ [Log ERROR fmt []]) (n + 1)%Z pf).
Proof. reflexivity. Qed.

Lemma uplink_sends (command : str) (line : bytes) (p : reply)
  (k : str -> M unit) r tr n pf :
  Py.encode (rstrip command ++ CRLF) = Some line -> genuine p ->
  (log INFO "Waiting to send message" [] ;;
   sleep 10000 ;;
   log INFO ("Sending command " ++ dquote ++ "%s" ++ dquote) [command] ;;
   response <- send command ;;
   k response) (mkState (heard p ++ r) tr n pf) =
  k (text p) (mkState r (tr ++ uplink_events command line p) n pf).
Proof.
  intros E G. rewrite bind_log, bind_sleep, bind_log.
  unfold bind at 1. rewrite (send_hears command line p r _ n pf E G).
  unfold uplink_events. rewrite <- !app_assoc. reflexivity.
Qed.

(** The modem does not say "ok": a failure. *)
Lemma uplink_refused (command : str) (line : bytes) (p : reply) r tr n pf :
  Py.encode (rstrip command ++ CRLF) = Some line -> genuine p ->
  contains ok (text p) = false ->
  uplink command (mkState (heard p ++ r) tr n pf) =
  (Ret tt,
   mkState r
     (tr ++ uplink_events command line p ++
      [Log ERROR "Could not send the command, retrying" []])
     (n + 1)%Z pf).
Proof.
  intros E G K. unfold uplink. rewrite (uplink_sends _ line p _ r tr n pf E G).
  rewrite K. cbn [negb]. rewrite failed_run, <- !app_assoc. reflexivity.
Qed.

(** The modem says "ok" and then nothing, six reads long: a failure. *)
Lemma uplink_unanswered (command : str) (line : bytes) (p : reply) r tr n pf :
  Py.encode (rstrip command ++ CRLF) = Some line -> genuine p ->
  contains ok (text p) = true ->
  uplink command (mkState (heard p ++ repeat (Line []) 6 ++ r) tr n pf) =
  (Ret tt,
   mkState r
     (tr ++ uplink_events command line p ++
      [Log DEBUG "Message successfuly sent through serial" []] ++
      poll_events (repeat [] 6) ++
      [Log ERROR "No response, maybe collision or message lost" []])
     (n + 1)%Z pf).
Proof.
  intros E G K. unfold uplink.
  rewrite (uplink_sends _ line p _ _ tr n pf E G).
  rewrite K. cbn [negb]. rewrite bind_log.
  unfold bind at 1. rewrite poll_follow_up_gives_up.
  cbn [is_empty]. rewrite failed_run, <- !app_assoc. reflexivity.
Qed.

(** The modem says "ok" and a line follows within the six reads: no
    failure, whatever the line says. *)
Lemma uplink_answered (command : str) (line : bytes) (p q : reply) r tr n pf :
  Py.encode (rstrip command ++ CRLF) = Some line -> genuine p ->
  contains ok (text p) = true ->
  genuine q -> quiet q <= 5 ->
  uplink command (mkState (heard p ++ heard q ++ r) tr n pf) =
  (Ret tt,
   mkState r
     (tr ++ uplink_events command line p ++
      [Log DEBUG "Message successfuly sent through serial" []] ++
      poll_events (follow_up_reads q) ++
      line_events (text q))
     n pf).
Proof.
  intros E G K [Hb Hd] Hq. unfold uplink.
  rewrite (uplink_sends _ line p _ _ tr n pf E G).
  rewrite K. cbn [negb]. rewrite bind_log.
  unfold bind at 1. rewrite poll_follow_up_hears by assumption.
  rewrite (is_empty_false _ Hb).
  unfold bytes_decode. rewrite Hd.
  unfold bind at 1, ret at 1. rewrite bind_log.
  unfold line_events.
  destruct (contains mac_rx (text q)); cbn [negb].
  - destruct (payload_of_some (text q)) as [payload ->].
    rewrite bind_log, log_run, <- !app_assoc. reflexivity.
  - rewrite log_run, <- !app_assoc. reflexivity.
Qed.

(* ===================================================================== *)
(** ** Waiting for the follow-up line (lines 259-268) *)
(* ===================================================================== *)

#[local] Arguments Z.add _ _ : simpl never.
#[local] Arguments Z.sub _ _ : simpl never.
#[local] Arguments Z.of_nat _ : simpl never.
#[local] Arguments Z.ltb _ _ : simpl never.
#[local] Arguments Z.leb _ _ : simpl never.

Lemma poll_turn_run (rt : bytes * Z) (s : state) :
  poll_turn rt s =
  match rx s with
  | [] => (Blocked, emits [Sleep 1000] s)
  | Line b :: r =>
      (Ret (b, (snd rt + 1)%Z),
       emits [Read b] (set_rx r (emits [Sleep 1000] s)))
  | CtrlC :: r => (Raise KeyboardInterrupt, set_rx r (emits [Sleep 1000] s))
  end.
Proof.
  unfold poll_turn, bind, sleep, emit, readline, ret. cbn [rx emits].
  destruct (rx s) as [|[b|] r]; reflexivity.
Qed.

Lemma poll_loop_step (fuel : nat) (rt : bytes * Z) (s : state) :
  while_ (S fuel) poll_test poll_turn rt s =
  if is_empty (fst rt) && (snd rt <? 5)%Z
  then match poll_turn rt s with
       | (Ret rt', s') => while_ fuel poll_test poll_turn rt' s'
       | (Raise e, s') => (Raise e, s')
       | (Blocked, s') => (Blocked, s')
       | (OutOfFuel, s') => (OutOfFuel, s')
       end
  else (Ret rt, s).
Proof.
  cbn [while_]. unfold bind at 1, poll_test, ret at 1.
  destruct (is_empty (fst rt) && (snd rt <? 5)%Z); reflexivity.
Qed.

(** In every run the polling loop pauses at most [5 - tries] times, one
    second each, and does nothing else but read. *)
Lemma poll_loop_bounded (fuel : nat) :
  forall (rt : bytes * Z) (s : state),
    (0 <= snd rt <= 5)%Z ->
    exists it,
      trace (snd (while_ fuel poll_test poll_turn rt s)) = trace s ++ it /\
      only_polls it = true /\
      (Z.of_nat (pauses it) <= 5 - snd rt)%Z.
Proof.
  induction fuel as [|fuel IH]; intros [b t] s Ht; cbn [snd] in *.
  - exists []. rewrite app_nil_r.
    cbn [while_]. unfold bind, poll_test, ret. cbn [fst snd].
    destruct (is_empty b && (t <? 5)%Z); cbn; repeat split; lia.
  - rewrite poll_loop_step. cbn [fst snd].
    destruct (is_empty b && (t <? 5)%Z) eqn:C.
    2:{ exists []. rewrite app_nil_r. cbn. repeat split; lia. }
    apply andb_true_iff in C as [_ C]. apply Z.ltb_lt in C.
    rewrite poll_turn_run. cbn [snd].
    destruct (rx s) as [|[b'|] r] eqn:R.
    + exists [Sleep 1000]. cbn. repeat split; lia.
    + destruct (IH (b', (t + 1)%Z)
                  (emits [Read b'] (set_rx r (emits [Sleep 1000] s))))
        as (it & T & O & P); [cbn [snd]; lia|].
      exists (Sleep 1000 :: Read b' :: it). rewrite T. cbn [snd] in P.
      unfold only_polls, pauses in *. cbn. rewrite <- !app_assoc.
      repeat split; [assumption | lia].
    + exists [Sleep 1000]. cbn. repeat split; lia.
Qed.

(** So [poll_follow_up] reads at once and then pauses at most five times. *)
Lemma poll_follow_up_bounded (s : state) :
  exists it,
    trace (snd (poll_follow_up s)) = trace s ++ it /\
    only_polls it = true /\ pauses it <= 5.
Proof.
  rewrite poll_follow_up_eq. unfold bind at 1, readline.
  destruct (rx s) as [|[b|] r] eqn:R.
  - exists []. rewrite app_nil_r. cbn. repeat split; lia.
  - unfold bind, while, ret.
    set (s1 := emits [Read b] (set_rx r s)).
    destruct (poll_loop_bounded (S (List.length (rx s1))) (b, 0%Z) s1)
      as (it & T & O & P); [cbn [snd]; lia|].
    exists (Read b :: it).
    assert (E : trace (snd (while_ (S (List.length (rx s1))) poll_test
                                   poll_turn (b, 0%Z) s1))
                = trace s ++ Read b :: it).
    { rewrite T. subst s1. cbn. rewrite <- app_assoc. reflexivity. }
    split.
    + rewrite <- E.
      destruct (while_ _ poll_test poll_turn (b, 0%Z) s1) as [[rt| | |] s2];
        reflexivity.
    + unfold only_polls, pauses in *. cbn [snd] in P. cbn.
      split; [assumption | lia].
  - exists []. rewrite app_nil_r. cbn. repeat split; lia.
Qed.

(** The loop of lines 259-268 is written for reads that time out.  Were
    the port to have a timeout, an acknowledged uplink (the answer to the
    command holds "ok") followed by six empty reads would not hang: the
    loop reads once and then polls five more times, each poll after a pause
    of one second, logs the failure and raises [error_counts] by one; and
    in every run, whatever the reads deliver, the polling pauses at most
    five times and does nothing but pause 1 s and read. *)
Lemma timed_out_poll_gives_up
  (command : str) (line : bytes) (p : reply) (rest : list rx_item)
  (tr : list event) (n : Z) (pf : option exn) :
  Py.encode (rstrip command ++ CRLF) = Some line ->
  genuine p -> contains ok (text p) = true ->
  uplink command (mkState (heard p ++ repeat (Line []) 6 ++ rest) tr n pf) =
  (Ret tt,
   mkState rest
     (tr ++ uplink_events command line p ++
      [Log DEBUG "Message successfuly sent through serial" []] ++
      [Read []; Sleep 1000; Read []; Sleep 1000; Read []; Sleep 1000;
       Read []; Sleep 1000; Read []; Sleep 1000; Read []] ++
      [Log ERROR "No response, maybe collision or message lost" []])
     (n + 1)%Z pf) /\
  (forall s, exists it,
      trace (snd (poll_follow_up s)) = trace s ++ it /\
      only_polls it = true /\ pauses it <= 5).
Proof.
  intros E G K. split.
  - apply (uplink_unanswered command line p rest tr n pf E G K).
  - apply poll_follow_up_bounded.
Qed.

Lemma tx_line_framed : Py.encode (rstrip tx_command ++ CRLF) = Some tx_line.
Proof. vm_compute. reflexivity. Qed.

(* ===================================================================== *)
(** ** The downlink payload (lines 271-276) *)
(* ===================================================================== *)

(** C6, as stated, fails: line 275 splits on the space character only.  On
    the follow-up line "mac_rx 1<TAB>a1b2c3" the last whitespace-delimited
    token is "a1b2c3", but the payload the loop extracts and logs is
    "1<TAB>a1b2c3". *)
Lemma payload_is_not_last_whitespace_token :
  contains mac_rx tabbed_line = true /\
  last_whitespace_token tabbed_line = Some (lit "a1b2c3") /\
  payload_of tabbed_line = Some (lit "1" ++ [9%N] ++ lit "a1b2c3") /\
  index_last
    (trace (snd (uplink tx_command
                   (boot (heard (says "ok") ++ heard tabbed_reply) None)))) =
  Some (Log DEBUG "Payload : %s" [lit "1" ++ [9%N] ++ lit "a1b2c3"]) /\
  payload_of tabbed_line <> last_whitespace_token tabbed_line.
Proof. repeat split; try (vm_compute; reflexivity). discriminate. Qed.

(** Where the only white space of a text is the space character and the
    text does not end with one, the field after the last space is the last
    whitespace-delimited token. *)
Lemma tokens_plain (f cur : str) :
  (forall c, In c f -> isspace c = false) ->
  tokens_from cur f =
  match rev cur ++ f with [] => [] | _ :: _ => [rev cur ++ f] end.
Proof.
  revert cur; induction f as [|c r IH]; intros cur H.
  - cbn [tokens_from]. rewrite app_nil_r.
    destruct cur as [|x cur]; [reflexivity|].
    destruct (rev (x :: cur)) eqn:E; [|reflexivity].
    apply (f_equal (@List.length N)) in E. rewrite length_rev in E.
    discriminate.
  - cbn [tokens_from]. rewrite (H c (or_introl eq_refl)).
    rewrite IH by (intros; apply H; right; assumption).
    cbn [rev]. rewrite <- app_assoc. reflexivity.
Qed.

Lemma tokens_after_space (pre f cur : str) :
  exists before,
    tokens_from cur (pre ++ space :: f) = before ++ tokens_from [] f.
Proof.
  revert cur; induction pre as [|c r IH]; intros cur.
  - cbn [app tokens_from]. change (isspace space) with true.
    cbn iota. eexists; reflexivity.
  - cbn [app tokens_from]. destruct (isspace c).
    + destruct (IH []) as [b ->]. eexists. rewrite app_assoc. reflexivity.
    + apply IH.
Qed.

Lemma payload_is_last_token (t payload : str) :
  payload_of t = Some payload -> payload <> [] ->
  (forall c, In c t -> isspace c = true -> c = space) ->
  last_whitespace_token t = Some payload.
Proof.
  intros P NE Sp. unfold payload_of in P.
  destruct (split_last space t) as (f & L & NI & Sh).
  rewrite L in P. apply some_eq in P. subst f.
  assert (Hp : forall c, In c payload -> isspace c = false).
  { intros c Hc. destruct (isspace c) eqn:E; [|reflexivity].
    exfalso. apply NI.
    assert (In c t) by (destruct Sh as [->|[pre ->]];
                        [assumption | apply in_or_app; right; right; assumption]).
    rewrite <- (Sp c H E). exact Hc. }
  unfold last_whitespace_token.
  destruct Sh as [->|[pre ->]].
  - rewrite (tokens_plain payload [] Hp). cbn [rev app].
    destruct payload; [congruence|reflexivity].
  - destruct (tokens_after_space pre payload []) as [b ->].
    rewrite (tokens_plain payload [] Hp). cbn [rev app].
    destruct payload; [congruence|]. apply index_last_snoc.
Qed.

(** C6, amended. After an acknowledged uplink, let a follow-up line
    arrive within the six reads and read as the text [t].  The attempt
    returns and leaves [error_counts] as it was.  When [t] holds "mac_rx",
    the payload logged is the last field of [t] cut at every space
    character: it holds no space, and it is all of [t] or what follows the
    last space of [t]; for "mac_rx 1 a1b2c3" it is "a1b2c3".  It is the
    last whitespace-delimited token of [t] whenever it is not empty and the
    only white space in [t] is the space character.  When [t] does not hold
    "mac_rx" the line is logged and dropped: no payload record. *)
Theorem downlink_payload_is_last_space_field
  (command : str) (line : bytes) (p q : reply) (rest : list rx_item)
  (tr : list event) (n : Z) (pf : option exn) :
  Py.encode (rstrip command ++ CRLF) = Some line ->
  genuine p -> contains ok (text p) = true ->
  genuine q -> quiet q <= 5 ->
  uplink command (mkState (heard p ++ heard q ++ rest) tr n pf) =
  (Ret tt,
   mkState rest
     (tr ++ uplink_events command line p ++
      [Log DEBUG "Message successfuly sent through serial" []] ++
      poll_events (follow_up_reads q) ++
      line_events (text q))
     n pf) /\
  (contains mac_rx (text q) = true ->
   exists payload,
     line_events (text q) =
       [Log INFO "Got response %s" [text q];
        Log INFO "Got a max_rx (downlink, processing)" [];
        Log DEBUG "Payload : %s" [payload]] /\
     payload_of (text q) = Some payload /\
     ~ In space payload /\
     (text q = payload \/ exists pre, text q = pre ++ space :: payload) /\
     (payload <> [] ->
      (forall c, In c (text q) -> isspace c = true -> c = space) ->
      last_whitespace_token (text q) = Some payload)) /\
  (contains mac_rx (text q) = false ->
   line_events (text q) =
     [Log INFO "Got response %s" [text q];
      Log INFO "No mac_rx in response, continuing" []]) /\
  payload_of (lit "mac_rx 1 a1b2c3") = Some (lit "a1b2c3").
Proof.
  intros E G K Gq Hq. split; [|split; [|split]].
  - apply uplink_answered; assumption.
  - intros C. unfold line_events. rewrite C.
    destruct (split_last space (text q)) as (f & L & NI & Sh).
    exists f. unfold payload_of. rewrite L.
    repeat split; auto.
    apply payload_is_last_token. unfold payload_of. exact L.
  - intros C. unfold line_events. rewrite C. reflexivity.
  - reflexivity.
Qed.

Lemma downlink_payload_is_last_space_field_witness :
  uplink tx_command
    (mkState (heard (says "ok") ++ heard downlink_reply ++ []) [] 4 None) =
  (Ret tt,
   mkState []
     ([] ++ uplink_events tx_command tx_line (says "ok") ++
      [Log DEBUG "Message successfuly sent through serial" []] ++
      poll_events (follow_up_reads downlink_reply) ++
      line_events (lit "mac_rx 1 a1b2c3"))
     4 None) /\
  line_events (lit "mac_rx 1 a1b2c3") =
    [Log INFO "Got response %s" [lit "mac_rx 1 a1b2c3"];
     Log INFO "Got a max_rx (downlink, processing)" [];
     Log DEBUG "Payload : %s" [lit "a1b2c3"]].
Proof.
  split; [|reflexivity].
  apply (proj1 (downlink_payload_is_last_space_field
                  tx_command tx_line (says "ok") downlink_reply [] [] 4 None
                  tx_line_framed
                  (conj (fun H => @nil_cons N _ _ (eq_sym H)) eq_refl) eq_refl
                  (conj (fun H => @nil_cons N _ _ (eq_sym H)) eq_refl)
                  (le_S _ _ (le_S _ _ (le_n 3))))).
Defined.

(* ===================================================================== *)
(** ** The transmit loop (lines 242-276) *)
(* ===================================================================== *)

Lemma transmit_loop_eq (command : str) :
  transmit_loop command = while transmit_test (fun _ => uplink command) tt.
Proof. reflexivity. Qed.

(** The loop goes on exactly while [error_counts] is at most 5. *)
Lemma transmit_loop_unfold (command : str) (s : state) :
  transmit_loop command s =
  if (error_counts s <=? 5)%Z
  then (uplink command ;; transmit_loop command) s
  else (Ret tt, s).
Proof.
  rewrite transmit_loop_eq, while_unfold.
  - unfold bind at 1.
    change (transmit_test tt s) with (Ret (error_counts s <=? 5)%Z, s).
    destruct (error_counts s <=? 5)%Z; [|reflexivity].
    unfold bind. destruct (uplink command s) as [[[]| | |] s']; reflexivity.
  - intros [] s0 s1 [] s2 Ec Eb.
    unfold transmit_test, bind, get_error_counts, ret in Ec.
    inversion Ec; subst. eapply advances_uplink; eassumption.
Qed.

Lemma transmit_loop_step (fuel : nat) (command : str) (s : state) :
  while_ (S fuel) transmit_test (fun _ => uplink command) tt s =
  if (error_counts s <=? 5)%Z
  then match uplink command s with
       | (Ret _, s') => while_ fuel transmit_test (fun _ => uplink command) tt s'
       | (Raise e, s') => (Raise e, s')
       | (Blocked, s') => (Blocked, s')
       | (OutOfFuel, s') => (OutOfFuel, s')
       end
  else (Ret tt, s).
Proof.
  cbn [while_]. unfold bind at 1.
  change (transmit_test tt s) with (Ret (error_counts s <=? 5)%Z, s).
  destruct (error_counts s <=? 5)%Z; [|reflexivity].
  unfold bind. destruct (uplink command s) as [[[]| | |] s']; reflexivity.
Qed.

Lemma transmit_loop_zero (command : str) (s : state) :
  while_ 0 transmit_test (fun _ => uplink command) tt s =
  if (error_counts s <=? 5)%Z then (OutOfFuel, s) else (Ret tt, s).
Proof.
  cbn [while_]. unfold bind at 1.
  change (transmit_test tt s) with (Ret (error_counts s <=? 5)%Z, s).
  destruct (error_counts s <=? 5)%Z; reflexivity.
Qed.




(** *** Consecutive failures, as the specification words it *)


(* ===================================================================== *)
(** ** Sessions made of failures and successes *)
(* ===================================================================== *)

Lemma uplink_runs (command : str) (line : bytes) (a : attempt) r tr n pf :
  Py.encode (rstrip command ++ CRLF) = Some line -> plausible a ->
  exists evs,
    uplink command (mkState (incoming a ++ r) tr n pf) =
    (Ret tt,
     mkState r (tr ++ evs) (if failed a then n + 1 else n)%Z pf).
Proof.
  intros E P. destruct a as [p|p|p q]; cbn [incoming failed plausible] in *.
  - destruct P as [G K]. eexists.
    apply (uplink_refused command line p r tr n pf E G K).
  - destruct P as [G K]. eexists. rewrite <- app_assoc.
    apply (uplink_unanswered command line p r tr n pf E G K).
  - destruct P as (G & K & Gq & Hq). eexists. rewrite <- app_assoc.
    apply (uplink_answered command line p q r tr n pf E G K Gq Hq).
Qed.

Lemma closing_counts (l : list attempt) :
  l <> [] -> closing l -> 1 <= failed_count l.
Proof.
  intros NE C. destruct (exists_last NE) as (pre & a & ->).
  unfold closing in C. rewrite index_last_snoc in C.
  unfold failed_count. rewrite filter_app, length_app. cbn. rewrite C.
  cbn. lia.
Qed.

Lemma closing_tail (a b : attempt) (l : list attempt) :
  closing (a :: b :: l) -> closing (b :: l).
Proof. unfold closing. rewrite index_last_cons. auto. Qed.

(** Failures and successes in any order, the last attempt a failure, the
    failures adding up to 6 with those already counted: the session runs
    through all the attempts and ends. *)
Lemma session_runs (command : str) (line : bytes) (l : list attempt) :
  Py.encode (rstrip command ++ CRLF) = Some line ->
  Forall plausible l -> closing l ->
  forall r tr n pf,
    (n + Z.of_nat (failed_count l) = 6)%Z ->
    exists tr',
      transmit_loop command (mkState (flat_map incoming l ++ r) tr n pf) =
      (Ret tt, mkState r tr' 6%Z pf).
Proof.
  intros E P. induction P as [|a l Pa _ IH]; intros C r tr n pf S.
  - cbn in S. exists tr. rewrite transmit_loop_unfold. cbn [error_counts].
    destruct (Z.leb_spec n 5); [lia|]. cbn. f_equal. f_equal. lia.
  - pose proof (closing_counts (a :: l) ltac:(discriminate) C) as C1.
    rewrite transmit_loop_unfold. cbn [error_counts].
    destruct (Z.leb_spec n 5); [|lia].
    cbn [flat_map]. rewrite <- app_assoc. unfold bind.
    destruct (uplink_runs command line a (flat_map incoming l ++ r) tr n pf
                E Pa) as (evs & ->).
    apply IH.
    + destruct l as [|b l]; [exact I|]. eapply closing_tail; eassumption.
    + unfold failed_count in *. cbn [filter] in S.
      destruct (failed a); cbn [List.length] in S; lia.
Qed.

(** C10. Within a session [error_counts] never goes down: in every run
    of one uplink, however it ends, the counter is left as it was or raised
    by one.  An acknowledged uplink whose follow-up line arrives (with or
    without the downlink marker) leaves the counter exactly as it was, it
    does not put it back to 0.  So failures add up across successes: any
    sequence of attempts with six failures, the last attempt being one of
    them, ends the session, however many successes lie between them. *)
Theorem error_counts_never_decreases (command : str) (line : bytes) :
  Py.encode (rstrip command ++ CRLF) = Some line ->
  (forall s,
     (error_counts s <= error_counts (snd (uplink command s))
      <= error_counts s + 1)%Z) /\
  (forall p q rest tr n pf,
     genuine p -> contains ok (text p) = true ->
     genuine q -> quiet q <= 5 ->
     exists tr',
       uplink command (mkState (heard p ++ heard q ++ rest) tr n pf) =
       (Ret tt, mkState rest tr' n pf)) /\
  (forall l rest tr pf,
     Forall plausible l -> failed_count l = 6 -> closing l ->
     exists tr',
       transmit_loop command (mkState (flat_map incoming l ++ rest) tr 0 pf) =
       (Ret tt, mkState rest tr' 6%Z pf)).
Proof.
  intros E. split; [|split].
  - intros s. destruct (uplink_attempt command s) as (it & _ & Ec & L & _).
    rewrite Ec. lia.
  - intros p q rest tr n pf G K Gq Hq. eexists.
    apply (uplink_answered command line p q rest tr n pf E G K Gq Hq).
  - intros l rest tr pf P F C.
    apply (session_runs command line l E P C). rewrite F. reflexivity.
Qed.

Lemma error_counts_never_decreases_witness :
  (forall s,
     (error_counts s <= error_counts (snd (uplink tx_command s))
      <= error_counts s + 1)%Z) /\
  (exists tr',
     uplink tx_command
       (mkState (heard (says "ok") ++ heard (says "mac_tx_ok") ++ [])
                [] 3 None) =
     (Ret tt, mkState [] tr' 3%Z None)) /\
  (exists tr',
     transmit_loop tx_command
       (mkState (flat_map incoming mixed_session ++ []) [] 0 None) =
     (Ret tt, mkState [] tr' 6%Z None)).
Proof.
  destruct (error_counts_never_decreases tx_command tx_line tx_line_framed)
    as (H1 & H2 & H3).
  split; [exact H1|]. split.
  - apply (H2 (says "ok") (says "mac_tx_ok") [] [] 3%Z None).
    + split; [discriminate|reflexivity].
    + reflexivity.
    + split; [discriminate|reflexivity].
    + cbn. lia.
  - apply (H3 mixed_session [] [] None).
    + repeat constructor; try discriminate; cbn; lia.
    + reflexivity.
    + reflexivity.
Defined.

(* ===================================================================== *)
(** ** The outer loop (lines 233-242) *)
(* ===================================================================== *)

(** One turn of the outer loop: join, then transmit until the session
    ends. *)
Lemma main_loop_unfold (command : str) (s : state) :
  main_loop command s =
  (enter_session ;; transmit_loop command ;; main_loop command) s.
Proof.
  unfold main_loop at 1. rewrite while_unfold.
  - unfold bind at 1, ret at 1. unfold bind.
    destruct (enter_session s) as [[[]| | |] s1]; try reflexivity.
    all: destruct (transmit_loop command s1) as [[[]| | |] s2]; reflexivity.
  - intros [] s0 s1 [] s2 Ec Eb. inversion Ec; subst.
    revert Eb. apply advances_bind_l; [apply advances_enter_session|].
    intro. apply consumes_transmit_loop.
Qed.

Lemma send_no_attempt data : observes no_attempt (send data).
Proof.
  unfold send, frame.
  pose proof (observes_read_nonempty no_attempt (fun _ => eq_refl)).
  obs_solve.
Qed.

#[export] Hint Resolve send_no_attempt : obs.

Lemma lora_setup_no_attempt sf : observes no_attempt (lora_setup sf).
Proof.
  unfold lora_setup, provision, join_attempts, await_accept.
  pose proof (observes_read_nonempty no_attempt (fun _ => eq_refl)).
  obs_solve.
Qed.

#[export] Hint Resolve lora_setup_no_attempt : obs.

Lemma connect_no_attempt : observes no_attempt connect.
Proof. unfold connect. obs_solve. Qed.

(** C9. Every time the outer loop has (re)joined, from whatever state
    and with whatever value a previous session left in [error_counts], the
    code between the join and the transmit loop has started no uplink
    attempt, ends with the record "Connected to LoRa network", and hands
    the transmit loop a state in which [error_counts] is 0; the session
    that follows is the transmit loop run from that state. *)
Theorem session_starts_with_zero_errors (command : str) (s s1 : state) :
  enter_session s = (Ret tt, s1) ->
  error_counts s1 = 0%Z /\
  (exists new,
     trace s1 = trace s ++ new /\
     forallb no_attempt new = true /\
     index_last new = Some (Log INFO "Connected to LoRa network" [])) /\
  main_loop command s = (transmit_loop command ;; main_loop command) s1 /\
  transmit_loop command s1 = (uplink command ;; transmit_loop command) s1.
Proof.
  intros En.
  assert (E0 : error_counts s1 = 0%Z /\
               exists new, trace s1 = trace s ++ new /\
                           forallb no_attempt new = true /\
                           index_last new =
                           Some (Log INFO "Connected to LoRa network" [])).
  { unfold enter_session, bind in En.
    destruct (connect_no_attempt s) as (new & T & F & _).
    destruct (connect s) as [[[]| | |] s0]; try discriminate.
    cbn [fst snd] in *. cbn in En. inversion En; subst s1. cbn.
    split; [reflexivity|].
    exists (new ++ [Log INFO "Connected to LoRa network" []]).
    rewrite T, <- app_assoc, forallb_app, F, index_last_snoc. auto. }
  destruct E0 as [E0 Hnew].
  split; [assumption|]. split; [assumption|]. split.
  - rewrite main_loop_unfold. unfold bind at 1. rewrite En. reflexivity.
  - rewrite transmit_loop_unfold, E0. reflexivity.
Qed.

Lemma session_starts_with_zero_errors_witness :
  error_counts (snd (enter_session rejoining)) = 0%Z /\
  (exists new,
     trace (snd (enter_session rejoining)) = trace rejoining ++ new /\
     forallb no_attempt new = true /\
     index_last new = Some (Log INFO "Connected to LoRa network" [])) /\
  main_loop tx_command rejoining =
    (transmit_loop tx_command ;; main_loop tx_command)
      (snd (enter_session rejoining)) /\
  transmit_loop tx_command (snd (enter_session rejoining)) =
    (uplink tx_command ;; transmit_loop tx_command)
      (snd (enter_session rejoining)).
Proof.
  apply (session_starts_with_zero_errors tx_command rejoining
           (snd (enter_session rejoining))).
  vm_compute. reflexivity.
Defined.

(* ===================================================================== *)
(** ** The bound on the loops is never reached *)
(* ===================================================================== *)

Lemma fueled_ret {A} (a : A) : fueled (ret a).
Proof. intros s; discriminate. Qed.

Lemma fueled_raise {A} (e : exn) : fueled (@raise A e).
Proof. intros s; discriminate. Qed.

Lemma fueled_emit (e : event) : fueled (emit e).
Proof. intros s; discriminate. Qed.

Lemma fueled_get : fueled get_error_counts.
Proof. intros s; discriminate. Qed.

Lemma fueled_put n : fueled (put_error_counts n).
Proof. intros s; discriminate. Qed.

Lemma fueled_readline : fueled readline.
Proof.
  intros s; unfold readline. destruct (rx s) as [|[b|] r]; discriminate.
Qed.

Lemma fueled_open : fueled open.
Proof. intros s; unfold open. destruct (port_fault s); discriminate. Qed.

Lemma fueled_str_encode t : fueled (str_encode t).
Proof. unfold str_encode. destruct (Py.encode t); intros w; discriminate. Qed.

Lemma fueled_bytes_decode b : fueled (bytes_decode b).
Proof. unfold bytes_decode. destruct (Py.decode b); intros w; discriminate. Qed.

Lemma fueled_bind {A B} (m : M A) (k : A -> M B) :
  fueled m -> (forall a, fueled (k a)) -> fueled (bind m k).
Proof.
  intros Hm Hk s. unfold bind. specialize (Hm s).
  destruct (m s) as [[a| | |] s1]; cbn [fst] in *;
    first [apply Hk | discriminate | congruence].
Qed.

Lemma fueled_try {A} (m : M A) handled (h : exn -> M A) :
  fueled m -> (forall e, fueled (h e)) -> fueled (try_except m handled h).
Proof.
  intros Hm Hh s. unfold try_except. specialize (Hm s).
  destruct (m s) as [[a|e| |] s1]; cbn [fst] in *;
    first [discriminate | congruence | idtac].
  destruct (handled e); [apply Hh|discriminate].
Qed.

Lemma fueled_for_each {X} (l : list X) (body : X -> M unit) :
  (forall x, fueled (body x)) -> fueled (for_each l body).
Proof.
  intros Hb; induction l; cbn [for_each];
    [apply fueled_ret | apply fueled_bind; auto].
Qed.

(** A loop whose every turn reads is never short of fuel. *)
Lemma fueled_while {X} (cond : X -> M bool) (body : X -> M X) (x : X) :
  (forall x, fueled (cond x)) -> (forall x, fueled (body x)) ->
  (forall x s s1 x' s2,
      cond x s = (Ret true, s1) -> body x s1 = (Ret x', s2) ->
      List.length (rx s2) < List.length (rx s)) ->
  fueled (while cond body x).
Proof.
  intros Fc Fb Adv s. unfold while.
  apply while_fueled; auto.
Qed.

Lemma turn_of_body {X} (cond : X -> M bool) (body : X -> M X) :
  (forall x, consumes (cond x)) -> (forall x, advances (body x)) ->
  forall x s s1 x' s2,
    cond x s = (Ret true, s1) -> body x s1 = (Ret x', s2) ->
    List.length (rx s2) < List.length (rx s).
Proof.
  intros Cc Ab x s s1 x' s2 Ec Eb.
  pose proof (Cc x s) as H1. rewrite Ec in H1. cbn [snd] in H1.
  pose proof (Ab x s1 x' s2 Eb). lia.
Qed.

Lemma turn_of_test {X} (cond : X -> M bool) (body : X -> M X) :
  (forall x, advances (cond x)) -> (forall x, consumes (body x)) ->
  forall x s s1 x' s2,
    cond x s = (Ret true, s1) -> body x s1 = (Ret x', s2) ->
    List.length (rx s2) < List.length (rx s).
Proof.
  intros Ac Cb x s s1 x' s2 Ec Eb.
  pose proof (Ac x s true s1 Ec).
  pose proof (Cb x s1) as H1. rewrite Eb in H1. cbn [snd] in H1. lia.
Qed.

Create HintDb fuel.

#[export] Hint Resolve fueled_ret fueled_raise fueled_emit fueled_get
  fueled_put fueled_readline fueled_open fueled_str_encode
  fueled_bytes_decode : fuel.

Ltac fuel_step :=
  lazymatch goal with
  | |- fueled (bind _ _) => apply fueled_bind; [|intro]
  | |- fueled (for_each _ _) => apply fueled_for_each; intro
  | |- fueled (try_except _ _ _) => apply fueled_try; [|intro]
  | |- fueled (if ?b then _ else _) => destruct b
  | |- fueled (match ?o with Some _ => _ | None => _ end) => destruct o
  | |- fueled (let _ := _ in _) => cbv zeta
  | |- fueled (sleep _) => apply fueled_emit
  | |- fueled (log _ _ _) => apply fueled_emit
  | |- fueled (write _) => apply fueled_emit
  | |- fueled close => apply fueled_emit
  | |- fueled (join_turn _) => unfold join_turn
  | |- fueled (poll_test _) => unfold poll_test
  | |- fueled (poll_turn _) => unfold poll_turn
  | |- fueled (transmit_test _) => unfold transmit_test
  | |- _ => solve [auto 2 with fuel nocore]
  end.

Ltac fuel_solve := unfold sleep, log, write, close; repeat fuel_step.

Lemma fueled_read_nonempty : fueled read_nonempty.
Proof.
  unfold read_nonempty. apply fueled_bind; [apply fueled_readline|intro].
  apply fueled_while; [intro; fuel_solve | intro; fuel_solve |].
  apply turn_of_body; intro; [rx_solve | apply advances_readline].
Qed.

#[export] Hint Resolve fueled_read_nonempty : fuel.

Lemma fueled_send data : fueled (send data).
Proof. unfold send, frame. fuel_solve. Qed.

#[export] Hint Resolve fueled_send : fuel.

Lemma fueled_lora_setup sf : fueled (lora_setup sf).
Proof.
  unfold lora_setup. apply fueled_bind; [|intro; apply fueled_bind; [|intro]].
  - unfold provision. fuel_solve.
  - rewrite join_attempts_eq.
    apply fueled_while;
      [intro; fuel_solve | intro; unfold join_turn; fuel_solve |].
    apply turn_of_body; intro; [rx_solve | apply advances_join_turn].
  - unfold await_accept. fuel_solve.
Qed.

Lemma fueled_poll_follow_up : fueled poll_follow_up.
Proof.
  rewrite poll_follow_up_eq. apply fueled_bind; [apply fueled_readline|intro].
  apply fueled_bind; [|intro; apply fueled_ret].
  apply fueled_while;
    [intro; unfold poll_test; fuel_solve
    | intro; unfold poll_turn; fuel_solve |].
  apply turn_of_body; intro;
    [unfold poll_test; rx_solve | apply advances_poll_turn].
Qed.

#[export] Hint Resolve fueled_lora_setup fueled_poll_follow_up : fuel.

Lemma fueled_uplink command : fueled (uplink command).
Proof. unfold uplink, incr_error_counts. fuel_solve. Qed.

#[export] Hint Resolve fueled_uplink : fuel.

Lemma fueled_transmit_loop command : fueled (transmit_loop command).
Proof.
  rewrite transmit_loop_eq.
  apply fueled_while;
    [intro; unfold transmit_test; fuel_solve | intro; fuel_solve |].
  apply turn_of_body; intro;
    [unfold transmit_test; rx_solve | apply advances_uplink].
Qed.

Lemma fueled_connect : fueled connect.
Proof.
  unfold connect. apply fueled_while; [intro; fuel_solve | intro; fuel_solve |].
  apply turn_of_test; intro; [|rx_solve].
  apply advances_bind_l; [apply advances_lora_setup|intro; rx_solve].
Qed.

#[export] Hint Resolve fueled_transmit_loop fueled_connect : fuel.

Lemma fueled_main_loop command : fueled (main_loop command).
Proof.
  unfold main_loop.
  apply fueled_while;
    [intro; fuel_solve | intro; unfold enter_session; fuel_solve |].
  apply turn_of_body; intro; [rx_solve|].
  apply advances_bind_l; [apply advances_enter_session|].
  intro. apply consumes_transmit_loop.
Qed.

#[export] Hint Resolve fueled_main_loop : fuel.

(** X1.  Every loop of the script is unfolded once more than there are
    scripted reads left.  That is always enough: no run of the program, on
    any script and from any state, ends for lack of fuel. *)
Theorem script_never_out_of_fuel (s : state) :
  fst (script s) <> OutOfFuel /\ fst (main s) <> OutOfFuel.
Proof.
  assert (F : fueled main).
  { unfold main, setup_serial. fuel_solve. }
  split; [|apply F].
  revert s. change (fueled script). unfold script. fuel_solve.
Qed.

(* ===================================================================== *)
(** ** [encode] and [decode] undo each other (lines 96, 106, 201, 269) *)
(* ===================================================================== *)

Lemma decode_step (b0 : N) (r0 : bytes) :
  Py.decode (b0 :: r0) =
    (if (b0 <? 0x80)%N then option_map (cons b0) (Py.decode r0)
     else if between 0xC2 0xDF b0 then
       match r0 with
       | b1 :: r1 =>
           if between 0x80 0xBF b1
           then option_map (cons ((b0 - 0xC0) * 64 + cont b1)%N) (Py.decode r1)
           else None
       | _ => None
       end
     else if between 0xE0 0xEF b0 then
       match r0 with
       | b1 :: b2 :: r2 =>
           if between (if (b0 =? 0xE0)%N then 0xA0%N else 0x80%N)
                      (if (b0 =? 0xED)%N then 0x9F%N else 0xBF%N) b1
              && between 0x80 0xBF b2
           then option_map
                  (cons ((b0 - 0xE0) * 4096 + cont b1 * 64 + cont b2)%N)
                  (Py.decode r2)
           else None
       | _ => None
       end
     else if between 0xF0 0xF4 b0 then
       match r0 with
       | b1 :: b2 :: b3 :: r3 =>
           if between (if (b0 =? 0xF0)%N then 0x90%N else 0x80%N)
                      (if (b0 =? 0xF4)%N then 0x8F%N else 0xBF%N) b1
              && between 0x80 0xBF b2 && between 0x80 0xBF b3
           then option_map
                  (cons ((b0 - 0xF0) * 262144 + cont b1 * 4096
                         + cont b2 * 64 + cont b3)%N)
                  (Py.decode r3)
           else None
       | _ => None
       end
     else None).
Proof. reflexivity. Qed.

Lemma between_spec (lo hi b : N) :
  between lo hi b = true <-> (lo <= b <= hi)%N.
Proof.
  unfold between. rewrite andb_true_iff, !N.leb_le. tauto.
Qed.

Lemma encode_cons (c : N) (t : str) (bc bt : bytes) :
  encode_cp c = Some bc -> Py.encode t = Some bt ->
  Py.encode (c :: t) = Some (bc ++ bt).
Proof. intros Ec Et. cbn [Py.encode]. rewrite Ec, Et. reflexivity. Qed.

(** The four forms, each read back from its octets. *)
Lemma encode_cp_2 (b0 b1 : N) :
  (0xC2 <= b0 <= 0xDF)%N -> (0x80 <= b1 <= 0xBF)%N ->
  encode_cp ((b0 - 0xC0) * 64 + cont b1) = Some [b0; b1].
Proof.
  intros H0 H1. unfold encode_cp, cont.
  set (c := ((b0 - 192) * 64 + (b1 - 128))%N).
  assert (Hd : (c / 64 = b0 - 192)%N).
  { symmetry. apply (N.div_unique c 64 (b0 - 192) (b1 - 128)); subst c; lia. }
  assert (Hm : (c mod 64 = b1 - 128)%N).
  { symmetry. apply (N.mod_unique c 64 (b0 - 192) (b1 - 128)); subst c; lia. }
  destruct (N.ltb_spec c 128); [subst c; lia|].
  destruct (N.ltb_spec c 2048); [|subst c; lia].
  rewrite Hd, Hm. f_equal. repeat (apply f_equal2; [lia|]). reflexivity.
Qed.

Lemma encode_cp_3 (b0 b1 b2 : N) :
  (0xE0 <= b0 <= 0xEF)%N ->
  ((if (b0 =? 0xE0)%N then 0xA0 else 0x80) <= b1
   <= (if (b0 =? 0xED)%N then 0x9F else 0xBF))%N ->
  (0x80 <= b2 <= 0xBF)%N ->
  encode_cp ((b0 - 0xE0) * 4096 + cont b1 * 64 + cont b2) = Some [b0; b1; b2].
Proof.
  intros H0 H1 H2. unfold encode_cp, cont.
  set (c := ((b0 - 224) * 4096 + (b1 - 128) * 64 + (b2 - 128))%N).
  assert (B1 : (128 <= b1 <= 191)%N).
  { destruct (N.eqb_spec b0 224), (N.eqb_spec b0 237); lia. }
  assert (Hm : (c mod 64 = b2 - 128)%N).
  { symmetry.
    apply (N.mod_unique c 64 ((b0 - 224) * 64 + (b1 - 128)) (b2 - 128));
      subst c; lia. }
  assert (Hd : (c / 64 = (b0 - 224) * 64 + (b1 - 128))%N).
  { symmetry.
    apply (N.div_unique c 64 ((b0 - 224) * 64 + (b1 - 128)) (b2 - 128));
      subst c; lia. }
  assert (Hm2 : ((c / 64) mod 64 = b1 - 128)%N).
  { rewrite Hd. symmetry.
    apply (N.mod_unique _ 64 (b0 - 224) (b1 - 128)); lia. }
  assert (Hd2 : (c / 4096 = b0 - 224)%N).
  { symmetry.
    apply (N.div_unique c 4096 (b0 - 224) ((b1 - 128) * 64 + (b2 - 128)));
      subst c; lia. }
  destruct (N.ltb_spec c 128);
    [subst c; destruct (N.eqb_spec b0 224); lia|].
  destruct (N.ltb_spec c 2048);
    [subst c; destruct (N.eqb_spec b0 224); lia|].
  destruct (N.ltb_spec c 65536); [|subst c; lia].
  assert (S : ((55296 <=? c) && (c <=? 57343) = false)%N).
  { apply andb_false_iff.
    destruct (N.eqb_spec b0 237).
    - left. apply N.leb_gt. subst c. lia.
    - destruct (N.lt_ge_cases b0 237).
      + left. apply N.leb_gt. subst c. lia.
      + right. apply N.leb_gt. subst c. lia. }
  rewrite S, Hd2, Hm2, Hm. f_equal. repeat (apply f_equal2; [lia|]). reflexivity.
Qed.

Lemma encode_cp_4 (b0 b1 b2 b3 : N) :
  (0xF0 <= b0 <= 0xF4)%N ->
  ((if (b0 =? 0xF0)%N then 0x90 else 0x80) <= b1
   <= (if (b0 =? 0xF4)%N then 0x8F else 0xBF))%N ->
  (0x80 <= b2 <= 0xBF)%N -> (0x80 <= b3 <= 0xBF)%N ->
  encode_cp ((b0 - 0xF0) * 262144 + cont b1 * 4096 + cont b2 * 64 + cont b3)
  = Some [b0; b1; b2; b3].
Proof.
  intros H0 H1 H2 H3. unfold encode_cp, cont.
  set (c := ((b0 - 240) * 262144 + (b1 - 128) * 4096 + (b2 - 128) * 64
             + (b3 - 128))%N).
  assert (B1 : (128 <= b1 <= 191)%N).
  { destruct (N.eqb_spec b0 240), (N.eqb_spec b0 244); lia. }
  assert (Hm : (c mod 64 = b3 - 128)%N).
  { symmetry.
    apply (N.mod_unique c 64
             ((b0 - 240) * 4096 + (b1 - 128) * 64 + (b2 - 128)) (b3 - 128));
      subst c; lia. }
  assert (Hd : (c / 64 = (b0 - 240) * 4096 + (b1 - 128) * 64 + (b2 - 128))%N).
  { symmetry.
    apply (N.div_unique c 64
             ((b0 - 240) * 4096 + (b1 - 128) * 64 + (b2 - 128)) (b3 - 128));
      subst c; lia. }
  assert (Hm2 : ((c / 64) mod 64 = b2 - 128)%N).
  { rewrite Hd. symmetry.
    apply (N.mod_unique _ 64 ((b0 - 240) * 64 + (b1 - 128)) (b2 - 128)); lia. }
  assert (Hd2 : (c / 4096 = (b0 - 240) * 64 + (b1 - 128))%N).
  { symmetry.
    apply (N.div_unique c 4096 ((b0 - 240) * 64 + (b1 - 128))
             ((b2 - 128) * 64 + (b3 - 128))); subst c; lia. }
  assert (Hm3 : ((c / 4096) mod 64 = b1 - 128)%N).
  { rewrite Hd2. symmetry.
    apply (N.mod_unique _ 64 (b0 - 240) (b1 - 128)); lia. }
  assert (Hd3 : (c / 262144 = b0 - 240)%N).
  { symmetry.
    apply (N.div_unique c 262144 (b0 - 240)
             ((b1 - 128) * 4096 + (b2 - 128) * 64 + (b3 - 128)));
      subst c; lia. }
  assert (Lo : (65536 <= c)%N).
  { subst c. destruct (N.eqb_spec b0 240); lia. }
  assert (Hi : (c < 1114112)%N).
  { subst c. destruct (N.eqb_spec b0 244); lia. }
  destruct (N.ltb_spec c 128); [lia|].
  destruct (N.ltb_spec c 2048); [lia|].
  destruct (N.ltb_spec c 65536); [lia|].
  destruct (N.ltb_spec c 1114112); [|lia].
  rewrite Hd3, Hm3, Hm2, Hm.
  f_equal. repeat (apply f_equal2; [lia|]). reflexivity.
Qed.

(** Whatever [decode] accepts, [encode] gives back octet for octet. *)
Lemma decode_encode_len (n : nat) :
  forall (b : bytes) (t : str),
    List.length b <= n -> Py.decode b = Some t -> Py.encode t = Some b.
Proof.
  induction n as [|n IH]; intros b t Hn.
  - destruct b; [|cbn in Hn; lia]. intros D. apply some_eq in D. subst t.
    reflexivity.
  - destruct b as [|b0 r0]; [intros D; apply some_eq in D; subst t; reflexivity|].
    rewrite decode_step. cbn [List.length] in Hn.
    destruct (N.ltb_spec b0 128) as [Lt|Ge].
    { destruct (Py.decode r0) as [t'|] eqn:D'; [|discriminate].
      cbn [option_map]. intros D; apply some_eq in D; subst t.
      apply (encode_cons b0 t' [b0] r0).
      - unfold encode_cp. destruct (N.ltb_spec b0 128); [reflexivity|lia].
      - apply IH; [lia|assumption]. }
    destruct (between 0xC2 0xDF b0) eqn:B2.
    { destruct r0 as [|b1 r1]; [discriminate|].
      destruct (between 0x80 0xBF b1) eqn:C1; [|discriminate].
      destruct (Py.decode r1) as [t'|] eqn:D'; [|discriminate].
      cbn [option_map]. intros D; apply some_eq in D; subst t.
      apply between_spec in B2, C1.
      apply (encode_cons _ t' [b0; b1] r1).
      - apply encode_cp_2; assumption.
      - apply IH; [cbn [List.length] in Hn; lia|assumption]. }
    destruct (between 0xE0 0xEF b0) eqn:B3.
    { destruct r0 as [|b1 [|b2 r2]]; try discriminate.
      destruct (_ && _) eqn:C; [|discriminate].
      destruct (Py.decode r2) as [t'|] eqn:D'; [|discriminate].
      cbn [option_map]. intros D; apply some_eq in D; subst t.
      apply andb_true_iff in C as [C1 C2].
      apply between_spec in B3, C1, C2.
      apply (encode_cons _ t' [b0; b1; b2] r2).
      - apply encode_cp_3; assumption.
      - apply IH; [cbn [List.length] in Hn; lia|assumption]. }
    destruct (between 0xF0 0xF4 b0) eqn:B4; [|discriminate].
    destruct r0 as [|b1 [|b2 [|b3 r3]]]; try discriminate.
    destruct (_ && _) eqn:C; [|discriminate].
    destruct (Py.decode r3) as [t'|] eqn:D'; [|discriminate].
    cbn [option_map]. intros D; apply some_eq in D; subst t.
    apply andb_true_iff in C as [C12 C3].
    apply andb_true_iff in C12 as [C1 C2].
    apply between_spec in B4, C1, C2, C3.
    apply (encode_cons _ t' [b0; b1; b2; b3] r3).
    + apply encode_cp_4; assumption.
    + apply IH; [cbn [List.length] in Hn; lia|assumption].
Qed.

Lemma decode_encode (b : bytes) (t : str) :
  Py.decode b = Some t -> Py.encode t = Some b.
Proof. apply (decode_encode_len (List.length b)). lia. Qed.

Lemma between_true (lo hi b : N) :
  (lo <= b <= hi)%N -> between lo hi b = true.
Proof. apply between_spec. Qed.

(** A code point splits into six-bit groups. *)
Lemma six_bits (c : N) :
  exists q1 r1 q2 r2 q3 r3 : N,
    (c = 64 * q1 + r1 /\ r1 < 64 /\ q1 = 64 * q2 + r2 /\ r2 < 64 /\
     q2 = 64 * q3 + r3 /\ r3 < 64 /\
     c / 64 = q1 /\ c mod 64 = r1 /\ (c / 64) mod 64 = r2 /\
     c / 4096 = q2 /\ (c / 4096) mod 64 = r3 /\ c / 262144 = q3)%N.
Proof.
  exists (c / 64)%N, (c mod 64)%N, (c / 64 / 64)%N, ((c / 64) mod 64)%N,
         (c / 64 / 64 / 64)%N, ((c / 64 / 64) mod 64)%N.
  assert (E2 : (c / 4096 = c / 64 / 64)%N)
    by (rewrite N.Div0.div_div; reflexivity).
  assert (E3 : (c / 262144 = c / 64 / 64 / 64)%N)
    by (rewrite !N.Div0.div_div; reflexivity).
  rewrite E2, E3.
  repeat split;
    try apply N.div_mod'; try (apply N.mod_lt; discriminate).
Qed.

(** One character in front: its octets decode to it. *)
Lemma decode_cp (c : N) (bc rest : bytes) (t' : str) :
  encode_cp c = Some bc -> Py.decode rest = Some t' ->
  Py.decode (bc ++ rest) = Some (c :: t').
Proof.
  unfold encode_cp.
  destruct (six_bits c) as
    (q1 & r1 & q2 & r2 & q3 & r3 & Ec & L1 & E1 & L2 & E2 & L3 &
     D1 & M1 & M2 & D2 & M3 & D3).
  rewrite ?M2, ?M3, ?D1, ?M1, ?D2, ?D3.
  destruct (N.ltb_spec c 128) as [Lt|Ge1].
  { intros E D; apply some_eq in E; subst bc. cbn [app].
    rewrite decode_step. destruct (N.ltb_spec c 128); [|lia].
    rewrite D. reflexivity. }
  destruct (N.ltb_spec c 2048) as [Lt|Ge2].
  { intros E D; apply some_eq in E; subst bc. cbn [app].
    rewrite decode_step. destruct (N.ltb_spec (192 + q1) 128); [lia|].
    rewrite (between_true 194 223) by lia.
    rewrite (between_true 128 191) by lia.
    rewrite D. cbn [option_map]. unfold cont. do 2 f_equal. lia. }
  destruct (N.ltb_spec c 65536) as [Lt|Ge3].
  { destruct ((55296 <=? c) && (c <=? 57343))%N eqn:S; [discriminate|].
    apply andb_false_iff in S. rewrite !N.leb_gt in S.
    intros E D; apply some_eq in E; subst bc. cbn [app].
    rewrite decode_step. destruct (N.ltb_spec (224 + q2) 128); [lia|].
    replace (between 194 223 (224 + q2)) with false
      by (symmetry; apply andb_false_iff; right; apply N.leb_gt; lia).
    rewrite (between_true 224 239) by lia.
    rewrite (between_true _ _ (128 + r2)), (between_true 128 191 (128 + r1)).
    - rewrite D. cbn [andb option_map]. unfold cont. do 2 f_equal. lia.
    - lia.
    - destruct (N.eqb_spec (224 + q2) 224), (N.eqb_spec (224 + q2) 237); lia. }
  destruct (N.ltb_spec c 1114112) as [Lt|Ge4]; [|discriminate].
  intros E D; apply some_eq in E; subst bc. cbn [app].
  rewrite decode_step. destruct (N.ltb_spec (240 + q3) 128); [lia|].
  replace (between 194 223 (240 + q3)) with false
    by (symmetry; apply andb_false_iff; right; apply N.leb_gt; lia).
  replace (between 224 239 (240 + q3)) with false
    by (symmetry; apply andb_false_iff; right; apply N.leb_gt; lia).
  rewrite (between_true 240 244) by lia.
  rewrite (between_true _ _ (128 + r3)), (between_true 128 191 (128 + r2)),
    (between_true 128 191 (128 + r1)).
  - rewrite D. cbn [andb option_map]. unfold cont. do 2 f_equal. lia.
  - lia.
  - lia.
  - destruct (N.eqb_spec (240 + q3) 240), (N.eqb_spec (240 + q3) 244); lia.
Qed.

(** Whatever [encode] produces, [decode] reads back. *)
Lemma encode_decode (t : str) :
  forall b : bytes, Py.encode t = Some b -> Py.decode b = Some t.
Proof.
  induction t as [|c t IH]; intros b.
  - intros E; apply some_eq in E; subst b. reflexivity.
  - cbn [Py.encode].
    destruct (encode_cp c) as [bc|] eqn:Ec; [|discriminate].
    destruct (Py.encode t) as [bt|] eqn:Et; [|discriminate].
    intros E; apply some_eq in E; subst b.
    apply decode_cp; [assumption | apply IH; reflexivity].
Qed.

(** X2.  [str.encode()] and [bytes.decode()], as the script uses them
    (strict UTF-8), undo each other: a text encodes to given octets exactly
    when those octets decode to that text.  So the text [send] returns
    encodes back to the stripped line it was read from. *)
Theorem utf8_round_trip (t : str) (b : bytes) :
  Py.encode t = Some b <-> Py.decode b = Some t.
Proof. split; [apply encode_decode | apply decode_encode]. Qed.

(* ===================================================================== *)
(** ** What [send] returns, and when it does not (lines 98-108) *)
(* ===================================================================== *)

Lemma strip_head (b : bytes) (c : N) (r : bytes) :
  strip b = c :: r -> isspace_ascii c = false.
Proof.
  unfold strip. intros E.
  destruct (rstrip_split isspace_ascii (lstrip_with isspace_ascii b))
    as (ws & S & _).
  rewrite E in S. cbn [app] in S.
  eapply lstrip_head. exact S.
Qed.

Lemma strip_last (b : bytes) (c : N) :
  index_last (strip b) = Some c -> isspace_ascii c = false.
Proof. apply rstrip_last. Qed.

Lemma high_not_space (c : N) : (128 <= c)%N -> isspace_ascii c = false.
Proof.
  intros H. unfold isspace_ascii.
  destruct (N.leb_spec c 13); [lia|]. destruct (N.eqb_spec c 32); [lia|].
  rewrite andb_false_r. reflexivity.
Qed.

(** The last character of a decoded text, when below 128, is the last
    octet. *)
Lemma decode_last_low (b : bytes) (t : str) (c : N) :
  Py.decode b = Some t -> index_last t = Some c -> (c < 128)%N ->
  index_last b = Some c.
Proof.
  intros D L Lt. apply decode_encode in D.
  assert (NE : t <> []) by (intros ->; discriminate).
  destruct (exists_last NE) as (pre & c' & ->).
  rewrite index_last_snoc in L. apply some_eq in L. subst c'.
  rewrite encode_app in D.
  destruct (Py.encode pre) as [x|]; [|discriminate].
  cbn [Py.encode] in D. unfold encode_cp in D.
  destruct (N.ltb_spec c 128); [|lia].
  apply some_eq in D. subst b. apply index_last_snoc.
Qed.

(** Text decoded from a stripped line has no ASCII white space at either
    end. *)
Lemma decoded_strip_ends (b : bytes) (t : str) :
  Py.decode (strip b) = Some t ->
  (forall c r, t = c :: r -> isspace_ascii c = false) /\
  (forall c, index_last t = Some c -> isspace_ascii c = false).
Proof.
  intros D. split.
  - intros c r ->.
    destruct (strip b) as [|b0 r0] eqn:S; [discriminate|].
    destruct (decode_cons b0 r0 _ D) as [[Lt (t' & E & _)]|(c' & t' & E & Ge)];
      injection E as -> _.
    + eapply strip_head; eassumption.
    + apply high_not_space; assumption.
  - intros c L. destruct (N.lt_ge_cases c 128) as [Lt|Ge].
    + eapply strip_last, decode_last_low; eassumption.
    + apply high_not_space; assumption.
Qed.

(** The three ways a wait can go: [k] empty reads, and then silence, the
    user's interrupt, or a line. *)
Lemma read_loop_blocks (k : nat) tr n pf :
  while (fun rdata => ret (is_empty rdata)) (fun _ => readline) []
    (mkState (repeat (Line []) k) tr n pf) =
  (Blocked, mkState [] (tr ++ repeat (Read []) k) n pf).
Proof.
  revert tr; induction k as [|k IH]; intros tr;
    rewrite read_loop_unfold; cbn [is_empty repeat]; unfold bind, readline;
    cbn [rx].
  - rewrite app_nil_r. reflexivity.
  - unfold emits, set_rx; cbn [rx trace error_counts port_fault].
    rewrite IH, <- app_assoc. reflexivity.
Qed.

Lemma read_loop_interrupted (k : nat) r tr n pf :
  while (fun rdata => ret (is_empty rdata)) (fun _ => readline) []
    (mkState (repeat (Line []) k ++ CtrlC :: r) tr n pf) =
  (Raise KeyboardInterrupt, mkState r (tr ++ repeat (Read []) k) n pf).
Proof.
  revert tr; induction k as [|k IH]; intros tr;
    rewrite read_loop_unfold; cbn [is_empty repeat app]; unfold bind, readline;
    cbn [rx].
  - rewrite app_nil_r. reflexivity.
  - unfold emits, set_rx; cbn [rx trace error_counts port_fault].
    rewrite IH, <- app_assoc. reflexivity.
Qed.

Lemma read_nonempty_loop (s : state) :
  read_nonempty s =
  while (fun rdata => ret (is_empty rdata)) (fun _ => readline) [] s.
Proof.
  rewrite read_loop_unfold. cbn [is_empty]. reflexivity.
Qed.

(** Every script begins with some empty reads, and then ends, or has the
    interrupt, or a line that is not empty. *)
Lemma rx_shape (r : list rx_item) :
  exists k tail,
    r = repeat (Line []) k ++ tail /\
    (tail = [] \/ (exists r', tail = CtrlC :: r') \/
     (exists b r', tail = Line b :: r' /\ b <> [])).
Proof.
  induction r as [|[b|] r (k & tail & E & H)].
  - exists 0, []. auto.
  - destruct b as [|x b].
    + exists (S k), tail. rewrite E at 1. auto.
    + exists 0, (Line (x :: b) :: r). split; [reflexivity|].
      right; right. exists (x :: b), r. split; [reflexivity|discriminate].
  - exists 0, (CtrlC :: r). split; [reflexivity|]. right; left; eauto.
Qed.

Lemma send_blocks (data : str) (line : bytes) (k : nat) tr n pf :
  Py.encode (rstrip data ++ CRLF) = Some line ->
  send data (mkState (repeat (Line []) k) tr n pf) =
  (Blocked,
   mkState [] (tr ++ [Write line; Sleep 200] ++ repeat (Read []) k) n pf).
Proof.
  intros E. rewrite (send_written data line _ E).
  unfold await_response. unfold bind at 1, sleep, emit, emits; cbn.
  unfold bind at 1. rewrite read_nonempty_loop, read_loop_blocks.
  rewrite <- !app_assoc. reflexivity.
Qed.

Lemma send_interrupted (data : str) (line : bytes) (k : nat) r tr n pf :
  Py.encode (rstrip data ++ CRLF) = Some line ->
  send data (mkState (repeat (Line []) k ++ CtrlC :: r) tr n pf) =
  (Raise KeyboardInterrupt,
   mkState r (tr ++ [Write line; Sleep 200] ++ repeat (Read []) k) n pf).
Proof.
  intros E. rewrite (send_written data line _ E).
  unfold await_response. unfold bind at 1, sleep, emit, emits; cbn.
  unfold bind at 1. rewrite read_nonempty_loop, read_loop_interrupted.
  rewrite <- !app_assoc. reflexivity.
Qed.

Lemma send_undecodable (data : str) (line : bytes) (k : nat) (b : bytes)
  r tr n pf :
  Py.encode (rstrip data ++ CRLF) = Some line ->
  b <> [] -> Py.decode (strip b) = None ->
  send data (mkState (repeat (Line []) k ++ Line b :: r) tr n pf) =
  (Raise UnicodeDecodeError,
   mkState r (tr ++ [Write line; Sleep 200] ++ repeat (Read []) k ++ [Read b])
           n pf).
Proof.
  intros E Hb D. rewrite (send_written data line _ E).
  unfold await_response. unfold bind at 1, sleep, emit, emits; cbn.
  unfold bind at 1. rewrite read_nonempty_loop, read_loop_hears by assumption.
  unfold bytes_decode. rewrite D. unfold bind, raise.
  rewrite <- !app_assoc. reflexivity.
Qed.

(** X3.  [send] has no timeout of its own and never repeats its command:
    while the reads come back empty it goes on reading.  After any number
    [k] of empty reads it has written its line once, paused 0.2 s once, and
    is still waiting if the modem stays silent; if the user's interrupt
    comes instead, it is raised out of [send], nothing having been read
    past it. *)
Theorem send_waits_without_resending
  (data : str) (line : bytes) (k : nat) (tr : list event) (n : Z)
  (pf : option exn) :
  Py.encode (rstrip data ++ CRLF) = Some line ->
  send data (mkState (repeat (Line []) k) tr n pf) =
    (Blocked,
     mkState [] (tr ++ [Write line; Sleep 200] ++ repeat (Read []) k) n pf) /\
  (forall rest,
     send data (mkState (repeat (Line []) k ++ CtrlC :: rest) tr n pf) =
     (Raise KeyboardInterrupt,
      mkState rest (tr ++ [Write line; Sleep 200] ++ repeat (Read []) k) n pf)).
Proof.
  intros E. split; [apply send_blocks | intros; apply send_interrupted];
    assumption.
Qed.

Lemma send_waits_without_resending_witness :
  send (lit "mac save") (mkState (repeat (Line []) 40) [] 0 None) =
    (Blocked,
     mkState [] ([] ++ [Write (wire "mac save"); Sleep 200]
                 ++ repeat (Read []) 40) 0 None) /\
  (forall rest,
     send (lit "mac save")
          (mkState (repeat (Line []) 40 ++ CtrlC :: rest) [] 0 None) =
     (Raise KeyboardInterrupt,
      mkState rest ([] ++ [Write (wire "mac save"); Sleep 200]
                    ++ repeat (Read []) 40) 0 None)).
Proof.
  apply (send_waits_without_resending (lit "mac save") (wire "mac save") 40
           [] 0%Z None).
  reflexivity.
Defined.

(** Every way [send] can return. *)
Lemma send_returns (data : str) (s s' : state) (t : str) :
  send data s = (Ret t, s') ->
  exists line k b,
    Py.encode (rstrip data ++ CRLF) = Some line /\
    b <> [] /\ Py.decode (strip b) = Some t /\
    rx s = repeat (Line []) k ++ Line b :: rx s' /\
    s' = mkState (rx s') (trace s ++ exchange line (mkReply k b t))
                 (error_counts s) (port_fault s).
Proof.
  destruct (Py.encode (rstrip data ++ CRLF)) as [line|] eqn:E;
    [|rewrite (send_unframed data s E); discriminate].
  destruct s as [r tr n pf].
  destruct (rx_shape r) as (k & tail & -> & [->|[[r' ->]|(b & r' & -> & Hb)]]).
  - rewrite app_nil_r, (send_blocks data line k tr n pf E). discriminate.
  - rewrite (send_interrupted data line k r' tr n pf E). discriminate.
  - destruct (Py.decode (strip b)) as [t'|] eqn:D.
    + pose proof (send_hears data line (mkReply k b t') r' tr n pf E
                    (conj Hb D)) as X.
      unfold heard in X. cbn [quiet raw text] in X.
      rewrite <- app_assoc in X. cbn [app] in X. rewrite X.
      intros H; inversion H; subst. exists line, k, b. cbn.
      repeat split; auto.
    + rewrite (send_undecodable data line k b r' tr n pf E Hb D).
      discriminate.
Qed.

(** X4.  Whenever [send] returns, what it returns is the first line read
    that was not empty, stripped and decoded: the text has ASCII white
    space at neither end (no CR or LF is left on it), it encodes back to
    the stripped octets, the empty reads before the line were skipped, and
    the DEBUG record of the response is the last thing [send] did.  The
    text itself may be empty: a line of white space only ends the wait. *)
Theorem send_returns_stripped_text (data : str) (s s' : state) (t : str) :
  send data s = (Ret t, s') ->
  (forall c r, t = c :: r -> isspace_ascii c = false) /\
  (forall c, index_last t = Some c -> isspace_ascii c = false) /\
  exists line k b,
    b <> [] /\ Py.decode (strip b) = Some t /\ Py.encode t = Some (strip b) /\
    rx s = repeat (Line []) k ++ Line b :: rx s' /\
    trace s' = trace s ++ [Write line; Sleep 200] ++ repeat (Read []) k ++
               [Read b; Log DEBUG "Decoded response : %s" [t]].
Proof.
  intros H. destruct (send_returns data s s' t H)
    as (line & k & b & E & Hb & D & R & ->).
  destruct (decoded_strip_ends b t D) as [Hh Hl].
  split; [exact Hh|]. split; [exact Hl|].
  exists line, k, b. cbn [rx trace] in *.
  repeat split; auto.
  - apply decode_encode; assumption.
  - unfold exchange, reads_of. cbn [quiet raw text].
    rewrite <- !app_assoc. reflexivity.
Qed.

Lemma send_returns_stripped_text_witness :
  (forall c r, @nil N = c :: r -> isspace_ascii c = false) /\
  (forall c, index_last (@nil N) = Some c -> isspace_ascii c = false) /\
  exists line k b,
    b <> [] /\ Py.decode (strip b) = Some [] /\ Py.encode [] = Some (strip b) /\
    [Line []; Line [32; 13; 10]%N] = repeat (Line []) k ++ [Line b] /\
    [Write (wire "mac save"); Sleep 200; Read []; Read [32; 13; 10]%N;
     Log DEBUG "Decoded response : %s" [[]]] =
    [] ++ [Write line; Sleep 200] ++ repeat (Read []) k ++
    [Read b; Log DEBUG "Decoded response : %s" [[]]].
Proof.
  apply (send_returns_stripped_text (lit "mac save")
           (boot [Line []; Line [32; 13; 10]%N] None)
           (mkState [] [Write (wire "mac save"); Sleep 200; Read [];
                        Read [32; 13; 10]%N;
                        Log DEBUG "Decoded response : %s" [[]]] 0 None) []).
  reflexivity.
Defined.

(* ===================================================================== *)
(** ** Commands that cannot be encoded (line 96) *)
(* ===================================================================== *)

Lemma encode_cp_none (c : N) : encode_cp c = None <-> unencodable c.
Proof.
  unfold encode_cp, unencodable.
  destruct (N.ltb_spec c 128); [split; [discriminate|lia]|].
  destruct (N.ltb_spec c 2048); [split; [discriminate|lia]|].
  destruct (N.ltb_spec c 65536).
  { destruct (N.leb_spec 55296 c), (N.leb_spec c 57343); cbn [andb];
      split; try discriminate; try lia; auto. }
  destruct (N.ltb_spec c 1114112); split; try discriminate; try lia; auto.
Qed.

Lemma encode_none (t : str) :
  Py.encode t = None <-> exists c, In c t /\ unencodable c.
Proof.
  induction t as [|c t IH]; cbn [Py.encode].
  - split; [discriminate|]. intros (c & [] & _).
  - destruct (encode_cp c) as [bc|] eqn:Ec.
    + destruct (Py.encode t) as [bt|].
      * split; [discriminate|]. intros (d & [<-|Hd] & U).
        -- apply encode_cp_none in U. congruence.
        -- assert (X : Some bt = None) by (apply IH; eauto).
           discriminate.
      * split; [|reflexivity]. intros _.
        destruct (proj1 IH eq_refl) as (d & Hd & U).
        exists d. split; [right; assumption|assumption].
    + split; [|reflexivity]. intros _. exists c.
      split; [left; reflexivity | apply encode_cp_none; assumption].
Qed.

Lemma frame_none (data : str) :
  Py.encode (rstrip data ++ CRLF) = None <-> Py.encode (rstrip data) = None.
Proof.
  rewrite encode_app. destruct (Py.encode (rstrip data)); cbn.
  - split; discriminate.
  - tauto.
Qed.

(** X5.  [send] raises [UnicodeEncodeError] exactly when the command,
    its trailing white space removed, holds a code point UTF-8 has no form
    for (a surrogate, or a value past U+10FFFF); and it raises it before
    anything is written: the state, trace included, is left as it was. *)
Theorem send_raises_before_writing (data : str) (s : state) :
  (exists c, In c (rstrip data) /\ unencodable c) <->
  send data s = (Raise UnicodeEncodeError, s).
Proof.
  rewrite <- encode_none, <- frame_none. split.
  - apply send_unframed.
  - intros H.
    destruct (Py.encode (rstrip data ++ CRLF)) as [line|] eqn:E;
      [|reflexivity].
    exfalso. destruct (send_trace data line s E) as (evs & T & _).
    rewrite H in T. cbn [snd] in T.
    apply (f_equal (@List.length event)) in T.
    rewrite length_app in T. cbn [List.length] in T. lia.
Qed.

(* ===================================================================== *)
(** ** When the port cannot be opened (lines 72-84, 219-223) *)
(* ===================================================================== *)

(** X6.  The two handlers of a failed opening (lines 82 and 221) catch
    [ValueError], its subclasses [UnicodeEncodeError] and
    [UnicodeDecodeError], and [SerialException], and nothing else.  When
    [sp.open()] raises one of these, nothing but two log records happens:
    CRITICAL from [setup_serial], then ERROR from [main], its first
    argument the class of the exception, and [main] returns 1; nothing is
    written to the port, nothing is read from it, and [sp.close()] is not
    called.  Any other exception raised by [sp.open()] goes through both
    handlers: it escapes [main], and nothing is logged. *)
Theorem main_without_port (script_rx : list rx_item) (e : exn) :
  (port_error e = true <->
   e = ValueError \/ e = UnicodeEncodeError \/ e = UnicodeDecodeError \/
   e = SerialException) /\
  (port_error e = true ->
   exists message,
     main (boot script_rx (Some e)) =
     (Ret (Some 1%Z),
      mkState script_rx
        [Log CRITICAL "Could not open the serial connection." [];
         Log ERROR "Failed to create the serial connection, %s:%s"
             [class_text e; message]]
        0 (Some e))) /\
  (port_error e = false ->
   main (boot script_rx (Some e)) = (Raise e, boot script_rx (Some e))).
Proof.
  split; [|split].
  - split.
    + destruct e; intros H; try discriminate H; auto.
    + intros [->|[->|[->| ->]]]; reflexivity.
  - intros H. destruct e; try discriminate H; eexists; reflexivity.
  - intros H. destruct e; try discriminate H; reflexivity.
Qed.

(* ===================================================================== *)
(** ** The spreading factor is taken as it comes (line 137) *)
(* ===================================================================== *)

Lemma data_rate_mirror (sf : Z) : data_rate_of (24 - sf) = data_rate_of sf.
Proof. unfold data_rate_of. lia. Qed.

(** A run of [lora_setup] that returns has written the twelve
    provisioning commands first. *)
Lemma lora_setup_written (sf : Z) (s : state) (joined : bool) :
  fst (lora_setup sf s) = Ret joined ->
  exists more,
    writes (trace (snd (lora_setup sf s))) =
    writes (trace s) ++ provisioning sf ++ more.
Proof.
  unfold lora_setup, bind.
  destruct (provision_issues sf s) as (w1 & T1 & _ & C1).
  destruct (provision sf s) as [[[]| | |] s1]; cbn [fst snd] in *;
    try discriminate.
  rewrite (C1 tt eq_refl) in T1.
  rewrite join_attempts_eq. unfold while.
  destruct (join_loop_writes (S (List.length (rx s1))) false s1)
    as (n & Tn & _).
  destruct (while_ _ _ join_turn false s1) as [[j| | |] s2];
    cbn [fst snd] in *; try discriminate.
  destruct (await_accept_silent s2) as (new & Ta & Fa & _).
  intros _. exists (repeat join_command n).
  rewrite Ta, writes_app, (writes_not_write new Fa), app_nil_r.
  rewrite Tn, T1, <- app_assoc. reflexivity.
Qed.

(** X7.  [lora_setup] does not check its spreading factor: the fifth
    line it writes is "mac set dr" followed by |sf - 12| in decimal,
    whatever [sf] is, so a spreading factor [24 - sf] makes it behave in
    every respect as [sf] does (13 as 11, 17 as 7), and one below 7 or
    above 17 asks for a data rate above 5. *)
Theorem spreading_factor_is_not_validated (sf : Z) (s : state) :
  lora_setup (24 - sf) s = lora_setup sf s /\
  (forall joined, fst (lora_setup sf s) = Ret joined ->
   exists ws,
     writes (trace (snd (lora_setup sf s))) = writes (trace s) ++ ws /\
     nth_error ws 4 =
       Some (lit "mac set dr " ++ str_of_int (Z.abs (sf - 12)) ++ [13; 10]%N)) /\
  ((sf < 7 \/ 17 < sf)%Z -> (5 < data_rate_of sf)%Z).
Proof.
  split; [|split].
  - unfold lora_setup, provision. rewrite data_rate_mirror. reflexivity.
  - intros joined R.
    destruct (lora_setup_written sf s joined R) as (more & T).
    eexists. split; [exact T|]. reflexivity.
  - unfold data_rate_of. lia.
Qed.

(* ===================================================================== *)
(** ** What [lora_setup] never does (lines 110-205) *)
(* ===================================================================== *)

Lemma observes_open P : P Open = true -> observes P open.
Proof.
  intros Po s. unfold open. destruct (port_fault s) eqn:F.
  - exists []. cbn. rewrite app_nil_r. auto.
  - exists [Open]. cbn. rewrite Po. auto.
Qed.

Lemma send_observes (P : event -> bool) :
  P (Sleep 200) = true -> (forall b, P (Write b) = true) ->
  (forall b, P (Read b) = true) ->
  (forall t, P (Log DEBUG "Decoded response : %s" [t]) = true) ->
  forall data, observes P (send data).
Proof.
  intros Ps Pw Pr Pl data. unfold send, frame.
  apply observes_bind; [apply observes_str_encode|intro].
  apply observes_bind; [apply observes_emit, Pw|intro].
  apply (await_response_observes P Ps Pr Pl).
Qed.

Lemma lora_setup_observes (P : event -> bool) :
  P (Sleep 200) = true -> P (Sleep 2000) = true ->
  (forall b, P (Write b) = true) -> (forall b, P (Read b) = true) ->
  (forall fmt args, P (Log INFO fmt args) = true) ->
  (forall fmt args, P (Log DEBUG fmt args) = true) ->
  forall sf, observes P (lora_setup sf).
Proof.
  intros Ps Pj Pw Pr Pi Pd sf.
  pose proof (send_observes P Ps Pw Pr (fun t => Pd _ _)) as Hs.
  pose proof (observes_read_nonempty P Pr) as Hr.
  assert (Hi : forall fmt args, observes P (emit (Log INFO fmt args)))
    by (intros; apply observes_emit, Pi).
  assert (Hj : observes P (emit (Sleep 2000))) by apply observes_emit, Pj.
  unfold lora_setup, provision, join_attempts, await_accept.
  unfold sleep, log.
  repeat lazymatch goal with
         | |- observes _ (bind _ _) => apply observes_bind; [|intro]
         | |- observes _ (while _ _ _) => apply observes_while; intro
         | |- observes _ (for_each _ _) => apply observes_for_each; intro
         | |- observes _ (ret _) => apply observes_ret
         | |- observes _ (bytes_decode _) => apply observes_bytes_decode
         | |- observes _ (if ?b then _ else _) => destruct b
         | |- observes _ (let _ := _ in _) => cbv zeta
         | |- observes _ (join_turn _) => unfold join_turn, sleep, log
         | |- observes _ (send _) => apply Hs
         | |- observes _ read_nonempty => apply Hr
         | |- observes _ (emit (Log INFO _ _)) => apply Hi
         | |- observes _ (emit (Sleep 2000)) => apply Hj
         end.
Qed.

(** X8.  In every run of [lora_setup], however it ends, the function only
    writes, reads, pauses (0.2 s or 2 s) and logs at the levels INFO and
    DEBUG: it never opens or closes the port, never logs an error, never
    pauses for any other time, and leaves [error_counts] as it found it. *)
Theorem lora_setup_keeps_to_the_modem (sf : Z) (s : state) :
  exists new,
    trace (snd (lora_setup sf s)) = trace s ++ new /\
    forallb setup_event new = true /\
    error_counts (snd (lora_setup sf s)) = error_counts s /\
    port_fault (snd (lora_setup sf s)) = port_fault s.
Proof.
  apply (lora_setup_observes setup_event); reflexivity.
Qed.

(* ===================================================================== *)
(** ** The payload is never empty (lines 269-276) *)
(* ===================================================================== *)

(** X9.  The payload logged for a downlink is never empty and holds no
    space: the follow-up line is stripped before it is decoded, so a text
    that holds "mac_rx" does not end with a space, and its last
    space-separated field has at least one character.  [split(" ")[-1]]
    never raises [IndexError]. *)
Theorem downlink_payload_is_never_empty (b : bytes) (t : str) :
  Py.decode (strip b) = Some t -> contains mac_rx t = true ->
  exists payload,
    payload_of t = Some payload /\
    payload <> [] /\ ~ In space payload /\
    line_events t =
      [Log INFO "Got response %s" [t];
       Log INFO "Got a max_rx (downlink, processing)" [];
       Log DEBUG "Payload : %s" [payload]].
Proof.
  intros D C.
  destruct (decoded_strip_ends b t D) as [_ Hl].
  destruct (split_last space t) as (f & L & NI & Sh).
  exists f. unfold line_events, payload_of. rewrite C, L.
  repeat split; auto.
  intros ->. destruct Sh as [->|[pre ->]].
  - discriminate.
  - specialize (Hl space (index_last_snoc pre space)). discriminate.
Qed.

Lemma downlink_payload_is_never_empty_witness :
  exists payload,
    payload_of (lit "mac_rx 1 a1b2c3") = Some payload /\
    payload <> [] /\ ~ In space payload /\
    line_events (lit "mac_rx 1 a1b2c3") =
      [Log INFO "Got response %s" [lit "mac_rx 1 a1b2c3"];
       Log INFO "Got a max_rx (downlink, processing)" [];
       Log DEBUG "Payload : %s" [payload]].
Proof.
  apply (downlink_payload_is_never_empty
           (lit "mac_rx 1 a1b2c3" ++ [32; 13; 10]%N) (lit "mac_rx 1 a1b2c3"));
    reflexivity.
Defined.

(* ===================================================================== *)
(** ** One command at a time (lines 96-103, and every caller of [send]) *)
(* ===================================================================== *)

Lemma walk_app (p : phase) (a b : list event) :
  walk p (a ++ b) =
  match walk p a with Some q => walk q b | None => None end.
Proof.
  revert p; induction a as [|e a IH]; intros p; cbn [app walk];
    [reflexivity|]. destruct (turn p e); [apply IH|reflexivity].
Qed.

Lemma walk_idle (t : list event) :
  forallb not_write t = true -> walk Idle t = Some Idle.
Proof.
  induction t as [|e t IH]; [reflexivity|]. cbn [forallb walk].
  intros F; apply andb_true_iff in F as [Fe F].
  destruct e; try discriminate; cbn; auto.
Qed.

Lemma walk_aside (p : phase) (t : list event) :
  p <> Written -> forallb aside t = true -> walk p t = Some p.
Proof.
  intros Hp. induction t as [|e t IH]; [reflexivity|]. cbn [forallb walk].
  intros F; apply andb_true_iff in F as [Fe F].
  destruct p; [| congruence |]; destruct e; try discriminate; cbn; auto.
Qed.

Lemma walk_empty_reads (k : nat) :
  walk Awaiting (repeat (Read []) k) = Some Awaiting.
Proof. induction k; cbn; auto. Qed.

Lemma dialogue_observes {A} (m : M A) : observes not_write m -> dialogue m.
Proof.
  intros H s. destruct (H s) as (new & T & F & _).
  exists new. split; [assumption|]. rewrite (walk_idle new F).
  destruct (fst (m s)); unfold resting; auto.
Qed.

Lemma dialogue_silent {A} (m : M A) :
  (forall s, trace (snd (m s)) = trace s) -> dialogue m.
Proof.
  intros H s. exists []. rewrite app_nil_r. split; [apply H|].
  destruct (fst (m s)); unfold resting; cbn; auto.
Qed.

Lemma dialogue_bind {A B} (m : M A) (k : A -> M B) :
  dialogue m -> (forall a, dialogue (k a)) -> dialogue (bind m k).
Proof.
  intros Hm Hk s. unfold bind.
  destruct (Hm s) as (n1 & T1 & W1).
  destruct (m s) as [[a| | |] s1]; cbn [fst snd] in *;
    try (exists n1; split; assumption).
  destruct (Hk a s1) as (n2 & T2 & W2).
  exists (n1 ++ n2). rewrite T2, T1, app_assoc, walk_app, W1.
  split; [reflexivity|assumption].
Qed.

Lemma dialogue_while_ {X} (cond : X -> M bool) (body : X -> M X) :
  (forall x, dialogue (cond x)) -> (forall x, dialogue (body x)) ->
  forall fuel x, dialogue (while_ fuel cond body x).
Proof.
  intros Hc Hb fuel; induction fuel as [|fuel IH]; intros x; cbn [while_];
    (apply dialogue_bind; [apply Hc|]); intros [|].
  - intros s; exists []. rewrite app_nil_r. cbn. unfold resting; auto.
  - apply dialogue_silent; reflexivity.
  - apply dialogue_bind; [apply Hb | apply IH].
  - apply dialogue_silent; reflexivity.
Qed.

Lemma dialogue_while {X} (cond : X -> M bool) (body : X -> M X) (x : X) :
  (forall x, dialogue (cond x)) -> (forall x, dialogue (body x)) ->
  dialogue (while cond body x).
Proof. intros Hc Hb s. unfold while. apply dialogue_while_; assumption. Qed.

Lemma dialogue_for_each {X} (l : list X) (body : X -> M unit) :
  (forall x, dialogue (body x)) -> dialogue (for_each l body).
Proof.
  intros Hb; induction l; cbn [for_each];
    [apply dialogue_silent; reflexivity | apply dialogue_bind; auto].
Qed.

(** [send] is one exchange: the command, the pause, the reads up to the
    answer. *)
Lemma dialogue_send (data : str) : dialogue (send data).
Proof.
  intros s.
  destruct (Py.encode (rstrip data ++ CRLF)) as [line|] eqn:E.
  2:{ rewrite (send_unframed data s E). exists []. rewrite app_nil_r.
      cbn. unfold resting; auto. }
  destruct s as [r tr n pf].
  destruct (rx_shape r) as (k & tail & -> & [->|[[r' ->]|(b & r' & -> & Hb)]]).
  - rewrite app_nil_r, (send_blocks data line k tr n pf E).
    eexists; split; [reflexivity|]. cbn [fst app walk turn N.eqb Pos.eqb].
    rewrite walk_empty_reads. right; reflexivity.
  - rewrite (send_interrupted data line k r' tr n pf E).
    eexists; split; [reflexivity|]. cbn [fst app walk turn N.eqb Pos.eqb].
    rewrite walk_empty_reads. right; reflexivity.
  - assert (W : forall more,
               walk Idle ([Write line; Sleep 200] ++ repeat (Read []) k ++
                          Read b :: more) = walk Idle more).
    { intros more. cbn [app walk turn N.eqb Pos.eqb].
      rewrite walk_app, walk_empty_reads. cbn [walk turn].
      destruct b; [congruence|reflexivity]. }
    destruct (Py.decode (strip b)) as [t|] eqn:D.
    + pose proof (send_hears data line (mkReply k b t) r' tr n pf E
                    (conj Hb D)) as X.
      unfold heard, exchange, reads_of in X. cbn [quiet raw text] in X.
      rewrite <- !app_assoc in X. cbn [app] in X. rewrite X.
      eexists; split; [reflexivity|]. cbn [fst].
      change (Write line :: Sleep 200 :: repeat (Read []) k ++
              Read b :: [Log DEBUG "Decoded response : %s" [t]])
        with ([Write line; Sleep 200] ++ repeat (Read []) k ++
              Read b :: [Log DEBUG "Decoded response : %s" [t]]).
      rewrite W. reflexivity.
    + rewrite (send_undecodable data line k b r' tr n pf E Hb D).
      eexists; split; [reflexivity|]. cbn [fst].
      change (repeat (Read []) k ++ [Read b])
        with (repeat (Read []) k ++ Read b :: []).
      rewrite W. left; reflexivity.
Qed.

Ltac talk_step :=
  lazymatch goal with
  | |- dialogue (bind _ _) => apply dialogue_bind; [|intro]
  | |- dialogue (while _ _ _) => apply dialogue_while; intro
  | |- dialogue (for_each _ _) => apply dialogue_for_each; intro
  | |- dialogue (send _) => apply dialogue_send
  | |- dialogue (if ?b then _ else _) => destruct b
  | |- dialogue (match ?o with Some _ => _ | None => _ end) => destruct o
  | |- dialogue (let _ := _ in _) => cbv zeta
  | |- dialogue (join_turn _) => unfold join_turn
  | |- dialogue (transmit_test _) =>
      apply dialogue_silent; reflexivity
  | |- dialogue incr_error_counts => apply dialogue_silent; reflexivity
  | |- dialogue (put_error_counts _) => apply dialogue_silent; reflexivity
  | |- dialogue _ => apply dialogue_observes; solve [obs_solve]
  end.

Lemma poll_not_write : observes not_write poll_follow_up.
Proof. unfold poll_follow_up. obs_solve. Qed.

Lemma dialogue_lora_setup (sf : Z) : dialogue (lora_setup sf).
Proof.
  unfold lora_setup, provision, join_attempts.
  pose proof await_accept_silent.
  repeat talk_step.
Qed.

Lemma dialogue_uplink (command : str) : dialogue (uplink command).
Proof.
  unfold uplink. pose proof poll_not_write. repeat talk_step.
Qed.

Lemma dialogue_main_loop (command : str) : dialogue (main_loop command).
Proof.
  unfold main_loop, enter_session, connect, transmit_loop.
  pose proof dialogue_lora_setup. pose proof dialogue_uplink.
  repeat lazymatch goal with
         | |- dialogue (lora_setup _) => apply dialogue_lora_setup
         | |- dialogue (uplink _) => apply dialogue_uplink
         | |- _ => talk_step
         end.
Qed.

Lemma rests_try {A} (m : M A) handled (h : exn -> M A) :
  dialogue m -> (forall e, observes aside (h e)) ->
  rests (try_except m handled h).
Proof.
  intros Hm Hh s. unfold try_except.
  destruct (Hm s) as (n1 & T1 & W1).
  destruct (m s) as [[a|e| |] s1]; cbn [fst snd] in *;
    try (exists n1; split; [assumption|]; unfold resting; auto; fail).
  destruct (handled e); [|exists n1; split; assumption].
  destruct (Hh e s1) as (n2 & T2 & F2 & _).
  exists (n1 ++ n2). rewrite T2, T1, app_assoc, walk_app.
  split; [reflexivity|].
  destruct W1 as [-> | ->]; rewrite (walk_aside _ n2) by (congruence || assumption);
    unfold resting; auto.
Qed.

Lemma rests_bind {A B} (m : M A) (k : A -> M B) :
  dialogue m -> (forall a, rests (k a)) -> rests (bind m k).
Proof.
  intros Hm Hk s. unfold bind.
  destruct (Hm s) as (n1 & T1 & W1).
  destruct (m s) as [[a| | |] s1]; cbn [fst snd] in *;
    try (exists n1; split; assumption).
  destruct (Hk a s1) as (n2 & T2 & W2).
  exists (n1 ++ n2). rewrite T2, T1, app_assoc, walk_app, W1.
  split; [reflexivity|assumption].
Qed.

Lemma rests_main : rests main.
Proof.
  unfold main. apply rests_bind.
  - apply dialogue_observes. unfold setup_serial.
    pose proof (observes_open not_write eq_refl). obs_solve.
  - intros opened. destruct (negb opened).
    + intros s. exists []. rewrite app_nil_r. cbn. unfold resting; auto.
    + apply rests_bind; [apply dialogue_silent; intros s; unfold str_encode;
                         destruct (Py.encode MESSAGE); reflexivity|].
      intros encoded. cbv zeta. apply rests_try.
      * apply dialogue_bind; [apply dialogue_main_loop|].
        intro. apply dialogue_silent; reflexivity.
      * intro. obs_solve.
Qed.

(** X10.  The program talks to the modem one command at a time.  In every
    run of the whole script, whatever the modem does and whether or not the
    port opens, a command is only written when no answer is outstanding; it
    is followed at once by the pause of 0.2 s; and from then on, until a
    line that is not empty has been read, the program does nothing but read
    (or, interrupted by the user, log and close the port). *)
Theorem script_is_half_duplex (script_rx : list rx_item) (fault : option exn) :
  walk Idle (trace (snd (script (boot script_rx fault)))) = Some Idle \/
  walk Idle (trace (snd (script (boot script_rx fault)))) = Some Awaiting.
Proof.
  assert (E : trace (snd (script (boot script_rx fault))) =
              trace (snd (main (emits [Log INFO "Starting program RN2483" []]
                                      (boot script_rx fault))))).
  { unfold script, bind, log, emit. cbn [fst snd].
    destruct (main _) as [[a| | |] s']; reflexivity. }
  rewrite E.
  destruct (rests_main (emits [Log INFO "Starting program RN2483" []]
                              (boot script_rx fault))) as (new & T & W).
  rewrite T. cbn [emits trace boot app]. cbn [walk turn]. exact W.
Qed.

(* ===================================================================== *)
(** ** How [main] can end (lines 214-280) *)
(* ===================================================================== *)

Section Stops.

Variable E : exn -> bool.

Lemma stops_ret {A} (a : A) : stops E (ret a).
Proof. intros s; exact I. Qed.

Lemma stops_emit (e : event) : stops E (emit e).
Proof. intros s; exact I. Qed.

Lemma stops_get : stops E get_error_counts.
Proof. intros s; exact I. Qed.

Lemma stops_put n : stops E (put_error_counts n).
Proof. intros s; exact I. Qed.

Lemma stops_readline : E KeyboardInterrupt = true -> stops E readline.
Proof.
  intros Hk s. unfold readline.
  destruct (rx s) as [|[b|] r] eqn:R; cbn; auto.
Qed.

Lemma stops_decode b : E UnicodeDecodeError = true -> stops E (bytes_decode b).
Proof.
  intros Hd s. unfold bytes_decode. destruct (Py.decode b); cbn; auto.
Qed.

Lemma stops_encode (t : str) (b : bytes) :
  Py.encode t = Some b -> stops E (str_encode t).
Proof. intros Ht s. unfold str_encode. rewrite Ht. exact I. Qed.

Lemma stops_bind {A B} (m : M A) (k : A -> M B) :
  stops E m -> (forall a, stops E (k a)) -> stops E (bind m k).
Proof.
  intros Hm Hk s. unfold bind. specialize (Hm s).
  destruct (m s) as [[a| | |] s1]; cbn [fst snd] in *; auto.
  apply Hk.
Qed.

Lemma stops_while_ {X} (cond : X -> M bool) (body : X -> M X) :
  (forall x, stops E (cond x)) -> (forall x, stops E (body x)) ->
  forall fuel x, stops E (while_ fuel cond body x).
Proof.
  intros Hc Hb fuel; induction fuel as [|fuel IH]; intros x; cbn [while_];
    (apply stops_bind; [apply Hc|]); intros [|]; try apply stops_ret.
  - intros s; exact I.
  - apply stops_bind; [apply Hb | apply IH].
Qed.

Lemma stops_while {X} (cond : X -> M bool) (body : X -> M X) (x : X) :
  (forall x, stops E (cond x)) -> (forall x, stops E (body x)) ->
  stops E (while cond body x).
Proof. intros Hc Hb s. unfold while. apply stops_while_; assumption. Qed.

Hypothesis interrupt : E KeyboardInterrupt = true.
Hypothesis garbled : E UnicodeDecodeError = true.

Lemma stops_read_nonempty : stops E read_nonempty.
Proof.
  unfold read_nonempty.
  apply stops_bind; [apply stops_readline, interrupt|intro].
  apply stops_while; intro; [apply stops_ret|apply stops_readline, interrupt].
Qed.

Lemma stops_send (data : str) (line : bytes) :
  Py.encode (rstrip data ++ CRLF) = Some line -> stops E (send data).
Proof.
  intros Hl. unfold send, frame.
  apply stops_bind; [eapply stops_encode; eassumption|intro].
  apply stops_bind; [apply stops_emit|intro].
  apply stops_bind; [apply stops_emit|intro].
  apply stops_bind; [apply stops_read_nonempty|intro].
  apply stops_bind; [apply stops_decode, garbled|intro].
  apply stops_bind; [apply stops_emit|intro]. apply stops_ret.
Qed.

End Stops.

Ltac stop_step sf :=
  lazymatch goal with
  | |- stops _ (bind _ _) => apply stops_bind; [|intro]
  | |- stops _ (while _ _ _) => apply stops_while; intro
  | |- stops _ (send _) =>
      eapply stops_send;
      [ reflexivity | reflexivity
      | first [ eassumption | apply (dr_frame sf) | vm_compute; reflexivity ] ]
  | |- stops _ read_nonempty => apply stops_read_nonempty; reflexivity
  | |- stops _ readline => apply stops_readline; reflexivity
  | |- stops _ (bytes_decode _) => apply stops_decode; reflexivity
  | |- stops _ (ret _) => apply stops_ret
  | |- stops _ (log _ _ _) => apply stops_emit
  | |- stops _ (sleep _) => apply stops_emit
  | |- stops _ get_error_counts => apply stops_get
  | |- stops _ (put_error_counts _) => apply stops_put
  | |- stops _ (if ?b then _ else _) => destruct b
  | |- stops _ (let _ := _ in _) => cbv zeta
  | |- stops _ (join_turn _) => unfold join_turn
  | |- stops _ (poll_test _) => unfold poll_test
  | |- stops _ (poll_turn _) => unfold poll_turn
  | |- stops _ (transmit_test _) => unfold transmit_test
  | |- stops _ incr_error_counts => unfold incr_error_counts
  end.

Lemma stops_lora_setup (sf : Z) : stops loop_exn (lora_setup sf).
Proof.
  unfold lora_setup, provision, join_attempts, await_accept.
  cbv zeta. simpl for_each. repeat stop_step sf.
Qed.

Lemma stops_uplink (command : str) (line : bytes) :
  Py.encode (rstrip command ++ CRLF) = Some line ->
  stops loop_exn (uplink command).
Proof.
  intros Hl. unfold uplink, poll_follow_up. cbv zeta.
  repeat lazymatch goal with
         | |- stops _ (match payload_of ?t with _ => _ end) =>
             destruct (payload_of_some t) as [payload ->]
         | |- _ => stop_step 0%Z
         end.
Qed.

Lemma stops_main_loop (command : str) (line : bytes) :
  Py.encode (rstrip command ++ CRLF) = Some line ->
  stops loop_exn (main_loop command).
Proof.
  intros Hl. unfold main_loop, enter_session, connect, transmit_loop.
  repeat lazymatch goal with
         | |- stops _ (lora_setup _) => apply stops_lora_setup
         | |- stops _ (uplink _) => eapply stops_uplink; eassumption
         | |- _ => stop_step 0%Z
         end.
Qed.

(** [while True] has no normal exit. *)
Lemma while_true_never_returns {X} (body : X -> M X) (fuel : nat) :
  forall (x : X) (s : state) (a : X),
    fst (while_ fuel (fun _ => ret true) body x s) <> Ret a.
Proof.
  induction fuel as [|fuel IH]; intros x s a; cbn [while_];
    unfold bind at 1, ret at 1; [discriminate|].
  unfold bind. destruct (body x s) as [[x'| | |] s1]; try discriminate.
  apply IH.
Qed.


(** *** What is added to the trace *)

Section Appends.

Variable P : event -> bool.

Lemma appends_silent {A} (m : M A) :
  (forall s, trace (snd (m s)) = trace s) -> appends P m.
Proof. intros H s. exists []. rewrite app_nil_r. auto. Qed.

Lemma appends_observes {A} (m : M A) : observes P m -> appends P m.
Proof. intros H s. destruct (H s) as (new & T & F & _). eauto. Qed.

Lemma appends_emit (e : event) : P e = true -> appends P (emit e).
Proof. intros Pe s. exists [e]. cbn. rewrite Pe. auto. Qed.

Lemma appends_bind {A B} (m : M A) (k : A -> M B) :
  appends P m -> (forall a, appends P (k a)) -> appends P (bind m k).
Proof.
  intros Hm Hk s. unfold bind.
  destruct (Hm s) as (n1 & T1 & F1).
  destruct (m s) as [[a| | |] s1]; cbn [snd] in *;
    try (exists n1; split; assumption).
  destruct (Hk a s1) as (n2 & T2 & F2).
  exists (n1 ++ n2). rewrite T2, T1, app_assoc, forallb_app, F1, F2. auto.
Qed.

Lemma appends_try {A} (m : M A) handled (h : exn -> M A) :
  appends P m -> (forall e, appends P (h e)) ->
  appends P (try_except m handled h).
Proof.
  intros Hm Hh s. unfold try_except.
  destruct (Hm s) as (n1 & T1 & F1).
  destruct (m s) as [[a|e| |] s1]; cbn [snd] in *;
    try (exists n1; split; assumption).
  destruct (handled e); [|exists n1; split; assumption].
  destruct (Hh e s1) as (n2 & T2 & F2).
  exists (n1 ++ n2). rewrite T2, T1, app_assoc, forallb_app, F1, F2. auto.
Qed.

Lemma appends_while_ {X} (cond : X -> M bool) (body : X -> M X) :
  (forall x, appends P (cond x)) -> (forall x, appends P (body x)) ->
  forall fuel x, appends P (while_ fuel cond body x).
Proof.
  intros Hc Hb fuel; induction fuel as [|fuel IH]; intros x; cbn [while_];
    (apply appends_bind; [apply Hc|]); intros [|];
    try (apply appends_silent; reflexivity).
  apply appends_bind; [apply Hb | apply IH].
Qed.

Lemma appends_while {X} (cond : X -> M bool) (body : X -> M X) (x : X) :
  (forall x, appends P (cond x)) -> (forall x, appends P (body x)) ->
  appends P (while cond body x).
Proof. intros Hc Hb s. unfold while. apply appends_while_; assumption. Qed.

Lemma appends_for_each {X} (l : list X) (body : X -> M unit) :
  (forall x, appends P (body x)) -> appends P (for_each l body).
Proof.
  intros Hb; induction l; cbn [for_each];
    [apply appends_silent; reflexivity | apply appends_bind; auto].
Qed.

Hypothesis reads : forall b, P (Read b) = true.

Lemma appends_readline : appends P readline.
Proof. apply appends_observes, observes_readline, reads. Qed.

Lemma appends_read_nonempty : appends P read_nonempty.
Proof. apply appends_observes, observes_read_nonempty, reads. Qed.

Lemma appends_send (data : str) (line : bytes) :
  Py.encode (rstrip data ++ CRLF) = Some line ->
  P (Write line) = true -> P (Sleep 200) = true ->
  (forall t, P (Log DEBUG "Decoded response : %s" [t]) = true) ->
  appends P (send data).
Proof.
  intros E Pw Ps Pl s. rewrite (send_written data line s E).
  destruct (await_response_observes P Ps reads Pl (emits [Write line] s))
    as (new & T & F & _).
  exists (Write line :: new). rewrite T. cbn [emits trace forallb].
  rewrite <- app_assoc, Pw, F. auto.
Qed.

End Appends.

Ltac add_step sf :=
  lazymatch goal with
  | |- appends _ (bind _ _) => apply appends_bind; [|intro]
  | |- appends _ (while _ _ _) => apply appends_while; intro
  | |- appends _ (try_except _ _ _) => apply appends_try; [|intro]
  | |- appends _ (send _) =>
      eapply appends_send;
      [ intro; reflexivity
      | first [ eassumption | apply (dr_frame sf) | vm_compute; reflexivity ]
      | vm_compute; reflexivity | reflexivity | intro; reflexivity ]
  | |- appends _ read_nonempty =>
      apply appends_read_nonempty; intro; reflexivity
  | |- appends _ readline => apply appends_readline; intro; reflexivity
  | |- appends _ (bytes_decode _) =>
      apply appends_observes, observes_bytes_decode
  | |- appends _ (log _ _ _) => apply appends_emit; reflexivity
  | |- appends _ (sleep _) => apply appends_emit; reflexivity
  | |- appends _ close => apply appends_emit; reflexivity
  | |- appends _ (if ?b then _ else _) => destruct b
  | |- appends _ (match ?o with Some _ => _ | None => _ end) => destruct o
  | |- appends _ (let _ := _ in _) => cbv zeta
  | |- appends _ (join_turn _) => unfold join_turn
  | |- appends _ (poll_test _) => unfold poll_test
  | |- appends _ (poll_turn _) => unfold poll_turn
  | |- appends _ (transmit_test _) => unfold transmit_test
  | |- appends _ incr_error_counts => unfold incr_error_counts
  | |- appends _ _ => apply appends_silent; intro; reflexivity
  end.

Lemma appends_main_loop (P : event -> bool) :
  (forall b, P (Read b) = true) ->
  (forall l fmt args, P (Log l fmt args) = true) ->
  forallb (fun b => P (Write b)) script_lines = true ->
  forallb (fun ms => P (Sleep ms)) script_pauses = true ->
  appends P (main_loop tx_command).
Proof.
  intros Pr Pl Pw Ps.
  assert (W : forall line, In line script_lines -> P (Write line) = true)
    by (apply forallb_forall; exact Pw).
  assert (S : forall ms, In ms script_pauses -> P (Sleep ms) = true)
    by (apply forallb_forall; exact Ps).
  assert (Hs : forall data line,
             Py.encode (rstrip data ++ CRLF) = Some line ->
             In line script_lines -> appends P (send data)).
  { intros data line E I. apply (appends_send P Pr data line E).
    - apply W, I.
    - apply S. cbn. auto.
    - intros. apply Pl. }
  assert (He : forall l fmt args, appends P (log l fmt args))
    by (intros; apply appends_emit, Pl).
  assert (Hz : forall ms, In ms script_pauses -> appends P (sleep ms))
    by (intros; apply appends_emit, S; assumption).
  assert (Hr : appends P readline) by apply (appends_readline P Pr).
  assert (Hn : appends P read_nonempty) by apply (appends_read_nonempty P Pr).
  unfold main_loop, enter_session, connect, lora_setup, provision,
    join_attempts, await_accept, transmit_loop, uplink, poll_follow_up.
  cbv zeta. simpl for_each.
  repeat lazymatch goal with
         | |- appends _ (bind _ _) => apply appends_bind; [|intro]
         | |- appends _ (while _ _ _) => apply appends_while; intro
         | |- appends _ (send _) =>
             eapply Hs;
             [ vm_compute; reflexivity
             | cbn; repeat (first [left; reflexivity | right]) ]
         | |- appends _ read_nonempty => apply Hn
         | |- appends _ (bytes_decode _) =>
             apply appends_observes, observes_bytes_decode
         | |- appends _ readline => apply Hr
         | |- appends _ (log _ _ _) => apply He
         | |- appends _ (sleep _) =>
             apply Hz; cbn; repeat (first [left; reflexivity | right])
         | |- appends _ (if ?b then _ else _) => destruct b
         | |- appends _ (match payload_of ?t with _ => _ end) =>
             destruct (payload_of t)
         | |- appends _ (join_turn _) => unfold join_turn
         | |- appends _ (poll_test _) => unfold poll_test
         | |- appends _ (poll_turn _) => unfold poll_turn
         | |- appends _ (transmit_test _) => unfold transmit_test
         | |- appends _ incr_error_counts => unfold incr_error_counts
         | |- appends _ _ => apply appends_silent; intro; reflexivity
         end.
Qed.

Lemma appends_serve (P : event -> bool) :
  (forall b, P (Read b) = true) ->
  (forall l fmt args, P (Log l fmt args) = true) ->
  forallb (fun b => P (Write b)) script_lines = true ->
  forallb (fun ms => P (Sleep ms)) script_pauses = true ->
  P Close = true ->
  appends P serve.
Proof.
  intros Pr Pl Pw Ps Pc. unfold serve.
  apply appends_try; [|intro].
  - apply appends_bind; [apply appends_main_loop; assumption|intro].
    apply appends_silent; reflexivity.
  - apply appends_bind; [apply appends_emit, Pl|intro].
    apply appends_bind; [apply appends_emit, Pc|intro].
    apply appends_silent; reflexivity.
Qed.

(** [main], by what [sp.open()] does. *)
Lemma main_run (s : state) :
  main s =
  match port_fault s with
  | None => serve (emits [Open] s)
  | Some e =>
      if port_error e
      then (Ret (Some 1%Z),
            emits [Log ERROR "Failed to create the serial connection, %s:%s"
                       [class_text e; exn_name e]]
              (emits [Log CRITICAL "Could not open the serial connection." []]
                 s))
      else (Raise e, s)
  end.
Proof.
  unfold main, bind at 1, try_except at 1, bind at 1, setup_serial,
    try_except at 1, open.
  destruct (port_fault s) as [[]|]; reflexivity.
Qed.

Lemma script_run (s : state) :
  snd (script s) = snd (main (emits [Log INFO "Starting program RN2483" []] s)).
Proof.
  unfold script, bind, log, emit. cbn [fst snd].
  destruct (main _) as [[a| | |] s']; reflexivity.
Qed.

Lemma appends_main (P : event -> bool) :
  (forall b, P (Read b) = true) ->
  (forall l fmt args, P (Log l fmt args) = true) ->
  forallb (fun b => P (Write b)) script_lines = true ->
  forallb (fun ms => P (Sleep ms)) script_pauses = true ->
  P Close = true -> P Open = true ->
  appends P main.
Proof.
  intros Pr Pl Pw Ps Pc Po s. rewrite main_run.
  destruct (port_fault s) as [e|].
  - destruct (port_error e).
    + eexists. cbn [snd emits trace]. rewrite <- app_assoc.
      split; [reflexivity|]. cbn [app forallb]. rewrite !Pl. reflexivity.
    + exists []. rewrite app_nil_r. auto.
  - destruct (appends_serve P Pr Pl Pw Ps Pc (emits [Open] s))
      as (new & T & F).
    exists (Open :: new). rewrite T. cbn [emits trace forallb].
    rewrite <- app_assoc, Po, F. auto.
Qed.

(** X11.  In every run of the whole script the only lines ever written
    to the port are the twelve provisioning commands (with the data rate of
    the configured spreading factor), the join command and the uplink
    command, each ended by CR LF; and the only pauses ever taken are those
    of 0.2 s, 1 s, 2 s, 3 s and 10 s. *)
Theorem script_says_nothing_else
  (script_rx : list rx_item) (fault : option exn) :
  forallb script_event (trace (snd (script (boot script_rx fault)))) = true.
Proof.
  rewrite script_run.
  destruct (appends_main script_event (fun _ => eq_refl)
              (fun _ _ _ => eq_refl) eq_refl eq_refl eq_refl eq_refl
              (emits [Log INFO "Starting program RN2483" []]
                     (boot script_rx fault))) as (new & -> & F).
  exact F.
Qed.

(** X12.  Once the port is open, [main] can end in three ways only.  It
    returns 0 on the user's interrupt, the last two things done being the
    record of the interrupt and [sp.close()]; or a line of the modem is not
    UTF-8 and [UnicodeDecodeError] escapes, the port left open; or it never
    ends, waiting for a line with nothing left to read, the port open.  It
    never returns 1, never returns [None] (the outer loop has no exit), the
    port is closed at no other moment, and no other exception escapes. *)
Theorem main_ends_in_three_ways (script_rx : list rx_item) :
  (fst (main (boot script_rx None)) = Ret (Some 0%Z) /\
   exists before,
     trace (snd (main (boot script_rx None))) =
       before ++ [Log INFO "KeyboardInterrupt, ending program" []; Close] /\
     forallb not_close before = true) \/
  (fst (main (boot script_rx None)) = Raise UnicodeDecodeError /\
   forallb not_close (trace (snd (main (boot script_rx None)))) = true) \/
  (fst (main (boot script_rx None)) = Blocked /\
   rx (snd (main (boot script_rx None))) = [] /\
   forallb not_close (trace (snd (main (boot script_rx None)))) = true).
Proof.
  rewrite main_run. cbn [port_fault boot].
  set (s0 := emits [Open] (boot script_rx None)).
  pose proof (fueled_main_loop tx_command s0) as F1.
  assert (F2 : forall a, fst (main_loop tx_command s0) <> Ret a)
    by (intros a; unfold main_loop, while; apply while_true_never_returns).
  pose proof (stops_main_loop tx_command tx_line tx_line_framed s0) as F3.
  destruct (appends_main_loop not_close (fun _ => eq_refl)
              (fun _ _ _ => eq_refl) eq_refl eq_refl s0) as (new & T & F4).
  unfold serve, try_except, bind.
  destruct (main_loop tx_command s0) as [[a|e| |] s1]; cbn [fst snd] in *.
  - exfalso. apply (F2 a). reflexivity.
  - destruct e; try discriminate.
    + left. split; [reflexivity|].
      exists (trace s1). split; [cbn; rewrite <- app_assoc; reflexivity|].
      rewrite T. subst s0. cbn. exact F4.
    + right; left. split; [reflexivity|]. cbn [fst snd].
      rewrite T. subst s0. cbn. exact F4.
  - right; right. split; [reflexivity|]. split; [assumption|].
    rewrite T. subst s0. cbn. exact F4.
  - congruence.
Qed.

(* ===================================================================== *)
(** ** [error_counts] stays between 0 and 6 (lines 242-267) *)
(* ===================================================================== *)

Lemma bounded_observes {A} (P : event -> bool) (m : M A) :
  observes P m -> bounded m.
Proof.
  intros H s B. destruct (H s) as (new & _ & _ & E & _). rewrite E. exact B.
Qed.

Lemma bounded_bind {A B} (m : M A) (k : A -> M B) :
  bounded m -> (forall a, bounded (k a)) -> bounded (bind m k).
Proof.
  intros Hm Hk s Hs. unfold bind. specialize (Hm s Hs).
  destruct (m s) as [[a| | |] s1]; cbn [snd] in *; auto.
  apply Hk, Hm.
Qed.

Lemma bounded_try {A} (m : M A) handled (h : exn -> M A) :
  bounded m -> (forall e, bounded (h e)) -> bounded (try_except m handled h).
Proof.
  intros Hm Hh s B. unfold try_except. specialize (Hm s B).
  destruct (m s) as [[a|e| |] s1]; cbn [snd] in *; auto.
  destruct (handled e); cbn [snd]; auto. apply Hh, Hm.
Qed.

Lemma bounded_while {X} (cond : X -> M bool) (body : X -> M X) (x : X) :
  (forall x, bounded (cond x)) -> (forall x, bounded (body x)) ->
  bounded (while cond body x).
Proof.
  intros Hc Hb s. unfold while. generalize (S (List.length (rx s))) as fuel.
  intros fuel. revert x s. induction fuel as [|fuel IH]; intros x s B;
    cbn [while_]; unfold bind at 1; pose proof (Hc x s B) as Bc;
    destruct (cond x s) as [[[|]| | |] s1]; cbn [snd] in *; auto.
  unfold bind. pose proof (Hb x s1 Bc) as Bb.
  destruct (body x s1) as [[x'| | |] s2]; cbn [snd] in *; auto.
Qed.

(** The transmit loop: an attempt is only made while the count is at most
    5, and it adds at most one. *)
Lemma bounded_transmit_loop (command : str) : bounded (transmit_loop command).
Proof.
  intros s. rewrite transmit_loop_eq. unfold while.
  generalize (S (List.length (rx s))) as fuel. intros fuel. revert s.
  induction fuel as [|fuel IH]; intros s B.
  - rewrite transmit_loop_zero. destruct (error_counts s <=? 5)%Z; exact B.
  - rewrite transmit_loop_step.
    destruct (Z.leb_spec (error_counts s) 5) as [Le|Gt]; [|exact B].
    destruct (uplink_attempt command s) as (it & _ & E & L & _).
    assert (B1 : in_range (error_counts (snd (uplink command s))))
      by (unfold in_range in *; lia).
    destruct (uplink command s) as [[[]| | |] s1]; cbn [snd] in *;
      try exact B1.
    apply IH, B1.
Qed.

Lemma bounded_serve : bounded serve.
Proof.
  unfold serve, main_loop, enter_session.
  apply bounded_try; [|intro; apply (bounded_observes any_event); obs_solve].
  apply bounded_bind; [|intro; apply (bounded_observes any_event); obs_solve].
  apply bounded_while; intro;
    [apply (bounded_observes any_event); obs_solve|].
  apply bounded_bind; [|intro; apply bounded_transmit_loop].
  apply bounded_bind;
    [apply (bounded_observes no_attempt), connect_no_attempt|intro].
  apply bounded_bind; [apply (bounded_observes any_event); obs_solve|intro].
  intros s _. cbn. unfold in_range. lia.
Qed.

Lemma bounded_main : bounded main.
Proof.
  intros s B. rewrite main_run.
  destruct (port_fault s) as [[]|]; try exact B.
  apply bounded_serve. exact B.
Qed.

(** X13.  [error_counts] stays between 0 and 6 throughout: whatever the
    modem does, however the run ends and however many sessions it went
    through, the counter is within these bounds in the final state of the
    script, and of [main]. *)
Theorem error_counts_stays_within_six
  (script_rx : list rx_item) (fault : option exn) :
  (0 <= error_counts (snd (script (boot script_rx fault))) <= 6)%Z /\
  (0 <= error_counts (snd (main (boot script_rx fault))) <= 6)%Z.
Proof.
  split; [rewrite script_run|]; apply bounded_main; cbn; unfold in_range; lia.
Qed.

(* ===================================================================== *)
(** ** A refused join starts the provisioning again (lines 235-237) *)
(* ===================================================================== *)

Lemma bind_assoc {A B C} (m : M A) (k : A -> M B) (h : B -> M C) (s : state) :
  bind (bind m k) h s = bind m (fun a => bind (k a) h) s.
Proof. unfold bind. destruct (m s) as [[a| | |] s1]; reflexivity. Qed.

Lemma bind_ret {A B} (a : A) (k : A -> M B) (s : state) :
  bind (ret a) k s = k a s.
Proof. reflexivity. Qed.

Lemma send_step {B} (data : str) (line : bytes) (p : reply) (k : str -> M B)
  r tr n pf :
  Py.encode (rstrip data ++ CRLF) = Some line -> genuine p ->
  bind (send data) k (mkState (heard p ++ r) tr n pf) =
  k (text p) (mkState r (tr ++ exchange line p) n pf).
Proof.
  intros E G. unfold bind at 1. rewrite (send_hears data line p r tr n pf E G).
  reflexivity.
Qed.

Lemma timeline_exchange (line : bytes) (p : reply) :
  timeline (exchange line p) = [Write line; Sleep 200].
Proof.
  unfold exchange. rewrite !timeline_app, timeline_reads. reflexivity.
Qed.

Lemma provision_runs (sf : Z) (ps : list reply) r tr n pf :
  List.length ps = 12 -> Forall genuine ps ->
  exists evs,
    provision sf (mkState (flat_map heard ps ++ r) tr n pf) =
    (Ret tt, mkState r (tr ++ evs) n pf) /\
    timeline evs = flat_map (fun c => [Write c; Sleep 200]) (provisioning sf).
Proof.
  intros L G.
  do 12 (destruct ps as [|? ps]; [discriminate|]).
  destruct ps; [|discriminate]. clear L.
  repeat match goal with
         | H : Forall genuine (_ :: _) |- _ => inversion H; clear H; subst
         end.
  cbn [flat_map]. rewrite app_nil_r, <- !app_assoc.
  unfold provision. cbv zeta. simpl for_each.
  repeat first
    [ rewrite bind_assoc
    | rewrite bind_ret
    | rewrite bind_log
    | erewrite send_step;
      [ | first [ apply (dr_frame sf) | vm_compute; reflexivity ]
        | assumption ] ].
  rewrite log_run.
  eexists. split.
  - rewrite <- !app_assoc. reflexivity.
  - rewrite !timeline_app, !timeline_exchange. reflexivity.
Qed.

Lemma lora_setup_no_failure (sf : Z) : observes not_error (lora_setup sf).
Proof. apply lora_setup_observes; reflexivity. Qed.

(** One round, played to its verdict. *)
Lemma lora_setup_runs (sf : Z) (q : round) r tr n pf :
  well_played q ->
  exists evs,
    lora_setup sf (mkState (round_rx q ++ r) tr n pf) =
    (Ret (granted q), mkState r (tr ++ evs) n pf) /\
    timeline evs = round_timeline sf q /\ failures evs = 0.
Proof.
  intros (L & Ga & Gd & Gc & Kc & Gv).
  unfold round_rx. rewrite <- !app_assoc.
  destruct (provision_runs sf (acks q)
              (flat_map heard (denials q) ++ heard (consent q) ++
               heard (decision q) ++ r) tr n pf L Ga) as (e1 & Ep & T1).
  assert (R : lora_setup sf
                (mkState (flat_map heard (acks q) ++ flat_map heard (denials q)
                          ++ heard (consent q) ++ heard (decision q) ++ r)
                         tr n pf) =
              (Ret (granted q),
               mkState r (tr ++ e1 ++ (flat_map join_events (denials q) ++
                                       join_events (consent q)) ++
                          verdict_events (decision q)) n pf)).
  { unfold lora_setup. unfold bind at 1. rewrite Ep.
    unfold bind at 1. rewrite (join_loop_runs _ _ _ _ n pf Gd Gc Kc).
    rewrite await_accept_hears by assumption.
    rewrite <- !app_assoc. reflexivity. }
  eexists. split; [exact R|]. split.
  - rewrite !timeline_app, T1, timeline_join_turns, timeline_join_events,
      timeline_verdict_events.
    unfold round_timeline.
    replace (S (List.length (denials q))) with (List.length (denials q) + 1)
      by lia.
    rewrite repeat_app, concat_app. cbn [repeat List.concat].
    rewrite app_nil_r, <- !app_assoc. reflexivity.
  - destruct (lora_setup_no_failure sf
                (mkState (flat_map heard (acks q) ++
                          flat_map heard (denials q) ++ heard (consent q) ++
                          heard (decision q) ++ r) tr n pf))
      as (new & T & F & _).
    rewrite R in T. cbn [snd trace] in T. apply app_inv_head in T.
    rewrite T. apply failures_not_error, F.
Qed.

Lemma connect_unfold (s : state) :
  connect s =
  (joined <- lora_setup SPREADING_FACTOR ;;
   if negb joined
   then log ERROR "Failed to connect, retrying in 3s" [] ;;
        sleep 3000 ;; connect
   else ret tt) s.
Proof.
  unfold connect at 1. rewrite while_unfold.
  - unfold bind.
    destruct (lora_setup SPREADING_FACTOR s) as [[[|]| | |] s1];
      reflexivity.
  - apply turn_of_test; intro; [|rx_solve].
    apply advances_bind_l; [apply advances_lora_setup|intro; rx_solve].
Qed.

(** X14.  A join the network refuses starts everything again.  Let the
    modem play any number of rounds that end with a verdict other than
    "accepted", then one that ends with "accepted".  The outer join loop
    returns; each refused round is followed by one ERROR record and a pause
    of 3 s, and then by the reset command and the whole provisioning again;
    nothing else is written or paused for; [error_counts] is untouched. *)
Theorem connect_provisions_again_after_a_refusal
  (lost : list round) (won : round) (rest : list rx_item)
  (tr : list event) (n : Z) (pf : option exn) :
  Forall (fun q => well_played q /\ granted q = false) lost ->
  well_played won -> granted won = true ->
  exists evs,
    connect (mkState (flat_map round_rx lost ++ round_rx won ++ rest) tr n pf)
    = (Ret tt, mkState rest (tr ++ evs) n pf) /\
    timeline evs =
      flat_map (fun q => round_timeline SPREADING_FACTOR q ++ [Sleep 3000])
               lost ++
      round_timeline SPREADING_FACTOR won /\
    failures evs = List.length lost.
Proof.
  intros Hl Hw Gw. revert tr.
  induction Hl as [|q lost [Hq Gq] _ IH]; intros tr; cbn [flat_map app].
  - rewrite connect_unfold. unfold bind.
    destruct (lora_setup_runs SPREADING_FACTOR won rest tr n pf Hw)
      as (evs & -> & T & F).
    rewrite Gw. cbn [negb]. exists evs. auto.
  - rewrite connect_unfold. unfold bind at 1. rewrite <- app_assoc.
    destruct (lora_setup_runs SPREADING_FACTOR q
                (flat_map round_rx lost ++ round_rx won ++ rest) tr n pf Hq)
      as (e1 & -> & T1 & F1).
    rewrite Gq. cbn [negb]. rewrite bind_log, bind_sleep.
    destruct (IH ((tr ++ e1 ++ [Log ERROR "Failed to connect, retrying in 3s" []])
                  ++ [Sleep 3000])) as (e2 & E2 & T2 & F2).
    exists (e1 ++ [Log ERROR "Failed to connect, retrying in 3s" []] ++
            [Sleep 3000] ++ e2).
    split; [|split].
    + rewrite <- !app_assoc in *. exact E2.
    + rewrite !timeline_app, T1, T2, <- !app_assoc. reflexivity.
    + rewrite !failures_app, F1, F2. reflexivity.
Qed.

Lemma lost_round_played : well_played lost_round /\ granted lost_round = false.
Proof.
  split; [|reflexivity].
  unfold well_played, lost_round; cbn [acks denials consent decision].
  repeat split; try discriminate;
    repeat (constructor; try (split; [discriminate|reflexivity])).
Qed.

Lemma won_round_played : well_played won_round.
Proof.
  unfold well_played, won_round; cbn [acks denials consent decision].
  repeat split; try discriminate;
    repeat (constructor; try (split; [discriminate|reflexivity])).
Qed.

Lemma connect_provisions_again_after_a_refusal_witness :
  exists evs,
    connect (mkState (flat_map round_rx [lost_round] ++ round_rx won_round ++ [])
                     [] 0 None)
    = (Ret tt, mkState [] ([] ++ evs) 0 None) /\
    timeline evs =
      flat_map (fun q => round_timeline SPREADING_FACTOR q ++ [Sleep 3000])
               [lost_round] ++
      round_timeline SPREADING_FACTOR won_round /\
    failures evs = List.length [lost_round].
Proof.
  apply (connect_provisions_again_after_a_refusal
           [lost_round] won_round [] [] 0%Z None).
  - constructor; [exact lost_round_played | constructor].
  - exact won_round_played.
  - reflexivity.
Defined.

(* ===================================================================== *)
(** ** The substring test (lines 192, 250, 271) *)
(* ===================================================================== *)

Lemma startswith_spec (pat s : list N) :
  startswith pat s = true <-> exists rest, s = pat ++ rest.
Proof.
  revert s; induction pat as [|p pat IH]; intros s; cbn [startswith app].
  - split; eauto.
  - destruct s as [|c s]; [split; [discriminate|intros [r E]; discriminate]|].
    rewrite andb_true_iff, N.eqb_eq, IH. split.
    + intros [-> [r ->]]. eauto.
    + intros [r E]. injection E as -> ->. eauto.
Qed.

(** X15.  The test [pat in s] the script applies to responses ("ok",
    "mac_rx") is substring containment: it holds exactly when [s] is some
    text, then [pat], then some text.  So "ok" anywhere in a response
    counts, as in "mac_tx_ok". *)
Theorem contains_is_substring (pat s : list N) :
  contains pat s = true <-> exists before after, s = before ++ pat ++ after.
Proof.
  induction s as [|c s IH]; cbn [contains].
  - rewrite orb_false_r, startswith_spec. split.
    + intros [r E]. exists [], r. exact E.
    + intros (b & a & E). destruct b; [eauto|discriminate].
  - rewrite orb_true_iff, startswith_spec, IH. split.
    + intros [[r E]|(b & a & E)].
      * exists [], r. exact E.
      * exists (c :: b), a. rewrite E. reflexivity.
    + intros (b & a & E). destruct b as [|x b].
      * left. eauto.
      * right. injection E as -> ->. eauto.
Qed.

(* ===================================================================== *)
(** ** The user's interrupt (lines 232-233, 277-280) *)
(* ===================================================================== *)

Lemma heeds_still {A} (m : M A) :
  (forall s, rx (snd (m s)) = rx s) ->
  (forall s, fst (m s) <> Blocked) ->
  (forall s, fst (m s) <> Raise KeyboardInterrupt) ->
  heeds m.
Proof.
  intros Hr Hb Hk s lines post R.
  specialize (Hr s). specialize (Hb s). specialize (Hk s).
  destruct (fst (m s)) as [a|[]| |]; try congruence; auto.
  exists lines. congruence.
Qed.

Lemma heeds_ret {A} (a : A) : heeds (ret a).
Proof. apply heeds_still; intros; cbn; congruence. Qed.

Lemma heeds_emit (e : event) : heeds (emit e).
Proof. apply heeds_still; intros; cbn; congruence. Qed.

Lemma heeds_get : heeds get_error_counts.
Proof. apply heeds_still; intros; cbn; congruence. Qed.

Lemma heeds_put n : heeds (put_error_counts n).
Proof. apply heeds_still; intros; cbn; congruence. Qed.

Lemma heeds_encode t : heeds (str_encode t).
Proof.
  apply heeds_still; intros s; unfold str_encode; destruct (Py.encode t);
    cbn; congruence.
Qed.

Lemma heeds_decode b : heeds (bytes_decode b).
Proof.
  apply heeds_still; intros s; unfold bytes_decode; destruct (Py.decode b);
    cbn; congruence.
Qed.

Lemma heeds_readline : heeds readline.
Proof.
  intros s lines post R. unfold readline. rewrite R.
  destruct lines as [|b lines]; cbn [map app fst snd set_rx emits rx].
  - reflexivity.
  - exists lines. reflexivity.
Qed.

Lemma heeds_bind {A B} (m : M A) (k : A -> M B) :
  heeds m -> (forall a, heeds (k a)) -> heeds (bind m k).
Proof.
  intros Hm Hk s lines post R. unfold bind. specialize (Hm s lines post R).
  destruct (m s) as [[a|e| |] s1]; cbn [fst snd] in *; auto.
  destruct Hm as [lines' R']. apply (Hk a s1 lines' post R').
Qed.

Lemma heeds_while_ {X} (cond : X -> M bool) (body : X -> M X) :
  (forall x, heeds (cond x)) -> (forall x, heeds (body x)) ->
  forall fuel x, heeds (while_ fuel cond body x).
Proof.
  intros Hc Hb fuel; induction fuel as [|fuel IH]; intros x; cbn [while_];
    (apply heeds_bind; [apply Hc|]); intros [|]; try apply heeds_ret.
  - intros s lines post R. exact I.
  - apply heeds_bind; [apply Hb | apply IH].
Qed.

Lemma heeds_while {X} (cond : X -> M bool) (body : X -> M X) (x : X) :
  (forall x, heeds (cond x)) -> (forall x, heeds (body x)) ->
  heeds (while cond body x).
Proof. intros Hc Hb s. unfold while. apply heeds_while_; assumption. Qed.

Lemma heeds_for_each {X} (l : list X) (body : X -> M unit) :
  (forall x, heeds (body x)) -> heeds (for_each l body).
Proof.
  intros Hb; induction l; cbn [for_each];
    [apply heeds_ret | apply heeds_bind; auto].
Qed.

Ltac heed_step :=
  lazymatch goal with
  | |- heeds (bind _ _) => apply heeds_bind; [|intro]
  | |- heeds (while _ _ _) => apply heeds_while; intro
  | |- heeds (for_each _ _) => apply heeds_for_each; intro
  | |- heeds readline => apply heeds_readline
  | |- heeds (ret _) => apply heeds_ret
  | |- heeds (log _ _ _) => apply heeds_emit
  | |- heeds (sleep _) => apply heeds_emit
  | |- heeds (write _) => apply heeds_emit
  | |- heeds get_error_counts => apply heeds_get
  | |- heeds (put_error_counts _) => apply heeds_put
  | |- heeds (str_encode _) => apply heeds_encode
  | |- heeds (bytes_decode _) => apply heeds_decode
  | |- heeds (if ?b then _ else _) => destruct b
  | |- heeds (match payload_of ?t with _ => _ end) =>
      destruct (payload_of_some t) as [payload ->]
  | |- heeds (let _ := _ in _) => cbv zeta
  | |- heeds (join_turn _) => unfold join_turn
  | |- heeds (poll_test _) => unfold poll_test
  | |- heeds (poll_turn _) => unfold poll_turn
  | |- heeds (transmit_test _) => unfold transmit_test
  | |- heeds incr_error_counts => unfold incr_error_counts
  | |- heeds (send _) => unfold send, frame, read_nonempty
  | |- heeds read_nonempty => unfold read_nonempty
  end.

Lemma heeds_main_loop (command : str) : heeds (main_loop command).
Proof.
  unfold main_loop, enter_session, connect, lora_setup, provision,
    join_attempts, await_accept, transmit_loop, uplink, poll_follow_up.
  repeat heed_step.
Qed.

(** X16.  The user's interrupt is honoured wherever it finds the program
    reading.  With the port open and the interrupt anywhere in what the
    reads deliver, [main] never waits for ever: unless a line before the
    interrupt was not UTF-8, it returns 0, having closed the port last and
    read nothing that came after the interrupt. *)
Theorem interrupt_ends_the_program (lines : list bytes) (post : list rx_item) :
  (fst (main (boot (map Line lines ++ CtrlC :: post) None)) = Ret (Some 0%Z) /\
   rx (snd (main (boot (map Line lines ++ CtrlC :: post) None))) = post /\
   index_last (trace (snd (main (boot (map Line lines ++ CtrlC :: post) None))))
   = Some Close) \/
  fst (main (boot (map Line lines ++ CtrlC :: post) None))
  = Raise UnicodeDecodeError.
Proof.
  rewrite main_run. cbn [port_fault boot].
  set (s0 := emits [Open] (boot (map Line lines ++ CtrlC :: post) None)).
  pose proof (fueled_main_loop tx_command s0) as F1.
  assert (F2 : forall a, fst (main_loop tx_command s0) <> Ret a)
    by (intros a; unfold main_loop, while; apply while_true_never_returns).
  pose proof (stops_main_loop tx_command tx_line tx_line_framed s0) as F3.
  pose proof (heeds_main_loop tx_command s0 lines post eq_refl) as F4.
  unfold serve, try_except, bind.
  destruct (main_loop tx_command s0) as [[a|e| |] s1]; cbn [fst snd] in *.
  - exfalso. apply (F2 a). reflexivity.
  - destruct e; try discriminate.
    + left. split; [reflexivity|]. split; [exact F4|].
      cbn. apply index_last_snoc.
    + right. reflexivity.
  - contradiction.
  - congruence.
Qed.

(* ===================================================================== *)
(** ** Nothing is raised on legible input (lines 106, 201, 269) *)
(* ===================================================================== *)

Section Sound.

Variable G : rx_item -> Prop.
Variable E : exn -> bool.

Hypothesis lines_legible : forall b, G (Line b) -> legible b.
Hypothesis interrupt_expected : G CtrlC -> E KeyboardInterrupt = true.

Lemma sound_weaken {A} (Q R : A -> Prop) (m : M A) :
  (forall a, Q a -> R a) -> sound G E Q m -> sound G E R m.
Proof.
  intros H Hm s C. destruct (Hm s C) as (C1 & N1 & Q1).
  repeat split; auto.
Qed.

Lemma sound_still {A} (Q : A -> Prop) (m : M A) :
  (forall s, rx (snd (m s)) = rx s) ->
  (forall s e, fst (m s) <> Raise e) ->
  (forall s a, fst (m s) = Ret a -> Q a) ->
  sound G E Q m.
Proof.
  intros Hr Hn Hq s C. rewrite Hr. repeat split; auto.
  - intros e He. exfalso. eapply Hn; eassumption.
  - apply Hq.
Qed.

Lemma sound_ret {A} (Q : A -> Prop) (a : A) : Q a -> sound G E Q (ret a).
Proof.
  intros H. apply sound_still; intros; cbn in *; congruence.
Qed.

Lemma sound_emit (e : event) : sound G E whatever (emit e).
Proof. apply sound_still; intros; cbn; try congruence. exact I. Qed.

Lemma sound_get : sound G E whatever get_error_counts.
Proof. apply sound_still; intros; cbn; try congruence. exact I. Qed.

Lemma sound_put n : sound G E whatever (put_error_counts n).
Proof. apply sound_still; intros; cbn; try congruence. exact I. Qed.

Lemma sound_encode (t : str) (b : bytes) :
  Py.encode t = Some b -> sound G E whatever (str_encode t).
Proof.
  intros Ht. apply sound_still; intros s; unfold str_encode; rewrite Ht;
    cbn; try congruence. intros; exact I.
Qed.

Lemma sound_decode (b : bytes) :
  legible b -> sound G E whatever (bytes_decode (strip b)).
Proof.
  intros L. apply sound_still; intros s; unfold bytes_decode;
    destruct (Py.decode (strip b)) eqn:D; cbn; try congruence;
    intros; exact I.
Qed.

Lemma sound_readline : sound G E legible readline.
Proof.
  intros s C. unfold readline.
  destruct (rx s) as [|[b|] r] eqn:R; cbn [fst snd set_rx emits rx].
  - repeat split; try discriminate. rewrite R. constructor.
  - inversion C; subst. repeat split; try discriminate; auto.
    intros a Ha. injection Ha as <-. auto.
  - inversion C; subst. repeat split; try discriminate; auto.
    intros e He. injection He as <-. auto.
Qed.

Lemma sound_bind {A B} (Q : A -> Prop) (R : B -> Prop)
  (m : M A) (k : A -> M B) :
  sound G E Q m -> (forall a, Q a -> sound G E R (k a)) ->
  sound G E R (bind m k).
Proof.
  intros Hm Hk s C. unfold bind. destruct (Hm s C) as (C1 & N1 & Q1).
  destruct (m s) as [[a|e| |] s1]; cbn [fst snd] in *;
    try (split; [assumption | split; [|discriminate]];
         intros e0 H0;
         first [discriminate | apply N1; inversion H0; reflexivity]).
  apply (Hk a (Q1 a eq_refl) s1 C1).
Qed.

Lemma sound_while_ {X} (J : X -> Prop) (cond : X -> M bool) (body : X -> M X) :
  (forall x, J x -> sound G E whatever (cond x)) ->
  (forall x, J x -> sound G E J (body x)) ->
  forall fuel x, J x -> sound G E J (while_ fuel cond body x).
Proof.
  intros Hc Hb fuel; induction fuel as [|fuel IH]; intros x Jx; cbn [while_];
    (eapply sound_bind; [apply Hc, Jx|]); intros [|] _;
    try (apply sound_ret, Jx).
  - intros s C. split; [assumption | split; discriminate].
  - eapply sound_bind; [apply Hb, Jx|]. intros x' Jx'. apply IH, Jx'.
Qed.

Lemma sound_while {X} (J : X -> Prop) (cond : X -> M bool) (body : X -> M X)
  (x : X) :
  (forall x, J x -> sound G E whatever (cond x)) ->
  (forall x, J x -> sound G E J (body x)) ->
  J x -> sound G E J (while cond body x).
Proof. intros Hc Hb Jx s. unfold while. apply sound_while_; assumption. Qed.

(** A value is thrown away: any postcondition will do for what follows. *)
Lemma sound_seq {A B} (R : B -> Prop) (m : M A) (k : A -> M B) :
  sound G E whatever m -> (forall a, sound G E R (k a)) ->
  sound G E R (bind m k).
Proof. intros Hm Hk. eapply sound_bind; [exact Hm|]. intros; apply Hk. Qed.

Lemma sound_read_nonempty : sound G E legible read_nonempty.
Proof.
  unfold read_nonempty. eapply sound_bind; [apply sound_readline|].
  intros b Lb. apply sound_while; [| |assumption]; intros x Lx.
  - apply sound_ret. exact I.
  - apply sound_readline.
Qed.

Lemma sound_send (data : str) (line : bytes) :
  Py.encode (rstrip data ++ CRLF) = Some line ->
  sound G E whatever (send data).
Proof.
  intros Hl. unfold send, frame.
  apply sound_seq; [eapply sound_encode; eassumption|intro].
  apply sound_seq; [apply sound_emit|intro].
  apply sound_seq; [apply sound_emit|intro].
  eapply sound_bind; [apply sound_read_nonempty|]. intros rdata L.
  apply sound_seq; [apply sound_decode, L|intro].
  apply sound_seq; [apply sound_emit|intro].
  apply sound_ret. exact I.
Qed.

Lemma sound_await_accept : sound G E whatever await_accept.
Proof.
  unfold await_accept.
  apply sound_seq; [apply sound_emit|intro].
  apply sound_seq; [apply sound_emit|intro].
  eapply sound_bind; [apply sound_read_nonempty|]. intros rdata L.
  apply sound_seq; [apply sound_decode, L|intro].
  apply sound_seq; [apply sound_emit|intro].
  destruct (negb _); apply sound_ret; exact I.
Qed.

Lemma sound_poll_follow_up : sound G E legible poll_follow_up.
Proof.
  unfold poll_follow_up. cbv zeta.
  eapply sound_bind; [apply sound_readline|]. intros b Lb.
  eapply sound_bind.
  - apply (sound_while (fun rt : bytes * Z => legible (fst rt)));
      [| |exact Lb]; intros rt Lrt.
    + unfold poll_test. apply sound_ret. exact I.
    + unfold poll_turn. apply sound_seq; [apply sound_emit|intro].
      eapply sound_bind; [apply sound_readline|]. intros b' Lb'.
      apply sound_ret. exact Lb'.
  - intros rt Lrt. apply sound_ret. exact Lrt.
Qed.

End Sound.

Ltac sound_step sf :=
  lazymatch goal with
  | |- sound _ _ _ (bind (send _) _) =>
      apply sound_seq;
      [ eapply sound_send;
        [ assumption | assumption
        | first [ eassumption | apply (dr_frame sf) | vm_compute; reflexivity ] ]
      | intro ]
  | |- sound _ _ _ (bind (log _ _ _) _) =>
      apply sound_seq; [apply sound_emit|intro]
  | |- sound _ _ _ (bind (sleep _) _) =>
      apply sound_seq; [apply sound_emit|intro]
  | |- sound _ _ _ (bind get_error_counts _) =>
      apply sound_seq; [apply sound_get|intro]
  | |- sound _ _ _ (bind (ret _) _) =>
      apply sound_seq; [apply sound_ret; exact I|intro]
  | |- sound _ _ _ (bind (bind _ _) _) =>
      apply sound_seq; [|intro]
  | |- sound _ _ _ (bind incr_error_counts _) =>
      apply sound_seq; [unfold incr_error_counts|intro]
  | |- sound _ _ _ (log _ _ _) =>
      apply (sound_weaken _ _ whatever); [intros; exact I | apply sound_emit]
  | |- sound _ _ _ (sleep _) =>
      apply (sound_weaken _ _ whatever); [intros; exact I | apply sound_emit]
  | |- sound _ _ _ (put_error_counts _) =>
      apply (sound_weaken _ _ whatever); [intros; exact I | apply sound_put]
  | |- sound _ _ _ (ret _) => apply sound_ret; exact I
  | |- sound _ _ _ (if ?b then _ else _) => destruct b
  | |- sound _ _ _ (match payload_of ?t with _ => _ end) =>
      destruct (payload_of_some t) as [payload ->]
  | |- sound _ _ _ (let _ := _ in _) => cbv zeta
  end.

Section SoundScript.

Variable G : rx_item -> Prop.
Variable E : exn -> bool.

Hypothesis lines_legible : forall b, G (Line b) -> legible b.
Hypothesis interrupt_expected : G CtrlC -> E KeyboardInterrupt = true.

Lemma sound_lora_setup (sf : Z) : sound G E whatever (lora_setup sf).
Proof.
  unfold lora_setup.
  apply sound_seq;
    [|intro; apply sound_seq; [|intro; apply sound_await_accept; assumption]].
  - unfold provision. cbv zeta. simpl for_each. repeat sound_step sf.
  - unfold join_attempts.
    apply (sound_weaken _ _ (fun _ : bool => True)); [intros; exact I|].
    apply (sound_while _ _ (fun _ : bool => True)); [| |exact I]; intros j _.
    + apply sound_ret. exact I.
    + unfold join_turn. repeat sound_step sf.
Qed.

Lemma sound_uplink (command : str) (line : bytes) :
  Py.encode (rstrip command ++ CRLF) = Some line ->
  sound G E whatever (uplink command).
Proof.
  intros Hl. unfold uplink. repeat sound_step 0%Z.
  eapply sound_bind; [apply sound_poll_follow_up; assumption|]. intros ret_ L.
  destruct (is_empty ret_); [repeat sound_step 0%Z|].
  apply sound_seq; [apply sound_decode, L|intro]. repeat sound_step 0%Z.
Qed.

Lemma sound_main_loop (command : str) (line : bytes) :
  Py.encode (rstrip command ++ CRLF) = Some line ->
  sound G E whatever (main_loop command).
Proof.
  intros Hl. unfold main_loop.
  apply (sound_while _ _ (fun _ : unit => True)); [| |exact I]; intros [] _.
  - apply sound_ret. exact I.
  - unfold enter_session.
    apply sound_seq; [|intro].
    + apply sound_seq; [|intro; repeat sound_step 0%Z].
      unfold connect.
      apply (sound_while _ _ (fun _ : unit => True)); [| |exact I];
        intros [] _.
      * apply sound_seq; [apply sound_lora_setup|intro]. apply sound_ret.
        exact I.
      * repeat sound_step 0%Z.
    + unfold transmit_loop.
      apply (sound_while _ _ (fun _ : unit => True)); [| |exact I];
        intros [] _.
      * unfold transmit_test. repeat sound_step 0%Z.
      * eapply sound_uplink; eassumption.
Qed.

End SoundScript.

(** A script with the interrupt in it: lines, the interrupt, the rest. *)
Lemma first_interrupt (r : list rx_item) :
  In CtrlC r -> exists lines post, r = map Line lines ++ CtrlC :: post.
Proof.
  induction r as [|[b|] r IH]; intros H.
  - destruct H.
  - destruct H as [H|H]; [discriminate|].
    destruct (IH H) as (lines & post & ->). exists (b :: lines), post.
    reflexivity.
  - exists [], r. reflexivity.
Qed.

Lemma calm_script (r : list rx_item) :
  clean r -> ~ In CtrlC r -> Forall calm_item r.
Proof.
  induction 1 as [|[b|] r H _ IH]; intros N; constructor.
  - exact H.
  - apply IH. intros I; apply N; right; exact I.
  - apply N. left. reflexivity.
  - apply IH. intros I; apply N; right; exact I.
Qed.

(** X17.  On lines that are all valid UTF-8 once stripped, nothing the
    modem says makes [main] fail: with the port open it raises no
    exception.  If the user interrupts it returns 0; if not, it never
    returns and never raises, and stops only by waiting for a line when
    nothing is left to read. *)
Theorem main_raises_nothing_on_legible_lines (script_rx : list rx_item) :
  clean script_rx ->
  (In CtrlC script_rx ->
   fst (main (boot script_rx None)) = Ret (Some 0%Z)) /\
  (~ In CtrlC script_rx ->
   fst (main (boot script_rx None)) = Blocked /\
   rx (snd (main (boot script_rx None))) = []).
Proof.
  intros C. rewrite main_run. cbn [port_fault boot].
  set (s0 := emits [Open] (boot script_rx None)).
  pose proof (fueled_main_loop tx_command s0) as F1.
  assert (F2 : forall a, fst (main_loop tx_command s0) <> Ret a)
    by (intros a; unfold main_loop, while; apply while_true_never_returns).
  pose proof (stops_main_loop tx_command tx_line tx_line_framed s0) as F3.
  split.
  - intros Hi. destruct (first_interrupt script_rx Hi) as (lines & post & R).
    assert (Rs : rx s0 = map Line lines ++ CtrlC :: post) by exact R.
    pose proof (heeds_main_loop tx_command s0 lines post Rs) as F4.
    destruct (sound_main_loop clean_item only_interrupt
                (fun b H => H) (fun _ => eq_refl)
                tx_command tx_line tx_line_framed s0 C) as (_ & F5 & _).
    unfold serve, try_except, bind.
    destruct (main_loop tx_command s0) as [[a|e| |] s1]; cbn [fst snd] in *.
    + exfalso. apply (F2 a). reflexivity.
    + specialize (F5 e eq_refl). destruct e; try discriminate. reflexivity.
    + contradiction.
    + congruence.
  - intros Hn.
    destruct (sound_main_loop calm_item no_exn
                (fun b H => H) (fun H => match H with end)
                tx_command tx_line tx_line_framed s0
                (calm_script script_rx C Hn)) as (_ & F5 & _).
    unfold serve, try_except, bind.
    destruct (main_loop tx_command s0) as [[a|e| |] s1]; cbn [fst snd] in *.
    + exfalso. apply (F2 a). reflexivity.
    + specialize (F5 e eq_refl). discriminate.
    + auto.
    + congruence.
Qed.

Lemma main_raises_nothing_on_legible_lines_witness :
  (In CtrlC [Line (lit "ok" ++ [13; 10]%N); CtrlC] ->
   fst (main (boot [Line (lit "ok" ++ [13; 10]%N); CtrlC] None))
   = Ret (Some 0%Z)) /\
  (~ In CtrlC [Line (lit "ok" ++ [13; 10]%N); CtrlC] ->
   fst (main (boot [Line (lit "ok" ++ [13; 10]%N); CtrlC] None)) = Blocked /\
   rx (snd (main (boot [Line (lit "ok" ++ [13; 10]%N); CtrlC] None))) = []).
Proof.
  apply (main_raises_nothing_on_legible_lines
           [Line (lit "ok" ++ [13; 10]%N); CtrlC]).
  repeat constructor. intros H. vm_compute in H. discriminate.
Defined.

(* ===================================================================== *)
(** ** Ten seconds before every uplink (lines 245-250) *)
(* ===================================================================== *)

Lemma pace_app (r : bool) (a b : list event) :
  pace r (a ++ b) =
  match pace r a with Some r' => pace r' b | None => None end.
Proof.
  revert r; induction a as [|e a IH]; intros r; cbn [app pace];
    [reflexivity|].
  destruct e; try apply IH.
  destruct (str_eq b0 tx_line); [|apply IH].
  destruct r; [apply IH|reflexivity].
Qed.

Lemma pace_quiet (t : list event) :
  forallb not_uplink t = true -> forall r, pace r t <> None.
Proof.
  induction t as [|e t IH]; intros F r; [discriminate|].
  cbn [forallb] in F. apply andb_true_iff in F as [Fe F].
  destruct e; cbn [pace]; try apply IH; try assumption.
  cbn [not_uplink] in Fe. destruct (str_eq b tx_line); [discriminate|].
  apply IH; assumption.
Qed.

Lemma not_write_not_uplink (t : list event) :
  forallb not_write t = true -> forallb not_uplink t = true.
Proof.
  induction t as [|e t IH]; [reflexivity|]. cbn [forallb].
  intros F; apply andb_true_iff in F as [Fe F].
  rewrite (IH F), andb_true_r. destruct e; try reflexivity. discriminate.
Qed.

Lemma keeps_pace_appends {A} (m : M A) : appends not_uplink m -> keeps_pace m.
Proof.
  intros H s r. destruct (H s) as (new & T & F).
  exists new. split; [assumption | apply pace_quiet, F].
Qed.

Lemma keeps_pace_bind {A B} (m : M A) (k : A -> M B) :
  keeps_pace m -> (forall a, keeps_pace (k a)) -> keeps_pace (bind m k).
Proof.
  intros Hm Hk s r. unfold bind.
  destruct (Hm s r) as (n1 & T1 & P1).
  destruct (m s) as [[a| | |] s1]; cbn [snd] in *;
    try (exists n1; split; assumption).
  destruct (pace r n1) as [r1|] eqn:E1; [|congruence].
  destruct (Hk a s1 r1) as (n2 & T2 & P2).
  exists (n1 ++ n2). rewrite T2, T1, app_assoc, pace_app, E1. auto.
Qed.

Lemma keeps_pace_try {A} (m : M A) handled (h : exn -> M A) :
  keeps_pace m -> (forall e, keeps_pace (h e)) ->
  keeps_pace (try_except m handled h).
Proof.
  intros Hm Hh s r. unfold try_except.
  destruct (Hm s r) as (n1 & T1 & P1).
  destruct (m s) as [[a|e| |] s1]; cbn [snd] in *;
    try (exists n1; split; assumption).
  destruct (handled e); [|exists n1; split; assumption].
  destruct (pace r n1) as [r1|] eqn:E1; [|congruence].
  destruct (Hh e s1 r1) as (n2 & T2 & P2).
  exists (n1 ++ n2). rewrite T2, T1, app_assoc, pace_app, E1. auto.
Qed.

Lemma keeps_pace_while {X} (cond : X -> M bool) (body : X -> M X) (x : X) :
  (forall x, keeps_pace (cond x)) -> (forall x, keeps_pace (body x)) ->
  keeps_pace (while cond body x).
Proof.
  intros Hc Hb s. unfold while. generalize (S (List.length (rx s))) as fuel.
  intros fuel. revert x s. induction fuel as [|fuel IH]; intros x s;
    cbn [while_]; revert s; apply keeps_pace_bind; try apply Hc; intros [|].
  - intros s r. exists []. rewrite app_nil_r. split; [reflexivity|discriminate].
  - intros s r. exists []. rewrite app_nil_r. split; [reflexivity|discriminate].
  - apply keeps_pace_bind; [apply Hb|]. intros x' s. apply IH.
  - intros s r. exists []. rewrite app_nil_r. split; [reflexivity|discriminate].
Qed.

Lemma uplink_eq (command : str) :
  uplink command =
  (log INFO "Waiting to send message" [] ;;
   sleep 10000 ;;
   log INFO ("Sending command " ++ dquote ++ "%s" ++ dquote) [command] ;;
   response <- send command ;;
   after_send response).
Proof. reflexivity. Qed.

(** What follows the command in an uplink writes nothing. *)
Lemma after_send_silent (response : str) :
  appends not_write (after_send response).
Proof.
  unfold after_send, poll_follow_up. repeat add_step 0%Z.
Qed.

(** The command and what follows it, a pause of 10 s in hand. *)
Lemma send_rested (command : str) (s : state) :
  exists new,
    trace (snd ((response <- send command ;; after_send response) s))
    = trace s ++ new /\ pace true new <> None.
Proof.
  unfold bind.
  destruct (Py.encode (rstrip command ++ CRLF)) as [line|] eqn:E.
  - destruct (send_trace command line s E) as (evs & T & F & _).
    destruct (send command s) as [[response| | |] s2]; cbn [snd] in *.
    + destruct (after_send_silent response s2) as (n2 & T2 & F2).
      exists (Write line :: evs ++ n2).
      rewrite T2, T, <- app_assoc. split; [reflexivity|].
      cbn [pace]. destruct (str_eq line tx_line);
        apply pace_quiet, not_write_not_uplink;
        rewrite forallb_app, F, F2; reflexivity.
    + exists (Write line :: evs). split; [assumption|].
      cbn [pace]. destruct (str_eq line tx_line);
        apply pace_quiet, not_write_not_uplink, F.
    + exists (Write line :: evs). split; [assumption|].
      cbn [pace]. destruct (str_eq line tx_line);
        apply pace_quiet, not_write_not_uplink, F.
    + exists (Write line :: evs). split; [assumption|].
      cbn [pace]. destruct (str_eq line tx_line);
        apply pace_quiet, not_write_not_uplink, F.
  - rewrite (send_unframed command s E). exists [].
    rewrite app_nil_r. split; [reflexivity|discriminate].
Qed.

(** An uplink pauses 10 s and only then writes its command, once. *)
Lemma keeps_pace_uplink (command : str) : keeps_pace (uplink command).
Proof.
  intros s r. rewrite uplink_eq.
  destruct s as [rs tr n pf]. rewrite bind_log, bind_sleep, bind_log.
  destruct (send_rested command
              (mkState rs
                 (((tr ++ [Log INFO "Waiting to send message" []]) ++
                   [Sleep 10000]) ++
                  [Log INFO ("Sending command " ++ dquote ++ "%s" ++ dquote)
                       [command]]) n pf)) as (new & T & P).
  exists ([Log INFO "Waiting to send message" []; Sleep 10000;
           Log INFO ("Sending command " ++ dquote ++ "%s" ++ dquote)
               [command]] ++ new).
  split.
  - rewrite T. cbn [trace]. rewrite <- !app_assoc. reflexivity.
  - cbn [app pace]. rewrite orb_true_r. exact P.
Qed.

Lemma quiet_lora_setup (sf : Z) : appends not_uplink (lora_setup sf).
Proof.
  unfold lora_setup, provision, join_attempts, await_accept.
  cbv zeta. simpl for_each. repeat add_step sf.
Qed.

Lemma keeps_pace_main : keeps_pace main.
Proof.
  intros s r. rewrite main_run.
  destruct (port_fault s) as [e|].
  - destruct (port_error e).
    + eexists. cbn [snd emits trace]. rewrite <- app_assoc.
      split; [reflexivity|]. discriminate.
    + exists []. rewrite app_nil_r. split; [reflexivity|discriminate].
  - assert (K : keeps_pace serve).
    { unfold serve. apply keeps_pace_try.
      - apply keeps_pace_bind;
          [|intro; apply keeps_pace_appends; repeat add_step 0%Z].
        unfold main_loop. apply keeps_pace_while; intro.
        + apply keeps_pace_appends. repeat add_step 0%Z.
        + apply keeps_pace_bind.
          * apply keeps_pace_appends. unfold enter_session, connect.
            pose proof quiet_lora_setup.
            repeat lazymatch goal with
                   | |- appends _ (lora_setup _) => apply quiet_lora_setup
                   | |- _ => add_step 0%Z
                   end.
          * intro. unfold transmit_loop. apply keeps_pace_while; intro.
            -- apply keeps_pace_appends. repeat add_step 0%Z.
            -- apply keeps_pace_uplink.
      - intro. apply keeps_pace_appends. repeat add_step 0%Z. }
    destruct (K (emits [Open] s) r) as (new & T & P).
    exists (Open :: new). rewrite T. cbn [emits trace]. rewrite <- app_assoc.
    split; [reflexivity|]. exact P.
Qed.

(** X18.  The uplink command is only ever written after a pause of 10 s
    taken since the previous uplink command (or since the start): in every
    run of the whole script, no two uplinks are less than 10 s apart. *)
Theorem uplinks_are_ten_seconds_apart
  (script_rx : list rx_item) (fault : option exn) :
  pace false (trace (snd (script (boot script_rx fault)))) <> None.
Proof.
  rewrite script_run.
  destruct (keeps_pace_main (emits [Log INFO "Starting program RN2483" []]
                                   (boot script_rx fault)) false)
    as (new & -> & P).
  exact P.
Qed.

(* ===================================================================== *)
(** ** White space after a command (line 96) *)
(* ===================================================================== *)

Lemma lstrip_white (p : N -> bool) (a b : list N) :
  forallb p a = true -> lstrip_with p (a ++ b) = lstrip_with p b.
Proof.
  induction a as [|c a IH]; [reflexivity|]. cbn [forallb app lstrip_with].
  intros F; apply andb_true_iff in F as [Fc F]. rewrite Fc. apply IH, F.
Qed.

Lemma rstrip_white (p : N -> bool) (s ws : list N) :
  forallb p ws = true -> rstrip_with p (s ++ ws) = rstrip_with p s.
Proof.
  intros F. unfold rstrip_with. rewrite rev_app_distr, lstrip_white;
    [reflexivity|].
  rewrite forallb_forall in *. intros x Hx. apply F, in_rev, Hx.
Qed.

(** X19.  White space after a command changes nothing: [send] called with
    [data] followed by any white space (spaces, tabs, line ends, any
    character [str.rstrip()] removes) does exactly what [send] called with
    [data] does, on every state. *)
Theorem send_ignores_trailing_space (data ws : str) (s : state) :
  forallb isspace ws = true -> send (data ++ ws) s = send data s.
Proof.
  intros F. unfold send, frame, rstrip. rewrite (rstrip_white isspace data ws F).
  reflexivity.
Qed.

Lemma send_ignores_trailing_space_witness :
  send (lit "mac join otaa" ++ [32; 9; 13; 10; 0x3000]%N)
       (boot [Line (lit "ok" ++ [13; 10]%N)] None) =
  send (lit "mac join otaa") (boot [Line (lit "ok" ++ [13; 10]%N)] None).
Proof.
  apply (send_ignores_trailing_space (lit "mac join otaa")
           [32; 9; 13; 10; 0x3000]%N).
  reflexivity.
Defined.

(* ===================================================================== *)
(** ** The port is opened once (lines 73-81, 220) *)
(* ===================================================================== *)

(** X21.  The port is opened once, at the start, and never again: in
    every run of the script in which [sp.open()] succeeds, the opening is
    the second event, right after the first log record, and no later event
    opens the port, however many times the program provisions again; when
    [sp.open()] fails, no event is an opening of the port. *)
Theorem port_is_opened_once (script_rx : list rx_item) (e : exn) :
  (exists new,
     trace (snd (script (boot script_rx None))) =
       [Log INFO "Starting program RN2483" []; Open] ++ new /\
     forallb not_open new = true) /\
  forallb not_open (trace (snd (script (boot script_rx (Some e))))) = true.
Proof.
  split.
  - rewrite script_run, main_run. cbn [port_fault emits boot].
    destruct (appends_serve not_open (fun _ => eq_refl)
                (fun _ _ _ => eq_refl) eq_refl eq_refl eq_refl
                (mkState script_rx
                   ([] ++ [Log INFO "Starting program RN2483" []] ++ [Open])
                   0 None)) as (new & T & F).
    exists new. split; [|exact F].
    cbn [app] in T. cbn [trace rx error_counts port_fault app]. exact T.
  - rewrite script_run, main_run. cbn [port_fault emits boot].
    destruct e; reflexivity.
Qed.

(* ===================================================================== *)
(** ** The read that never times out (lines 73-80, 259-268) *)
(* ===================================================================== *)

Section Waits.

Variable P : event -> bool.

Lemma waits_weaken {A} (Q R : A -> Prop) (m : M A) :
  (forall a, Q a -> R a) -> waits P Q m -> waits P R m.
Proof.
  intros H Hm s U. destruct (Hm s U) as (U1 & T1 & Q1).
  repeat split; auto.
Qed.

Lemma waits_plain {A} (m : M A) :
  (forall s, rx (snd (m s)) = rx s) ->
  (forall s, trace (snd (m s)) = trace s) ->
  waits P whatever m.
Proof.
  intros Hr Ht s U. rewrite Hr. split; [exact U|]. split.
  - exists []. rewrite app_nil_r. auto.
  - intros; exact I.
Qed.

Lemma waits_emit (e : event) : P e = true -> waits P whatever (emit e).
Proof.
  intros Pe s U. split; [exact U|]. split.
  - exists [e]. cbn. rewrite Pe. auto.
  - intros; exact I.
Qed.

Lemma waits_str_encode (t : str) : waits P whatever (str_encode t).
Proof.
  apply waits_plain; intro s; unfold str_encode;
    destruct (Py.encode t); reflexivity.
Qed.

Lemma waits_bytes_decode (b : bytes) : waits P whatever (bytes_decode b).
Proof.
  apply waits_plain; intro s; unfold bytes_decode;
    destruct (Py.decode b); reflexivity.
Qed.

Lemma waits_bind {A B} (Q : A -> Prop) (R : B -> Prop)
  (m : M A) (k : A -> M B) :
  waits P Q m -> (forall a, Q a -> waits P R (k a)) -> waits P R (bind m k).
Proof.
  intros Hm Hk s U. unfold bind.
  destruct (Hm s U) as (U1 & (n1 & T1 & F1) & Q1).
  destruct (m s) as [[a|e| |] s1]; cbn [fst snd] in *;
    try (split; [exact U1|split; [exists n1; auto|intros; discriminate]]).
  destruct (Hk a (Q1 a eq_refl) s1 U1) as (U2 & (n2 & T2 & F2) & Q2).
  split; [exact U2|split; [|exact Q2]].
  exists (n1 ++ n2). rewrite T2, T1, app_assoc, forallb_app, F1, F2. auto.
Qed.

Lemma waits_try {A} (Q : A -> Prop) (m : M A) handled (h : exn -> M A) :
  waits P Q m -> (forall e, waits P Q (h e)) ->
  waits P Q (try_except m handled h).
Proof.
  intros Hm Hh s U. unfold try_except.
  destruct (Hm s U) as (U1 & (n1 & T1 & F1) & Q1).
  destruct (m s) as [[a|e| |] s1]; cbn [fst snd] in *;
    try (split; [exact U1|split; [exists n1; auto|assumption]]).
  destruct (handled e).
  - destruct (Hh e s1 U1) as (U2 & (n2 & T2 & F2) & Q2).
    split; [exact U2|split; [|exact Q2]].
    exists (n1 ++ n2). rewrite T2, T1, app_assoc, forallb_app, F1, F2. auto.
  - split; [exact U1|split; [exists n1; auto|assumption]].
Qed.

Lemma waits_while_ {X} (cond : X -> M bool) (body : X -> M X) :
  (forall x, waits P whatever (cond x)) ->
  (forall x, waits P whatever (body x)) ->
  forall fuel x, waits P whatever (while_ fuel cond body x).
Proof.
  intros Hc Hb fuel; induction fuel as [|fuel IH]; intros x; cbn [while_];
    (eapply waits_bind; [apply Hc|]); intros [|] _;
    try (apply waits_plain; reflexivity).
  eapply waits_bind; [apply Hb|]. intros x' _. apply IH.
Qed.

Lemma waits_while {X} (cond : X -> M bool) (body : X -> M X) (x : X) :
  (forall x, waits P whatever (cond x)) ->
  (forall x, waits P whatever (body x)) ->
  waits P whatever (while cond body x).
Proof. intros Hc Hb s. unfold while. apply waits_while_; assumption. Qed.

Lemma waits_for_each {X} (l : list X) (body : X -> M unit) :
  (forall x, waits P whatever (body x)) -> waits P whatever (for_each l body).
Proof.
  intros Hb; induction l; cbn [for_each];
    [apply waits_plain; reflexivity|].
  eapply waits_bind; [apply Hb|]. intros _ _. exact IHl.
Qed.

Hypothesis reads : forall b, P (Read b) = true.

(** A read on such a port gives a line that is not empty, when it gives
    anything. *)
Lemma waits_readline : waits P (fun b => b <> []) readline.
Proof.
  intros s U. unfold readline.
  destruct (rx s) as [|[b|] r] eqn:R; cbn [fst snd].
  - rewrite R. split; [reflexivity|]. split.
    + exists []. rewrite app_nil_r. auto.
    + intros; discriminate.
  - cbn [untimed forallb] in U. apply andb_true_iff in U as [Ub Ur].
    split; [exact Ur|]. split.
    + exists [Read b]. cbn. rewrite reads. auto.
    + intros a H. inversion H; subst a. intros ->. discriminate Ub.
  - cbn [untimed forallb] in U. apply andb_true_iff in U as [_ Ur].
    split; [exact Ur|]. split.
    + exists []. cbn. rewrite app_nil_r. auto.
    + intros; discriminate.
Qed.

Lemma waits_read_nonempty : waits P whatever read_nonempty.
Proof.
  unfold read_nonempty.
  eapply waits_bind; [apply waits_readline|]. intros b _.
  apply waits_while; intro.
  - apply waits_plain; reflexivity.
  - eapply waits_weaken; [|apply waits_readline]. intros; exact I.
Qed.

(** On such a port the polling is its first read, line 260: the loop of
    lines 261-264 is never entered. *)
Lemma poll_is_one_read (s : state) :
  untimed (rx s) = true -> poll_follow_up s = readline s.
Proof.
  intros U. unfold poll_follow_up, bind, readline.
  destruct (rx s) as [|[[|c b]|] r]; try reflexivity.
  discriminate U.
Qed.

Lemma waits_poll_follow_up : waits P (fun b => b <> []) poll_follow_up.
Proof.
  intros s U. rewrite (poll_is_one_read s U). apply waits_readline, U.
Qed.

End Waits.

Ltac wait_step :=
  lazymatch goal with
  | |- waits _ _ (bind poll_follow_up _) =>
      eapply waits_bind;
      [ apply waits_poll_follow_up; intro; reflexivity
      | intros [|? ?] ?; [contradiction|]; cbn [is_empty] ]
  | |- waits _ _ (bind _ _) => eapply waits_bind; [|intros ? _]
  | |- waits _ _ (while _ _ _) => apply waits_while; intro
  | |- waits _ _ (for_each _ _) => apply waits_for_each; intro
  | |- waits _ _ (try_except _ _ _) => apply waits_try; [|intro]
  | |- waits _ _ read_nonempty =>
      apply waits_read_nonempty; intro; reflexivity
  | |- waits _ _ (str_encode _) => apply waits_str_encode
  | |- waits _ _ (bytes_decode _) => apply waits_bytes_decode
  | |- waits _ _ (log _ _ _) => apply waits_emit; reflexivity
  | |- waits _ _ (sleep _) => apply waits_emit; reflexivity
  | |- waits _ _ (write _) => apply waits_emit; reflexivity
  | |- waits _ _ close => apply waits_emit; reflexivity
  | |- waits _ _ (if ?b then _ else _) => destruct b
  | |- waits _ _ (match ?o with Some _ => _ | None => _ end) => destruct o
  | |- waits _ _ (let _ := _ in _) => cbv zeta
  | |- waits _ _ (send _) => unfold send, frame
  | |- waits _ _ (join_turn _) => unfold join_turn
  | |- waits _ _ (transmit_test _) => unfold transmit_test
  | |- waits _ _ incr_error_counts => unfold incr_error_counts
  | |- waits _ _ _ => apply waits_plain; intro; reflexivity
  end.

(** In no run on such a port does [uplink] pause between two polls or
    record that the follow-up line did not come. *)
Lemma waits_uplink (command : str) :
  waits not_given_up whatever (uplink command).
Proof. unfold uplink. repeat wait_step. Qed.

Lemma waits_lora_setup (sf : Z) :
  waits not_given_up whatever (lora_setup sf).
Proof.
  unfold lora_setup, provision, join_attempts, await_accept.
  repeat wait_step.
Qed.

Lemma waits_main : waits not_given_up whatever main.
Proof.
  intros s U. rewrite main_run.
  destruct (port_fault s) as [e|].
  - destruct (port_error e); cbn [fst snd emits rx trace].
    + split; [exact U|]. split; [|intros; exact I].
      eexists. rewrite <- app_assoc. split; reflexivity.
    + split; [exact U|]. split; [|intros; exact I].
      exists []. rewrite app_nil_r. auto.
  - assert (W : waits not_given_up whatever serve).
    { unfold serve, main_loop, enter_session, connect, transmit_loop.
      repeat lazymatch goal with
             | |- waits _ _ (uplink _) => apply waits_uplink
             | |- waits _ _ (lora_setup _) => apply waits_lora_setup
             | |- _ => wait_step
             end. }
    destruct (W (emits [Open] s) U) as (U1 & (new & T & F) & _).
    split; [exact U1|]. split; [|intros; exact I].
    exists (Open :: new). rewrite T. cbn [emits trace forallb not_given_up].
    rewrite <- app_assoc, F. auto.
Qed.

(** The modem says "ok" and then nothing: the read of line 260 has nothing
    to return and no time after which to return it. *)
Lemma uplink_left_waiting (command : str) (line : bytes) (p : reply)
  tr n pf :
  Py.encode (rstrip command ++ CRLF) = Some line -> genuine p ->
  contains ok (text p) = true ->
  uplink command (mkState (heard p) tr n pf) =
  (Blocked,
   mkState []
     (tr ++ uplink_events command line p ++
      [Log DEBUG "Message successfuly sent through serial" []])
     n pf).
Proof.
  intros E G K. unfold uplink.
  rewrite <- (app_nil_r (heard p)).
  rewrite (uplink_sends _ line p _ [] tr n pf E G).
  rewrite K. cbn [negb]. rewrite bind_log.
  rewrite <- app_assoc. reflexivity.
Qed.

(** C7.  The port is opened without a timeout (lines 73-80): a read
    waits until a line has come, and the loop of lines 261-264 and the
    failure of lines 265-268, written for reads that come back empty, are
    never reached.  After an acknowledged uplink (the answer to the command
    holds "ok"), when the modem sends nothing more, [uplink] does not
    return: the run is left waiting in the read of line 260, no pause of
    the polling taken, no failure logged, [error_counts] as it was.  On
    such a port the polling is always its first read alone, and what it
    returns is a line that is not empty; and in no run of the whole script,
    whatever lines come and whether or not the port opens, is a pause of
    1 s taken or the failure "No response, maybe collision or message lost"
    recorded. *)
Theorem follow_up_read_never_times_out
  (command : str) (line : bytes) (p : reply)
  (tr : list event) (n : Z) (pf : option exn) :
  Py.encode (rstrip command ++ CRLF) = Some line ->
  genuine p -> quiet p = 0 -> contains ok (text p) = true ->
  untimed (heard p) = true /\
  uplink command (mkState (heard p) tr n pf) =
  (Blocked,
   mkState []
     (tr ++ uplink_events command line p ++
      [Log DEBUG "Message successfuly sent through serial" []])
     n pf) /\
  (forall s, untimed (rx s) = true ->
     poll_follow_up s = readline s /\
     forall ret_, fst (poll_follow_up s) = Ret ret_ -> ret_ <> []) /\
  (forall script_rx fault, untimed script_rx = true ->
     forallb not_given_up (trace (snd (script (boot script_rx fault))))
     = true).
Proof.
  intros E G Q0 K. split; [|split; [|split]].
  - unfold heard. rewrite Q0. destruct G as [Hb _].
    destruct (raw p); [contradiction|reflexivity].
  - apply (uplink_left_waiting command line p tr n pf E G K).
  - intros s U. split; [apply poll_is_one_read, U|].
    apply (waits_poll_follow_up not_given_up (fun _ => eq_refl) s U).
  - intros script_rx fault U. rewrite script_run.
    destruct (waits_main
                (emits [Log INFO "Starting program RN2483" []]
                       (boot script_rx fault)) U) as (_ & (new & T & F) & _).
    rewrite T. cbn [emits boot trace app forallb].
    rewrite F. reflexivity.
Qed.

Lemma follow_up_read_never_times_out_witness :
  untimed (heard (says "ok")) = true /\
  uplink tx_command (mkState (heard (says "ok")) [] 0 None) =
  (Blocked,
   mkState []
     ([] ++ uplink_events tx_command tx_line (says "ok") ++
      [Log DEBUG "Message successfuly sent through serial" []])
     0 None) /\
  (forall s, untimed (rx s) = true ->
     poll_follow_up s = readline s /\
     forall ret_, fst (poll_follow_up s) = Ret ret_ -> ret_ <> []) /\
  (forall script_rx fault, untimed script_rx = true ->
     forallb not_given_up (trace (snd (script (boot script_rx fault))))
     = true).
Proof.
  apply (follow_up_read_never_times_out tx_command tx_line (says "ok")
           [] 0%Z None).
  - vm_compute. reflexivity.
  - split; [discriminate|reflexivity].
  - reflexivity.
  - reflexivity.
Defined.

(* ===================================================================== *)
(** ** Runs of the whole program *)
(* ===================================================================== *)

Example builtins_on_literals :
  rstrip (lit "mac save" ++ [32; 13; 10; 9]%N) = lit "mac save" /\
  strip ([32; 9]%N ++ lit "ok" ++ [13; 10]%N) = lit "ok" /\
  split space (lit "mac_rx 1 a1b2c3") = [lit "mac_rx"; lit "1"; lit "a1b2c3"] /\
  contains ok (lit "invalid_param") = false /\
  contains ok (lit "mac_tx_ok") = true /\
  hex (lit "Hello") = lit "48656c6c6f" /\
  str_of_int 5 = lit "5" /\ str_of_int (-12) = lit "-12" /\
  Py.decode [0xE2; 0x82; 0xAC]%N = Some [0x20AC]%N /\
  Py.encode [0x20AC]%N = Some [0xE2; 0x82; 0xAC]%N /\
  Py.decode [0xC0; 0x80]%N = None /\ Py.encode [0xD800]%N = None.
Proof. repeat split; reflexivity. Qed.

(** The command [main] builds (lines 226-229). *)
Example main_command :
  Py.encode MESSAGE = Some (lit "Hello from DEADDEAD00090002") /\
  tx_command =
  lit "mac tx cnf 220 48656c6c6f2066726f6d2044454144444541443030303930303032".
Proof. split; reflexivity. Qed.

(** On [two_sessions] the program has connected twice, provisioned twice,
    counted the second session from 0, and [main] returns 0 after closing
    the port. *)
Example main_two_sessions :
  fst (main (boot two_sessions None)) = Ret (Some 0%Z) /\
  error_counts (snd (main (boot two_sessions None))) = 0%Z /\
  failures (trace (snd (main (boot two_sessions None)))) = 6 /\
  List.length
    (filter (fun b => str_eq b reset_command)
            (writes (trace (snd (main (boot two_sessions None)))))) = 2 /\
  index_last (trace (snd (main (boot two_sessions None)))) = Some Close.
Proof. repeat split; vm_compute; reflexivity. Qed.

(** The three checks of the traces do reject: a command written while an
    answer is outstanding, an uplink without its pause, a line or a pause
    that is not the script's. *)
Example disciplines_can_fail :
  walk Idle [Write tx_line; Write tx_line] = None /\
  walk Idle [Write tx_line; Sleep 200; Read []; Write tx_line] = None /\
  walk Idle [Write tx_line; Sleep 200; Sleep 1000] = None /\
  pace false [Write tx_line] = None /\
  pace false [Sleep 10000; Write tx_line; Write tx_line] = None /\
  script_event (Write (wire "sys factoryRESET")) = false /\
  script_event (Sleep 5000) = false.
Proof. repeat split; reflexivity. Qed.

(** The whole program on a port without a timeout: provisioned, joined and
    accepted, its first uplink acknowledged, and nothing more from the
    modem.  The run stays in the read of line 260, no failure counted. *)
Example script_waits_after_ok :
  untimed (flat_map heard (repeat (says "ok") 13) ++
           heard (says "accepted") ++ heard (says "ok")) = true /\
  fst (script (boot (flat_map heard (repeat (says "ok") 13) ++
                     heard (says "accepted") ++ heard (says "ok")) None))
  = Blocked /\
  error_counts
    (snd (script (boot (flat_map heard (repeat (says "ok") 13) ++
                        heard (says "accepted") ++ heard (says "ok")) None)))
  = 0%Z /\
  index_last
    (trace
       (snd (script (boot (flat_map heard (repeat (says "ok") 13) ++
                           heard (says "accepted") ++ heard (says "ok"))
                          None))))
  = Some (Log DEBUG "Message successfuly sent through serial" []) /\
  not_given_up (Sleep 1000) = false /\
  not_given_up (Log ERROR "No response, maybe collision or message lost" [])
  = false.
Proof. repeat split; vm_compute; reflexivity. Qed.
